(** * Breathe-Script: the memorizer and its shell

    A shallow embedding of [src/components/Memorizer.tsx]: the tokenizer
    ([script.content.split(/(\s+)/)] and [wordIndices]), the blackout
    counter, the peek state with its 600 ms timeout effect, the stopwatch
    and the pace classifier, the rendered word area, header and footer,
    and the cleanups at unmount.  Further: the application shell
    ([App.tsx]: the script list and its handlers), the cue sheet of the
    memorizer with notes ([formatInitialContent] and the auto-save
    effect), and the answers of the script service.

    Conventions.
    - A JavaScript string is the list of its UTF-16 code units.
    - Integer-valued JavaScript numbers that the component only counts
      with (array indices, lengths, [blackedOutCount], timer handles,
      [Date.now()] milliseconds) are [Z]; [-1] is the usual "absent"
      index.
    - JavaScript numbers that can be fractional or NaN ([elapsed],
      [progressPercentage], [wpm]) are IEEE 754 binary64 values, the
      kernel's primitive [float].
    - What the host answers ([window.confirm], [Math.random], the clock,
      the outcome of a request) is an argument of the handler that asks
      for it. *)

From Equations Require Import Equations.
From Stdlib Require Import String.
From Stdlib Require Import List ZArith Bool Lia Floats Uint63.
Import ListNotations.

Local Open Scope Z_scope.

(** ** JavaScript strings and the two regular expressions *)

Module JsString.

(** A UTF-16 code unit, [0 .. 65535]. *)
Definition code_unit := Z.

Definition jsstring := list code_unit.

(** The character class [\s] of ECMAScript: WhiteSpace and LineTerminator
    code points (TAB, LF, VT, FF, CR, SP, NBSP, U+1680, U+2000..U+200A,
    U+2028, U+2029, U+202F, U+205F, U+3000, U+FEFF). *)
Definition is_whitespace (c : code_unit) : bool :=
  (c =? 9) || (c =? 10) || (c =? 11) || (c =? 12) || (c =? 13) ||
  (c =? 32) || (c =? 160) || (c =? 5760) ||
  ((8192 <=? c) && (c <=? 8202)) ||
  (c =? 8232) || (c =? 8233) || (c =? 8239) || (c =? 8287) ||
  (c =? 12288) || (c =? 65279).

(** [/\S/.test(w)]: some code unit of [w] is not whitespace. *)
Definition test_non_whitespace (w : jsstring) : bool :=
  existsb (fun c => negb (is_whitespace c)) w.

(** The greedy quantifier [\s+] consumes the longest whitespace prefix. *)
Fixpoint take_whitespace (s : jsstring) : jsstring :=
  match s with
  | c :: s' => if is_whitespace c then c :: take_whitespace s' else []
  | [] => []
  end.

Fixpoint drop_whitespace (s : jsstring) : jsstring :=
  match s with
  | c :: s' => if is_whitespace c then drop_whitespace s' else s
  | [] => []
  end.

(** One sticky match of [/(\s+)/] at the current position, as the split
    loop calls it: [None] when the next code unit is not whitespace,
    otherwise the captured run and the text after it. *)
Definition exec_whitespace_run (s : jsstring) : option (jsstring * jsstring) :=
  match s with
  | c :: s' =>
      if is_whitespace c
      then Some (c :: take_whitespace s', drop_whitespace s')
      else None
  | [] => None
  end.

(** Keeps the equation of a scrutinee in scope of the branches. *)
Definition inspect {A : Type} (a : A) : {b : A | a = b} := exist _ a eq_refl.

(** The loop of [RegExp.prototype[Symbol.split]] for the splitter
    [/(\s+)/].  [cur] is the text between the end of the previous match
    (index [p]) and the current position (index [q]); [rest] is the text
    from [q] on.  When the splitter does not match at [q], [q] moves one
    code unit on.  When it matches, the segment [S[p..q)] and the capture
    are appended and both indices jump behind the match.  The final
    segment [S[p..size)] is always appended.  A match of [\s+] is never
    empty, so the test [e = p] of the algorithm never holds, and the
    limit of [2^32 - 1] segments is beyond any string an engine holds. *)
Equations? split_loop (cur rest : jsstring) : list jsstring
  by wf (length rest) lt :=
  split_loop cur [] := [cur];
  split_loop cur (c :: rest') with inspect (exec_whitespace_run (c :: rest')) => {
    | exist _ None _ := split_loop (cur ++ [c]) rest';
    | exist _ (Some (m, after)) Hm := cur :: m :: split_loop [] after }.
Proof.
  (* the match consumed at least the code unit [c] *)
  clear split_loop. revert Hm. simpl.
  destruct (is_whitespace c); [|discriminate].
  intros H; injection H as _ <-.
  assert (Hlen : forall s, (length (drop_whitespace s) <= length s)%nat).
  { induction s as [|d s IH]; simpl; [lia|].
    destruct (is_whitespace d); simpl; lia. }
  specialize (Hlen rest'). lia.
Qed.

(** [content.split(/(\s+)/)].  For the empty string the splitter cannot
    match, and the result is the one-element array holding the empty
    string. *)
Definition split_whitespace (s : jsstring) : list jsstring :=
  match s with
  | [] => [[]]
  | _ => split_loop [] s
  end.

End JsString.

(** ** JavaScript numbers *)

Module JsNumber.

(** The Number value of an integer.  It is exact for every integer of
    magnitude below [2^53], which covers array lengths, indices and
    differences of [Date.now()] readings. *)
Definition number_of_Z (z : Z) : float :=
  if z <? 0 then PrimFloat.opp (PrimFloat.of_uint63 (Uint63.of_Z (- z)))
  else PrimFloat.of_uint63 (Uint63.of_Z z).

(** [Math.round]: NaN, the infinities and the zeros are returned
    unchanged, and so is a value that is already integral.  Otherwise the
    result is [floor (x + 1/2)] computed exactly on the value
    [(-1)^s * m * 2^e] of [x], with [-0] for [-0.5 <= x < 0]. *)
Definition Math_round (x : float) : float :=
  match Prim2SF x with
  | S754_finite s m e =>
      if 0 <=? e then x
      else
        let d := Z.pow 2 (- e) in
        let n := (2 * (if s then Z.neg m else Z.pos m) + d) / (2 * d) in
        if (n =? 0) && s then PrimFloat.neg_zero else number_of_Z n
  | _ => x
  end.

End JsNumber.

(** ** The component *)

Module Memorizer.

Import JsString JsNumber.

(** *** Arrays *)

(** [Array.prototype.map]: the callback receives the element and its
    index. *)
Fixpoint map_with_index {A B : Type} (f : A -> Z -> B) (idx : Z) (l : list A)
  : list B :=
  match l with
  | [] => []
  | x :: l' => f x idx :: map_with_index f (idx + 1) l'
  end.

(** [Array.prototype.indexOf]: the first index holding [x], else [-1]. *)
Fixpoint indexOf_from (k : Z) (l : list Z) (x : Z) : Z :=
  match l with
  | [] => -1
  | y :: l' => if y =? x then k else indexOf_from (k + 1) l' x
  end.

Definition indexOf (l : list Z) (x : Z) : Z := indexOf_from 0 l x.

(** *** Derived data *)

(** [const words = script.content.split(/(\s+)/)] *)
Definition words (content : jsstring) : list jsstring :=
  split_whitespace content.

(** [words.map((w, idx) => (/\S/.test(w) ? idx : -1)).filter((idx) => idx !== -1)] *)
Definition wordIndices (words : list jsstring) : list Z :=
  filter (fun idx => negb (idx =? -1))
    (map_with_index (fun w idx => if test_non_whitespace w then idx else -1)
       0 words).

(** [const totalWords = wordIndices.length] *)
Definition totalWords (wordIndices : list Z) : Z :=
  Z.of_nat (List.length wordIndices).

Definition isWordBlackedOut (wordIndices : list Z) (blackedOutCount : Z)
  (indexInWords : Z) : bool :=
  let actualWordIndex := indexOf wordIndices indexInWords in
  negb (actualWordIndex =? -1) && (actualWordIndex <? blackedOutCount).

(** [Math.round((blackedOutCount / totalWords) * 100)] *)
Definition progressPercentage (blackedOutCount totalWords : Z) : float :=
  Math_round
    (PrimFloat.mul
       (PrimFloat.div (number_of_Z blackedOutCount) (number_of_Z totalWords))
       100).

Definition wpm (elapsed : float) (totalWords : Z) : float :=
  if PrimFloat.ltb elapsed 1 then 0%float
  else Math_round (PrimFloat.div (number_of_Z totalWords)
                     (PrimFloat.div elapsed 60)).

Record Feedback := {
  label : String.string;
  desc : String.string;
  color : String.string;
  bg : String.string;
  border : String.string
}.

Definition getSpeedFeedback (wpm : float) : Feedback :=
  if PrimFloat.ltb wpm 135 then
    {| label := "TOO SLOW"%string; desc := "Trust goes down."%string;
       color := "text-orange-400"%string; bg := "bg-orange-500/10"%string;
       border := "border-orange-500/20"%string |}
  else if PrimFloat.ltb 185 wpm then
    {| label := "TOO FAST"%string; desc := "Trust goes down."%string;
       color := "text-red-400"%string; bg := "bg-red-500/10"%string;
       border := "border-red-500/20"%string |}
  else
    {| label := "SWEET SPOT"%string; desc := "High authority."%string;
       color := "text-green-400"%string; bg := "bg-green-500/10"%string;
       border := "border-green-500/20"%string |}.

(** *** State

    The hook state of one mounted component, together with the part of
    the host that its callbacks touch: the window's table of pending
    timers and the handle that the peek effect's cleanup closure holds.
    A state update of a handler ([setBlackedOutCount(prev => ..)],
    [setPeekIndex(..)], ..) acts on the state of the moment; what a
    handler tests in a condition is the value that the render which
    created the handler saw (see [Render] below). *)

Inductive Callback :=
| PeekExpiry   (* [() => setPeekIndex(null)], armed by [setTimeout(.., 600)] *)
| ElapsedTick. (* [() => setElapsed(..)], armed by [setInterval(.., 100)] *)

Record Timer := {
  timer_handle : Z;
  timer_due : Z;            (* earliest time, in ms, of the next run *)
  timer_callback : Callback
}.

Record State := {
  blackedOutCount : Z;
  peekIndex : option Z;
  isTiming : bool;
  elapsed : float;
  startTimeRef : Z;
  timerIntervalRef : Z;
  peekCleanup : option Z;   (* [timer] captured by [() => clearTimeout(timer)] *)
  timers : list Timer;
  nextHandle : Z
}.

(** The state at mounting; the window hands out handles from
    [firstHandle] on (handles are positive, so the initial
    [timerIntervalRef.current = 0] names no timer). *)
Definition initialState (firstHandle : positive) : State :=
  {| blackedOutCount := 0; peekIndex := None; isTiming := false;
     elapsed := 0%float; startTimeRef := 0; timerIntervalRef := 0;
     peekCleanup := None; timers := []; nextHandle := Z.pos firstHandle |}.

Definition set_blackedOutCount (v : Z) (s : State) : State :=
  {| blackedOutCount := v; peekIndex := peekIndex s; isTiming := isTiming s;
     elapsed := elapsed s; startTimeRef := startTimeRef s;
     timerIntervalRef := timerIntervalRef s; peekCleanup := peekCleanup s;
     timers := timers s; nextHandle := nextHandle s |}.

Definition set_peek (v cleanup : option Z) (s : State) : State :=
  {| blackedOutCount := blackedOutCount s; peekIndex := v;
     isTiming := isTiming s; elapsed := elapsed s;
     startTimeRef := startTimeRef s; timerIntervalRef := timerIntervalRef s;
     peekCleanup := cleanup; timers := timers s; nextHandle := nextHandle s |}.

Definition set_timers (ts : list Timer) (next : Z) (s : State) : State :=
  {| blackedOutCount := blackedOutCount s; peekIndex := peekIndex s;
     isTiming := isTiming s; elapsed := elapsed s;
     startTimeRef := startTimeRef s; timerIntervalRef := timerIntervalRef s;
     peekCleanup := peekCleanup s; timers := ts; nextHandle := next |}.

Definition set_timing (running : bool) (el : float) (start interval : Z)
  (s : State) : State :=
  {| blackedOutCount := blackedOutCount s; peekIndex := peekIndex s;
     isTiming := running; elapsed := el; startTimeRef := start;
     timerIntervalRef := interval; peekCleanup := peekCleanup s;
     timers := timers s; nextHandle := nextHandle s |}.

(** *** The window's timers *)

(** [clearTimeout(h)] / [clearInterval(h)]: one table, one operation. *)
Definition clearTimer (h : Z) (s : State) : State :=
  set_timers (filter (fun t => negb (timer_handle t =? h)) (timers s))
    (nextHandle s) s.

(** [setTimeout(cb, delay)] / [setInterval(cb, delay)] called at [now];
    returns the fresh handle. *)
Definition armTimer (cb : Callback) (now delay : Z) (s : State) : Z * State :=
  let h := nextHandle s in
  (h, set_timers ({| timer_handle := h; timer_due := now + delay;
                    timer_callback := cb |} :: timers s) (h + 1) s).

(** *** Renders

    What one render saw of the state hooks.  The handlers that the
    render creates close over these values, and the effect compares its
    dependency with the one of the previous render. *)

Record Render := {
  seen_blackedOutCount : Z;
  seen_peekIndex : option Z;
  seen_isTiming : bool
}.

Definition render (s : State) : Render :=
  {| seen_blackedOutCount := blackedOutCount s;
     seen_peekIndex := peekIndex s;
     seen_isTiming := isTiming s |}.

(** *** The peek effect *)

Definition option_Z_eqb (a b : option Z) : bool :=
  match a, b with
  | Some x, Some y => x =? y
  | None, None => true
  | _, _ => false
  end.

(** One run of the effect of [useEffect(.., [peekIndex])]: first the
    cleanup returned by the previous run, then the body. *)
Definition peekEffect (now : Z) (s : State) : State :=
  let s1 := match peekCleanup s with
            | Some timer => clearTimer timer s
            | None => s
            end in
  match peekIndex s1 with
  | Some _ =>
      let (timer, s2) := armTimer PeekExpiry now 600 s1 in
      set_peek (peekIndex s2) (Some timer) s2
  | None => set_peek None None s1
  end.

(** The commit of a render at [now]: the effect runs when [peekIndex]
    is not the value that the previous render saw. *)
Definition commit (now : Z) (seen : Render) (s : State) : State :=
  if option_Z_eqb (seen_peekIndex seen) (peekIndex s) then s
  else peekEffect now s.

(** [setPeekIndex(v)] *)
Definition setPeekIndex (v : option Z) (s : State) : State :=
  set_peek v (peekCleanup s) s.

(** [const isPeeking = peekIndex === idx] *)
Definition isPeeking (s : State) (idx : Z) : bool :=
  option_Z_eqb (peekIndex s) (Some idx).

(** The component between two turns of the event loop: the state of the
    moment and what the last render saw of it. *)
Record Component := {
  state : State;
  seen : Render
}.

(** The mounted component after its first render; the first run of the
    effect finds [peekIndex === null] and arms nothing. *)
Definition mount (firstHandle : positive) : Component :=
  {| state := initialState firstHandle;
     seen := render (initialState firstHandle) |}.

Section Handlers.

(** [script.content], fixed for the life of the component. *)
Variable content : jsstring.

(** [onClick={() => { if (blacked) setPeekIndex(idx); }}] on the span of
    token [idx], where [blacked = isWordBlackedOut(idx)] was computed by
    the render; only spans of word tokens carry the handler, and only
    those can be blacked out. *)
Definition onClick (seen : Render) (idx : Z) (s : State) : State :=
  let blacked :=
    isWordBlackedOut (wordIndices (words content))
      (seen_blackedOutCount seen) idx in
  if blacked then setPeekIndex (Some idx) s else s.

(** [if (blackedOutCount < totalWords) setBlackedOutCount((prev) => prev + 1)] *)
Definition nextStep (seen : Render) (s : State) : State :=
  if seen_blackedOutCount seen <? totalWords (wordIndices (words content))
  then set_blackedOutCount (blackedOutCount s + 1) s
  else s.

(** [if (blackedOutCount > 0) setBlackedOutCount((prev) => prev - 1)] *)
Definition prevStep (seen : Render) (s : State) : State :=
  if 0 <? seen_blackedOutCount seen
  then set_blackedOutCount (blackedOutCount s - 1) s
  else s.

(** [confirmed] is the answer of [window.confirm]. *)
Definition reset (confirmed : bool) (s : State) : State :=
  if confirmed then set_blackedOutCount 0 s else s.

(** [toggleTimer] branches on the [isTiming] of its render; the refs are
    read and written as they are at the call. *)
Definition toggleTimer (seen : Render) (now : Z) (s : State) : State :=
  if seen_isTiming seen then
    (* Stop *)
    let s1 := clearTimer (timerIntervalRef s) s in
    set_timing false (elapsed s1) (startTimeRef s1) (timerIntervalRef s1) s1
  else
    (* Start *)
    let (h, s1) := armTimer ElapsedTick now 100 s in
    set_timing true 0%float now h s1.

(** The interval callback:
    [setElapsed((Date.now() - startTimeRef.current) / 1000)]. *)
Definition tick (now : Z) (s : State) : State :=
  set_timing (isTiming s)
    (PrimFloat.div (number_of_Z (now - startTimeRef s)) 1000)
    (startTimeRef s) (timerIntervalRef s) s.

(** The window runs the callback of timer [h] at time [now], provided the
    timer is still pending and due.  A timeout leaves the table when it
    runs; an interval is armed again. *)
Definition fireTimer (now h : Z) (s : State) : State :=
  match find (fun t => timer_handle t =? h) (timers s) with
  | Some t =>
      if timer_due t <=? now then
        match timer_callback t with
        | PeekExpiry => setPeekIndex None (clearTimer h s)
        | ElapsedTick =>
            let s1 := clearTimer h s in
            tick now
              (set_timers ({| timer_handle := h; timer_due := now + 100;
                              timer_callback := ElapsedTick |} :: timers s1)
                 (nextHandle s1) s1)
        end
      else s
  | None => s
  end.

(** *** Runs

    What happens to the component, one thing at a time: a call of a
    handler of the last render, a run of a timer callback, or the next
    render.  A render need not follow each call: calls that come before
    the next render all belong to the same render. *)

Inductive Event :=
| ClickWord (idx : Z)
| NextStep
| PrevStep
| Reset (confirmed : bool)
| ToggleTimer
| TimerFires (handle : Z)
| Rerender.

Definition handle (now : Z) (ev : Event) (c : Component) : Component :=
  match ev with
  | ClickWord idx =>
      {| state := onClick (seen c) idx (state c); seen := seen c |}
  | NextStep => {| state := nextStep (seen c) (state c); seen := seen c |}
  | PrevStep => {| state := prevStep (seen c) (state c); seen := seen c |}
  | Reset confirmed =>
      {| state := reset confirmed (state c); seen := seen c |}
  | ToggleTimer =>
      {| state := toggleTimer (seen c) now (state c); seen := seen c |}
  | TimerFires h => {| state := fireTimer now h (state c); seen := seen c |}
  | Rerender =>
      let s := commit now (seen c) (state c) in
      {| state := s; seen := render s |}
  end.

(** A run: events with the time at which each happens. *)
Definition run (evs : list (Z * Event)) (c : Component) : Component :=
  fold_left (fun c e => handle (fst e) (snd e) c) evs c.

(** A turn of the event loop in which the render follows the call at
    once, and a run of such turns. *)
Definition turn (now : Z) (ev : Event) (c : Component) : Component :=
  handle now Rerender (handle now ev c).

Definition turns (evs : list (Z * Event)) (c : Component) : Component :=
  fold_left (fun c e => turn (fst e) (snd e) c) evs c.

End Handlers.

End Memorizer.

(** ** What the component renders and how it is torn down *)

Module MemorizerView.

Import JsString JsNumber Memorizer.

(** The two class groups that the span of a word token chooses between,
    and the overlay that covers a blacked-out word. *)
Record WordSpan := {
  span_key : Z;
  span_text : jsstring;
  span_cursor : string;   (* ['cursor-pointer select-none'] or [''] *)
  span_tone : string;
  span_overlay : bool
}.

Inductive Span :=
| Word (w : WordSpan)                   (* the span with the click handler *)
| Separator (key : Z) (text : jsstring). (* [<span key={idx}>{word}</span>] *)

Section Render.

Variable content : jsstring.

(** The callback of [words.map((word, idx) => ..)] in the main area. *)
Definition renderToken (s : State) (word : jsstring) (idx : Z) : Span :=
  let blacked :=
    isWordBlackedOut (wordIndices (words content)) (blackedOutCount s) idx in
  let isPeeking := isPeeking s idx in
  if test_non_whitespace word then
    Word {| span_key := idx;
            span_text := word;
            span_cursor :=
              if blacked then "cursor-pointer select-none"%string
              else ""%string;
            span_tone :=
              if blacked && negb isPeeking
              then "bg-zinc-800 text-transparent"%string
              else if isPeeking then "bg-zinc-800 text-zinc-400"%string
              else "text-zinc-100"%string;
            span_overlay := blacked && negb isPeeking |}
  else Separator idx word.

Definition renderWords (s : State) : list Span :=
  map_with_index (renderToken s) 0 (words content).

(** The footer: [disabled={blackedOutCount === 0}] on Step Back,
    [disabled={blackedOutCount >= totalWords}] and the label on the
    primary button. *)
Definition stepBackDisabled (s : State) : bool := blackedOutCount s =? 0.

Definition nextDisabled (s : State) : bool :=
  totalWords (wordIndices (words content)) <=? blackedOutCount s.

Definition nextLabel (s : State) : string :=
  if blackedOutCount s =? totalWords (wordIndices (words content))
  then "Script Mastered"%string else "Blackout Next Word"%string.

(** The header: the result panel is rendered when
    [!isTiming && elapsed > 0]; the idle stopwatch button reads
    [elapsed > 0 ? "Start Again" : "Start Timer"]. *)
Definition statsShown (s : State) : bool :=
  negb (isTiming s) && PrimFloat.ltb 0 (elapsed s).

Definition idleTimerLabel (s : State) : string :=
  if PrimFloat.ltb 0 (elapsed s) then "Start Again"%string
  else "Start Timer"%string.

(** What the result panel shows: [{wpm}] and [{feedback.label}]. *)
Definition shownWpm (s : State) : float :=
  wpm (elapsed s) (totalWords (wordIndices (words content))).

Definition shownLabel (s : State) : string :=
  label (getSpeedFeedback (shownWpm s)).

End Render.

(** Unmounting runs the cleanups of the effects in the order of their
    declaration: [() => clearTimeout(timer)] of the peek effect when its
    last run returned one, then
    [() => clearInterval(timerIntervalRef.current)]. *)
Definition unmount (s : State) : State :=
  let s1 := match peekCleanup s with
            | Some timer => clearTimer timer s
            | None => s
            end in
  clearTimer (timerIntervalRef s1) s1.

End MemorizerView.

(** ** String methods used outside the tokenizer *)

Module JsStringMethods.

Import JsString.

(** A string literal of the source, as code units (the literals of the
    program are ASCII). *)
Definition js (s : string) : jsstring :=
  map (fun a => Z.of_N (Ascii.N_of_ascii a)) (list_ascii_of_string s).

(** [a === b] on strings. *)
Fixpoint jsstring_eqb (a b : jsstring) : bool :=
  match a, b with
  | [], [] => true
  | x :: a', y :: b' => (x =? y) && jsstring_eqb a' b'
  | _, _ => false
  end.

(** The truth value of a string in a condition or under [||]: every
    string but the empty one. *)
Definition truthy (s : jsstring) : bool :=
  match s with
  | [] => false
  | _ :: _ => true
  end.

(** [v || d] for a possibly undefined string [v]. *)
Definition or_default (v : option jsstring) (d : jsstring) : jsstring :=
  match v with
  | Some s => if truthy s then s else d
  | None => d
  end.

(** [String.prototype.trim]: the code units it strips are WhiteSpace and
    LineTerminator, the class [\s]. *)
Definition trim (s : jsstring) : jsstring :=
  rev (drop_whitespace (rev (drop_whitespace s))).

Fixpoint starts_with (pat s : jsstring) : bool :=
  match pat, s with
  | [], _ => true
  | p :: pat', c :: s' => (p =? c) && starts_with pat' s'
  | _ :: _, [] => false
  end.

(** [s.includes(pat)] *)
Fixpoint includes (s pat : jsstring) : bool :=
  starts_with pat s ||
  match s with
  | [] => false
  | _ :: s' => includes s' pat
  end.

(** [s.split(sep)] for a separator of one code unit; [cur] is the segment
    read so far. *)
Fixpoint split_from (sep : code_unit) (cur s : jsstring) : list jsstring :=
  match s with
  | [] => [cur]
  | c :: s' =>
      if c =? sep then cur :: split_from sep [] s'
      else split_from sep (cur ++ [c]) s'
  end.

Definition split (s : jsstring) (sep : code_unit) : list jsstring :=
  split_from sep [] s.

(** [lines.join('')] *)
Definition join (l : list jsstring) : jsstring := concat l.

End JsStringMethods.

(** ** The application shell

    [App.tsx]: the list of scripts, the current view and the handlers
    that the cards, the editor and the memorizer call.  [window.confirm],
    [Math.random().toString(36).substr(2, 9)] and [Date.now()] are
    answered by the host; their answers are arguments of the handlers. *)

Module App.

Import JsString JsStringMethods.

Record Script := {
  id : jsstring;
  title : jsstring;
  content : jsstring;
  bullets : option jsstring;   (* [bullets?: string] *)
  createdAt : Z
}.

(** [Partial<Script>]: every key is present with a value, or absent. *)
Record PartialScript := {
  partial_id : option jsstring;
  partial_title : option jsstring;
  partial_content : option jsstring;
  partial_bullets : option jsstring;
  partial_createdAt : option Z
}.

Definition override {A : Type} (v : option A) (old : A) : A :=
  match v with
  | Some x => x
  | None => old
  end.

(** [{ ...s, ...scriptData }] *)
Definition spread (s : Script) (scriptData : PartialScript) : Script :=
  {| id := override (partial_id scriptData) (id s);
     title := override (partial_title scriptData) (title s);
     content := override (partial_content scriptData) (content s);
     bullets := match partial_bullets scriptData with
                | Some b => Some b
                | None => bullets s
                end;
     createdAt := override (partial_createdAt scriptData) (createdAt s) |}.

(** [{ title, content }], the argument of the editor's "Save Script". *)
Definition editorData (title content : jsstring) : PartialScript :=
  {| partial_id := None; partial_title := Some title;
     partial_content := Some content; partial_bullets := None;
     partial_createdAt := None |}.

(** [{ ...script, bullets: bulletsHtml }], the argument of the
    memorizer's auto-save. *)
Definition autoSaveData (script : Script) (bulletsHtml : jsstring)
  : PartialScript :=
  {| partial_id := Some (id script); partial_title := Some (title script);
     partial_content := Some (content script);
     partial_bullets := Some bulletsHtml;
     partial_createdAt := Some (createdAt script) |}.

Inductive ViewState := ListView | EditView | MemorizeView.

Definition ViewState_eqb (a b : ViewState) : bool :=
  match a, b with
  | ListView, ListView | EditView, EditView | MemorizeView, MemorizeView =>
      true
  | _, _ => false
  end.

Record AppState := {
  scripts : list Script;
  view : ViewState;
  activeScriptId : option jsstring   (* [string | null] *)
}.

(** What [localStorage.getItem(STORAGE_KEY)] answers at the first
    render. *)
Inductive Stored :=
| NoItem                         (* [null], or the empty text *)
| Unparsable                     (* a text for which [JSON.parse] throws *)
| ScriptList (l : list Script)   (* the JSON of an array of scripts *)
| OtherValue.                    (* the JSON of any other value *)

(** The state of the first render with the scripts [l]. *)
Definition firstState (l : list Script) : AppState :=
  {| scripts := l; view := ListView; activeScriptId := None |}.

(** The lazy initializer of [scripts], and the first render.
    [stored ? JSON.parse(stored) : []] inside [try], with [[]] from
    [catch].  What [JSON.parse] returns is kept as it comes.  A value
    that is no array of scripts is no state of the shell: when it is no
    array at all ([null], a number, a string, an object), the first
    render throws at [scripts.find], and nothing is shown. *)
Definition init (stored : Stored) : option AppState :=
  match stored with
  | NoItem | Unparsable => Some (firstState [])
  | ScriptList l => Some (firstState l)
  | OtherValue => None
  end.

Definition setScripts (l : list Script) (a : AppState) : AppState :=
  {| scripts := l; view := view a; activeScriptId := activeScriptId a |}.

Definition setView (v : ViewState) (a : AppState) : AppState :=
  {| scripts := scripts a; view := v; activeScriptId := activeScriptId a |}.

Definition setActiveScriptId (i : option jsstring) (a : AppState) : AppState :=
  {| scripts := scripts a; view := view a; activeScriptId := i |}.

Definition handleCreateNew (a : AppState) : AppState :=
  setView EditView (setActiveScriptId None a).

Definition handleEdit (i : jsstring) (a : AppState) : AppState :=
  setView EditView (setActiveScriptId (Some i) a).

Definition handleMemorize (i : jsstring) (a : AppState) : AppState :=
  setView MemorizeView (setActiveScriptId (Some i) a).

Definition handleDelete (confirmed : bool) (i : jsstring) (a : AppState)
  : AppState :=
  if confirmed
  then setScripts (filter (fun s => negb (jsstring_eqb (id s) i)) (scripts a)) a
  else a.

Definition newScript (newId : jsstring) (now : Z) (scriptData : PartialScript)
  : Script :=
  {| id := newId;
     title := or_default (partial_title scriptData) (js "Untitled Script");
     content := or_default (partial_content scriptData) [];
     bullets := Some (or_default (partial_bullets scriptData) []);
     createdAt := now |}.

Definition handleSave (newId : jsstring) (now : Z) (scriptData : PartialScript)
  (a : AppState) : AppState :=
  let a1 :=
    match activeScriptId a with
    | Some active =>
        if truthy active then
          setScripts
            (map (fun s => if jsstring_eqb (id s) active
                           then spread s scriptData else s) (scripts a)) a
        else setScripts (newScript newId now scriptData :: scripts a) a
    | None => setScripts (newScript newId now scriptData :: scripts a) a
    end in
  (* Only switch view if we are not just auto-saving from Memorizer *)
  if ViewState_eqb (view a) EditView then setView ListView a1 else a1.

(** [scripts.find(s => s.id === activeScriptId)] *)
Definition activeScript (a : AppState) : option Script :=
  match activeScriptId a with
  | Some active => find (fun s => jsstring_eqb (id s) active) (scripts a)
  | None => None
  end.

(** *** Runs

    The controls that exist in a render are those of the view: the cards
    of the scripts and "New Script" in the list, the editor's buttons in
    the edit view, and the memorizer, mounted when the active script is
    found, in the memorize view. *)

Inductive Event :=
| ClickNew
| ClickEdit (i : jsstring)
| ClickMemorize (i : jsstring)
| ClickDelete (i : jsstring) (confirmed : bool)
| EditorSave (title content newId : jsstring) (now : Z)
| EditorCancel
| MemorizerSave (bulletsHtml newId : jsstring) (now : Z)
| MemorizerExit.

Definition hasCard (i : jsstring) (a : AppState) : bool :=
  existsb (fun s => jsstring_eqb (id s) i) (scripts a).

Definition handle (ev : Event) (a : AppState) : AppState :=
  match view a, ev with
  | ListView, ClickNew => handleCreateNew a
  | ListView, ClickEdit i => if hasCard i a then handleEdit i a else a
  | ListView, ClickMemorize i => if hasCard i a then handleMemorize i a else a
  | ListView, ClickDelete i confirmed =>
      if hasCard i a then handleDelete confirmed i a else a
  | EditView, EditorSave title content newId now =>
      handleSave newId now (editorData title content) a
  | EditView, EditorCancel => setView ListView a
  | MemorizeView, MemorizerSave bulletsHtml newId now =>
      match activeScript a with
      | Some script => handleSave newId now (autoSaveData script bulletsHtml) a
      | None => a
      end
  | MemorizeView, MemorizerExit =>
      match activeScript a with
      | Some _ => setView ListView a
      | None => a
      end
  | _, _ => a
  end.

Definition run (evs : list Event) (a : AppState) : AppState :=
  fold_left (fun a ev => handle ev a) evs a.

End App.

(** ** The cue sheet of the memorizer with notes

    [formatInitialContent], the initial value of the cue editor. *)

Module Cues.

Import JsString JsStringMethods.

Definition emptyList : jsstring := js "<ul><li><br></li></ul>".

Definition listItems (content : jsstring) : jsstring :=
  join
    (map (fun line => js "<li>" ++ line ++ js "</li>")
       (filter (fun line => 0 <? Z.of_nat (List.length line))
          (map trim (split content 10)))).

Definition formatInitialContent (content : option jsstring) : jsstring :=
  match content with
  | None => emptyList
  | Some content =>
      if negb (truthy content) || negb (truthy (trim content)) then emptyList
      else if includes content (js "<ul>") || includes content (js "<ol>")
              || includes content (js "<li>")
      then content
      else
        js "<ul>"
        ++ (if truthy (listItems content) then listItems content
            else js "<li><br></li>")
        ++ js "</ul>"
  end.

End Cues.

(** ** The cue editor and its auto-save

    The part of the memorizer with notes that keeps [bulletsHtml] and
    saves it through [onSave] one second after the last change, together
    with the shell that renders it and the window's pending save
    timeouts.  The memorizer is mounted while the shell is in the
    memorize view and finds its active script, which is the [script]
    prop. *)

Module CueEditor.

Import JsString JsStringMethods App Cues.

(** A pending timeout of the auto-save effect.  Its callback
    [() => onSave({ ...script, bullets: bulletsHtml })] holds the values
    of the render in which the effect ran: [script], [bulletsHtml], and
    [onSave], which is the [handleSave] of a render of the shell. *)
Record SaveTimer := {
  save_handle : Z;
  save_due : Z;
  save_shell : AppState;
  save_script : Script;
  save_bulletsHtml : jsstring
}.

Record Session := {
  shell : AppState;
  bulletsHtml : jsstring;
  saveCleanup : option Z;     (* [timer] of [() => clearTimeout(timer)] *)
  saveTimers : list SaveTimer;
  nextSaveHandle : Z
}.

Definition set_shell (a : AppState) (st : Session) : Session :=
  {| shell := a; bulletsHtml := bulletsHtml st; saveCleanup := saveCleanup st;
     saveTimers := saveTimers st; nextSaveHandle := nextSaveHandle st |}.

Definition set_bulletsHtml (html : jsstring) (st : Session) : Session :=
  {| shell := shell st; bulletsHtml := html; saveCleanup := saveCleanup st;
     saveTimers := saveTimers st; nextSaveHandle := nextSaveHandle st |}.

Definition set_saveCleanup (cleanup : option Z) (st : Session) : Session :=
  {| shell := shell st; bulletsHtml := bulletsHtml st; saveCleanup := cleanup;
     saveTimers := saveTimers st; nextSaveHandle := nextSaveHandle st |}.

(** [clearTimeout(h)] *)
Definition clearSave (h : Z) (st : Session) : Session :=
  {| shell := shell st; bulletsHtml := bulletsHtml st;
     saveCleanup := saveCleanup st;
     saveTimers := filter (fun t => negb (save_handle t =? h)) (saveTimers st);
     nextSaveHandle := nextSaveHandle st |}.

(** The cleanup that the last run of the effect returned, if any. *)
Definition runCleanup (st : Session) : Session :=
  match saveCleanup st with
  | Some timer => clearSave timer st
  | None => st
  end.

(** [bulletsHtml !== script.bullets] *)
Definition differs (bulletsHtml : jsstring) (stored : option jsstring) : bool :=
  match stored with
  | Some b => negb (jsstring_eqb bulletsHtml b)
  | None => true
  end.

(** [useEffect(.., [bulletsHtml, script, onSave])], run after a render in
    which one of the three changed: the previous cleanup, then the
    body. *)
Definition autoSaveEffect (now : Z) (st : Session) : Session :=
  let st1 := runCleanup st in
  match activeScript (shell st1) with
  | Some script =>
      if differs (bulletsHtml st1) (bullets script) then
        let timer := nextSaveHandle st1 in
        {| shell := shell st1; bulletsHtml := bulletsHtml st1;
           saveCleanup := Some timer;
           saveTimers :=
             {| save_handle := timer; save_due := now + 1000;
                save_shell := shell st1; save_script := script;
                save_bulletsHtml := bulletsHtml st1 |} :: saveTimers st1;
           nextSaveHandle := timer + 1 |}
      else set_saveCleanup None st1
  | None => set_saveCleanup None st1
  end.

(** The memorizer mounts at [now] for the prop [script] in the shell
    [a]: [useState(() => formatInitialContent(script.bullets))], then the
    first run of the effect. *)
Definition mount (firstHandle : positive) (now : Z) (a : AppState)
  (script : Script) : Session :=
  autoSaveEffect now
    {| shell := a; bulletsHtml := formatInitialContent (bullets script);
       saveCleanup := None; saveTimers := [];
       nextSaveHandle := Z.pos firstHandle |}.

(** [onInput={(e) => setBulletsHtml(e.currentTarget.innerHTML)}]; an
    unchanged value causes no render. *)
Definition onInput (now : Z) (innerHTML : jsstring) (st : Session) : Session :=
  if jsstring_eqb (bulletsHtml st) innerHTML then st
  else autoSaveEffect now (set_bulletsHtml innerHTML st).

(** What the call of [onSave] in a timeout does to the shell: the
    [handleSave] of the closure's render computes the list from that
    render's [scripts] and calls [setView] only if that render was the
    edit view. *)
Definition savedShell (newId : jsstring) (now : Z) (t : SaveTimer)
  (a : AppState) : AppState :=
  let saved :=
    handleSave newId now (autoSaveData (save_script t) (save_bulletsHtml t))
      (save_shell t) in
  {| scripts := scripts saved;
     view := if ViewState_eqb (view (save_shell t)) EditView then ListView
             else view a;
     activeScriptId := activeScriptId a |}.

(** The window runs the save timeout [h] at [now], if it is pending and
    due; [newId] is what [Math.random] would give to [handleSave].  The
    shell renders again, so the effect runs again. *)
Definition fireSave (now h : Z) (newId : jsstring) (st : Session) : Session :=
  match find (fun t => save_handle t =? h) (saveTimers st) with
  | Some t =>
      if save_due t <=? now then
        let st1 := clearSave h st in
        autoSaveEffect now (set_shell (savedShell newId now t (shell st1)) st1)
      else st
  | None => st
  end.

(** [onExit]: the shell goes back to the list, the memorizer unmounts
    and the cleanup of the effect runs. *)
Definition exit (st : Session) : Session :=
  set_saveCleanup None (set_shell (setView ListView (shell st)) (runCleanup st)).

Inductive Event :=
| Input (innerHTML : jsstring)
| SaveFires (h : Z) (newId : jsstring).

Definition handle (now : Z) (ev : Event) (st : Session) : Session :=
  match ev with
  | Input innerHTML => onInput now innerHTML st
  | SaveFires h newId => fireSave now h newId st
  end.

Definition run (evs : list (Z * Event)) (st : Session) : Session :=
  fold_left (fun st e => handle (fst e) (snd e) st) evs st.

End CueEditor.

(** ** The answers of the script service

    [refineScript] and [generateInterviewAnswer]: what each returns for
    the outcome of its request.  The request either throws or returns a
    response, whose [text] is a string or undefined. *)

Module GeminiService.

Import JsString JsStringMethods.

Inductive Outcome :=
| Throws
| Response (text : option jsstring).

(** [response.text?.trim() || currentContent], and [currentContent] in
    the [catch] branch. *)
Definition refineScript (outcome : Outcome) (currentContent : jsstring)
  : jsstring :=
  match outcome with
  | Response text => or_default (option_map trim text) currentContent
  | Throws => currentContent
  end.

Definition generateInterviewAnswer (outcome : Outcome) : jsstring :=
  match outcome with
  | Response text =>
      or_default (option_map trim text)
        (js "Failed to generate answer. Please try again.")
  | Throws => js "Error connecting to AI. Please check your connection."
  end.

End GeminiService.

(** * Vocabulary of the statements *)

Module Vocabulary.

Import JsString JsNumber Memorizer.

(** ** Texts and segments *)

Definition all_whitespace (w : jsstring) : Prop :=
  Forall (fun c => is_whitespace c = true) w.

Definition no_whitespace (w : jsstring) : Prop :=
  Forall (fun c => is_whitespace c = false) w.

(** A word: a non-empty run of non-whitespace code units. *)
Definition word_run (w : jsstring) : Prop := w <> [] /\ no_whitespace w.

(** A separator: a non-empty run of whitespace code units. *)
Definition whitespace_run (w : jsstring) : Prop := w <> [] /\ all_whitespace w.

(** The text after a greedy match cannot start with whitespace. *)
Definition starts_with_non_whitespace (s : jsstring) : Prop :=
  match s with
  | c :: _ => is_whitespace c = false
  | [] => False
  end.

(** The shape of the array that split returns after its first segment:
    pairs of a separator and a word; only the very last word may be
    empty. *)
Inductive split_tail : list jsstring -> Prop :=
| split_tail_done : split_tail []
| split_tail_trailing (sep : jsstring) :
    whitespace_run sep -> split_tail [sep; []]
| split_tail_pair (sep w : jsstring) (tl : list jsstring) :
    whitespace_run sep -> word_run w -> split_tail tl ->
    split_tail (sep :: w :: tl).

(** The word index of the tokens from position [k] on. *)
Definition wordIndices_from (k : Z) (ws : list jsstring) : list Z :=
  filter (fun idx => negb (idx =? -1))
    (map_with_index (fun w idx => if test_non_whitespace w then idx else -1)
       k ws).

(** "Hello   world\nfoo" *)
Definition hello_world_foo : jsstring :=
  [72; 101; 108; 108; 111; 32; 32; 32; 119; 111; 114; 108; 100; 10;
   102; 111; 111].

(** ** Numbers *)

(** The Number [x] is integral, with the integer value [z]: the exact
    value [(-1)^s * m * 2^e] of [x] is [z]. *)
Definition integer_value (x : float) (z : Z) : Prop :=
  match Prim2SF x with
  | S754_zero _ => z = 0
  | S754_finite s m e =>
      if 0 <=? e then z = cond_Zopp s (Z.pos m * 2 ^ e)
      else z * 2 ^ (- e) = cond_Zopp s (Z.pos m)
  | _ => False
  end.

(** The three labels of [getSpeedFeedback]. *)
Definition TooSlow : string := "TOO SLOW".
Definition SweetSpot : string := "SWEET SPOT".
Definition TooFast : string := "TOO FAST".

(** ** States *)

(** The hook state outside the peek: what a peek request must leave
    alone. *)
Record same_outside_peek (s s' : State) : Prop := {
  same_blackedOutCount : blackedOutCount s' = blackedOutCount s;
  same_isTiming : isTiming s' = isTiming s;
  same_elapsed : elapsed s' = elapsed s;
  same_startTimeRef : startTimeRef s' = startTimeRef s;
  same_timerIntervalRef : timerIntervalRef s' = timerIntervalRef s
}.

Definition is_peek_timer (t : Timer) : bool :=
  match timer_callback t with
  | PeekExpiry => true
  | ElapsedTick => false
  end.

Definition not_handle (h : Z) (t : Timer) : bool :=
  negb (timer_handle t =? h).

(** The scheduled peek expiries of a state. *)
Definition peekTimeouts (s : State) : list Timer :=
  filter is_peek_timer (timers s).

(** The interval timers of a state. *)
Definition tickTimers (s : State) : list Timer :=
  filter (fun t => negb (is_peek_timer t)) (timers s).

Definition peekTimeout (h due : Z) : Timer :=
  {| timer_handle := h; timer_due := due; timer_callback := PeekExpiry |}.

Definition tickTimer (h due : Z) : Timer :=
  {| timer_handle := h; timer_due := due; timer_callback := ElapsedTick |}.

(** The stopwatch and the window agree: while the stopwatch runs, the
    window holds exactly one interval, under the handle kept in
    [timerIntervalRef]; while it is stopped, the window holds none. *)
Definition wf_stopwatch (s : State) : Prop :=
  if isTiming s
  then exists due, tickTimers s = [tickTimer (timerIntervalRef s) due]
  else tickTimers s = [].

(** Events that can write the stopwatch: the button, and a run of the
    callback of an interval that is pending in [s]. *)
Definition writes_stopwatch (s : State) (ev : Event) : bool :=
  match ev with
  | ToggleTimer => true
  | TimerFires h =>
      match find (fun t => timer_handle t =? h) (timers s) with
      | Some t => negb (is_peek_timer t)
      | None => false
      end
  | _ => false
  end.

(** Along the run from [c], no event writes the stopwatch. *)
Fixpoint stopwatch_untouched (content : jsstring) (evs : list (Z * Event))
  (c : Component) : Prop :=
  match evs with
  | [] => True
  | e :: evs' =>
      writes_stopwatch (state c) (snd e) = false /\
      stopwatch_untouched content evs' (handle content (fst e) (snd e) c)
  end.

(** Well-formed timer tables.  Handles are unique and below the next
    handle to be handed out; the interval handle kept in
    [timerIntervalRef] is no peek timeout; the handle that the peek
    effect's cleanup holds is no interval; and the cleanup holds a handle
    exactly when the last render saw a peeked word: then the window
    holds the peek timeout of that handle, until it has run, and no
    other peek timeout. *)
Definition peek_parts (seen_index cleanup : option Z) (pending : list Timer)
  : Prop :=
  match seen_index, cleanup with
  | None, None => pending = []
  | Some _, Some h =>
      pending = [] \/ exists t, pending = [t] /\ timer_handle t = h
  | _, _ => False
  end.

Record wf_state (c : Component) : Prop := {
  wf_NoDup : NoDup (map timer_handle (timers (state c)));
  wf_fresh :
    forall t, In t (timers (state c)) ->
              timer_handle t < nextHandle (state c);
  wf_interval_fresh : timerIntervalRef (state c) < nextHandle (state c);
  wf_interval_not_peek :
    forall t, In t (peekTimeouts (state c)) ->
              timer_handle t <> timerIntervalRef (state c);
  wf_cleanup_fresh :
    forall h, peekCleanup (state c) = Some h -> h < nextHandle (state c);
  wf_cleanup_not_tick :
    forall h t, peekCleanup (state c) = Some h ->
                In t (tickTimers (state c)) -> timer_handle t <> h;
  wf_peek :
    peek_parts (seen_peekIndex (seen c)) (peekCleanup (state c))
      (peekTimeouts (state c))
}.

(** The last render is the render of the state of the moment. *)
Definition settled (c : Component) : Prop := seen c = render (state c).

(** What holds between the turns of a run in which every call is
    rendered before the next: the render is up to date, the counter is
    within its bounds, the stopwatch and the window agree, and a word is
    peeked exactly while its timeout is pending. *)
Record in_order (content : jsstring) (c : Component) : Prop := {
  order_wf : wf_state c;
  order_settled : settled c;
  order_range :
    0 <= blackedOutCount (state c)
      <= totalWords (wordIndices (words content));
  order_stopwatch : wf_stopwatch (state c);
  order_peek :
    match peekIndex (state c) with
    | Some _ => exists t, peekTimeouts (state c) = [t]
    | None => peekTimeouts (state c) = []
    end
}.

(** The events of a run of turns: each event, then its render. *)
Definition each_rendered (evs : list (Z * Event)) : list (Z * Event) :=
  flat_map (fun e => [e; (fst e, Rerender)]) evs.

Definition is_click (ev : Event) : bool :=
  match ev with
  | ClickWord _ => true
  | _ => false
  end.

Definition no_click (evs : list (Z * Event)) : Prop :=
  Forall (fun e => is_click (snd e) = false) evs.


(** "Hello   world\nfoo" with its first two words blacked out, each step
    rendered. *)
Definition two_hidden : Component :=
  turns hello_world_foo [(0, NextStep); (0, NextStep)] (mount 1).

(** The stopwatch started at 1000 ms, with ticks at 1100 ms and 1200 ms,
    each rendered. *)
Definition ticked_twice : Component :=
  turns [] [(1000, ToggleTimer); (1100, TimerFires 1); (1200, TimerFires 1)]
    (mount 1).

End Vocabulary.

(** * Vocabulary of the further statements *)

Module ViewVocabulary.

Import JsString JsNumber Memorizer MemorizerView Vocabulary.

Definition spanKey (sp : Span) : Z :=
  match sp with
  | Word w => span_key w
  | Separator key _ => key
  end.

Definition spanText (sp : Span) : jsstring :=
  match sp with
  | Word w => span_text w
  | Separator _ text => text
  end.

(** The spans that carry the click handler. *)
Definition wordSpans (spans : list Span) : list WordSpan :=
  flat_map (fun sp => match sp with
                      | Word w => [w]
                      | Separator _ _ => []
                      end) spans.

Definition has_tone (tone : string) (w : WordSpan) : bool :=
  String.eqb (span_tone w) tone.

(** Keys of the words drawn transparent under the overlay, of the words
    drawn in the peek tone, and of the words with the pointer cursor. *)
Definition concealedKeys (spans : list Span) : list Z :=
  map span_key (filter span_overlay (wordSpans spans)).

Definition transparentKeys (spans : list Span) : list Z :=
  map span_key
    (filter (has_tone "bg-zinc-800 text-transparent") (wordSpans spans)).

Definition peekToneKeys (spans : list Span) : list Z :=
  map span_key
    (filter (has_tone "bg-zinc-800 text-zinc-400") (wordSpans spans)).

Definition pointerKeys (spans : list Span) : list Z :=
  map span_key
    (filter (fun w => String.eqb (span_cursor w) "cursor-pointer select-none")
       (wordSpans spans)).

(** The peeked token, when there is one, is a word token. *)
Definition peek_is_word (content : jsstring) (s : State) : Prop :=
  match peekIndex s with
  | Some idx => In idx (wordIndices (words content))
  | None => True
  end.

(** The reading [d / 1000] of a tick [d] ms after the start lies strictly
    between 0 and 1. *)
Definition short_reading (d : Z) : bool :=
  PrimFloat.ltb 0 (PrimFloat.div (number_of_Z d) 1000) &&
  PrimFloat.ltb (PrimFloat.div (number_of_Z d) 1000) 1.

(** The integer value of an integral Number, computed. *)
Definition integer_of (x : float) : option Z :=
  match Prim2SF x with
  | S754_zero _ => Some 0
  | S754_finite s m e =>
      if 0 <=? e then Some (cond_Zopp s (Z.pos m * 2 ^ e))
      else if Z.pos m mod 2 ^ (- e) =? 0
           then Some (cond_Zopp s (Z.pos m / 2 ^ (- e)))
           else None
  | _ => None
  end.

(** The percentage shown for [bc] of [total] words is a whole number
    from 0 to 100, at most half a point from [100 * bc / total]. *)
Definition within_half_point (z bc total : Z) : bool :=
  (0 <=? z) && (z <=? 100) && (2 * Z.abs (z * total - 100 * bc) <=? total).

Definition progress_ok (bc total : Z) : bool :=
  match integer_of (progressPercentage bc total) with
  | Some z => within_half_point z bc total
  | None => false
  end.

(** [progress_ok] for the counters [bc .. bc + n - 1] of [total], and for
    all counters [0 .. total] of the totals [total .. total + n - 1]. *)
Fixpoint progress_row (n : nat) (bc total : Z) : bool :=
  match n with
  | O => true
  | S n' => progress_ok bc total && progress_row n' (bc + 1) total
  end.

Fixpoint progress_rows (n : nat) (total : Z) : bool :=
  match n with
  | O => true
  | S n' =>
      progress_row (Z.to_nat total + 1) 0 total && progress_rows n' (total + 1)
  end.

End ViewVocabulary.

(** * Vocabulary of the statements about the application shell *)

Module AppVocabulary.

Import JsString JsStringMethods App.

Definition ids (a : AppState) : list jsstring := map id (scripts a).

(** The script a card, the editor or the memorizer gets for an id. *)
Definition lookup (i : jsstring) (a : AppState) : option Script :=
  find (fun s => jsstring_eqb (id s) i) (scripts a).

(** The id that the host hands to a save. *)
Definition supplied_id (ev : Event) : option jsstring :=
  match ev with
  | EditorSave _ _ newId _ | MemorizerSave _ newId _ => Some newId
  | _ => None
  end.

(** Along the run, every id handed to a save is new. *)
Fixpoint fresh_supply (evs : list Event) (a : AppState) : Prop :=
  match evs with
  | [] => True
  | ev :: evs' =>
      match supplied_id ev with
      | Some newId => ~ In newId (ids a)
      | None => True
      end /\ fresh_supply evs' (handle ev a)
  end.

(** The script stored by an edit of [script] that leaves the editor with
    [title] and [content]. *)
Definition edited (script : Script) (title content : jsstring) : Script :=
  {| id := id script; title := title; content := content;
     bullets := bullets script; createdAt := createdAt script |}.

(** The script stored by an auto-save of the cues of [script]. *)
Definition with_bullets (script : Script) (bulletsHtml : jsstring) : Script :=
  {| id := id script; title := title script; content := content script;
     bullets := Some bulletsHtml; createdAt := createdAt script |}.

(** The list after [handleSave] has updated the scripts with the id
    [active]. *)
Definition update (active : jsstring) (scriptData : PartialScript)
  (l : list Script) : list Script :=
  map (fun s => if jsstring_eqb (id s) active then spread s scriptData else s)
    l.

(** A stored script without cues. *)
Definition intro_script : Script :=
  {| id := js "k3"; title := js "Intro"; content := js "Hello  world";
     bullets := None; createdAt := 1000 |}.

End AppVocabulary.

(** * Vocabulary of the statements about the cue sheet *)

Module CuesVocabulary.

Import JsString JsStringMethods Cues.

Definition non_whitespace (c : code_unit) : bool := negb (is_whitespace c).

(** The text of a string: its code units outside the class [\s]. *)
Definition text_of (s : jsstring) : jsstring := filter non_whitespace s.

(** A text no code unit of which is outside the class [\s]. *)
Definition blank (s : jsstring) : bool := negb (test_non_whitespace s).

(** "It already looks like HTML (has list tags)". *)
Definition has_list_tag (s : jsstring) : bool :=
  includes s (js "<ul>") || includes s (js "<ol>") || includes s (js "<li>").

(** The lines that become list items. *)
Definition cue_lines (content : jsstring) : list jsstring :=
  filter (fun line => 0 <? Z.of_nat (List.length line))
    (map trim (split content 10)).

Definition list_item (line : jsstring) : jsstring :=
  js "<li>" ++ line ++ js "</li>".

(** Neither the first nor the last code unit is whitespace. *)
Definition trimmed (s : jsstring) : Prop :=
  drop_whitespace s = s /\ drop_whitespace (rev s) = rev s.

(** Two lines of plain text, "  hook" and "story  ". *)
Definition hook_story : jsstring := js "  hook" ++ [10] ++ js "story  ".

End CuesVocabulary.

(** * Vocabulary of the statements about the cue editor *)

Module CueEditorVocabulary.

Import JsString JsStringMethods App Cues CueEditor.

(** The timeout that saves the current [bulletsHtml] for the prop
    [script] through the current render of the shell. *)
Definition pendingSave (h due : Z) (st : Session) (script : Script)
  : SaveTimer :=
  {| save_handle := h; save_due := due; save_shell := shell st;
     save_script := script; save_bulletsHtml := bulletsHtml st |}.

(** The memorizer is mounted, and the effect's cleanup and the window
    agree: the cleanup holds the handle of the one pending save exactly
    when the editor differs from the stored cues. *)
Definition in_step (st : Session) : Prop :=
  view (shell st) = MemorizeView /\
  exists script,
    activeScript (shell st) = Some script /\
    match saveCleanup st with
    | Some h =>
        differs (bulletsHtml st) (bullets script) = true /\
        exists due, saveTimers st = [pendingSave h due st script]
    | None =>
        differs (bulletsHtml st) (bullets script) = false /\
        saveTimers st = []
    end.

(** The shell with [intro_script] open in the memorizer. *)
Definition intro_open : AppState :=
  App.run [ClickMemorize (js "k3")] (firstState [AppVocabulary.intro_script]).

End CueEditorVocabulary.

(** * Properties *)

(** ** The tokenizer *)

Module JsStringFacts.

Import JsString Vocabulary.

(** *** What one match of the splitter returns *)

Lemma take_drop_whitespace (s : jsstring) :
  take_whitespace s ++ drop_whitespace s = s.
Proof.
  induction s as [|c s IH]; simpl; [reflexivity|].
  destruct (is_whitespace c); simpl; [rewrite IH|]; reflexivity.
Qed.

Lemma take_whitespace_all (s : jsstring) : all_whitespace (take_whitespace s).
Proof.
  induction s as [|c s IH]; simpl; [constructor|].
  destruct (is_whitespace c) eqn:Hc; constructor; assumption.
Qed.

Lemma drop_whitespace_head (s : jsstring) :
  drop_whitespace s = [] \/ starts_with_non_whitespace (drop_whitespace s).
Proof.
  induction s as [|c s IH]; simpl; [left; reflexivity|].
  destruct (is_whitespace c) eqn:Hc; [exact IH|].
  right. simpl. exact Hc.
Qed.

Lemma exec_whitespace_run_some (s m after : jsstring) :
  exec_whitespace_run s = Some (m, after) ->
  s = m ++ after /\ whitespace_run m /\
  (after = [] \/ starts_with_non_whitespace after).
Proof.
  destruct s as [|c s]; simpl; [discriminate|].
  destruct (is_whitespace c) eqn:Hc; [|discriminate].
  intros H; injection H as <- <-. repeat split.
  - simpl. rewrite take_drop_whitespace. reflexivity.
  - discriminate.
  - constructor; [exact Hc | apply take_whitespace_all].
  - apply drop_whitespace_head.
Qed.

Lemma exec_whitespace_run_none (c : code_unit) (s : jsstring) :
  exec_whitespace_run (c :: s) = None -> is_whitespace c = false.
Proof.
  simpl. destruct (is_whitespace c); [discriminate | reflexivity].
Qed.

Lemma test_non_whitespace_word (w : jsstring) :
  word_run w -> test_non_whitespace w = true.
Proof.
  intros [Hne Hw]. destruct w as [|c w]; [contradiction|].
  inversion Hw as [|? ? Hc _]; subst.
  unfold test_non_whitespace; simpl. rewrite Hc. reflexivity.
Qed.

Lemma test_non_whitespace_all_whitespace (w : jsstring) :
  all_whitespace w -> test_non_whitespace w = false.
Proof.
  unfold test_non_whitespace.
  induction 1 as [|c w Hc _ IH]; simpl; [reflexivity|].
  rewrite Hc, IH. reflexivity.
Qed.

(** *** The split loop *)

Lemma split_loop_concat (cur rest : jsstring) :
  concat (split_loop cur rest) = cur ++ rest.
Proof.
  funelim (split_loop cur rest).
  - simpl. rewrite app_nil_r. reflexivity.
  - destruct (exec_whitespace_run_some _ _ _ Hm) as (-> & _ & _).
    simpl. match goal with IH : concat _ = _ |- _ => rewrite IH end.
    reflexivity.
  - match goal with IH : concat _ = _ |- _ => rewrite IH end.
    rewrite <- app_assoc. reflexivity.
Qed.

Lemma split_loop_shape (cur rest : jsstring) :
  no_whitespace cur ->
  exists w tl,
    split_loop cur rest = w :: tl /\ no_whitespace w /\
    (cur <> [] \/ starts_with_non_whitespace rest -> w <> []) /\
    split_tail tl.
Proof.
  funelim (split_loop cur rest); intros Hcur.
  - exists cur, []. repeat split; try assumption; [|constructor].
    intros [Hne|[]]. exact Hne.
  - destruct (exec_whitespace_run_some _ _ _ Hm) as (Hs & Hsep & Hafter).
    match goal with IH : no_whitespace _ -> _ |- _ =>
      destruct IH as (w & tl & Heq & Hw & Hne & Htl); [constructor|] end.
    exists cur, (m :: split_loop [] after). repeat split; try assumption.
    + intros [Hc|Hc]; [exact Hc|].
      simpl in Hc. destruct Hsep as [Hm0 Hall].
      destruct m as [|c0 m]; [contradiction|].
      injection Hs as -> _. inversion Hall; subst. congruence.
    + rewrite Heq. destruct Hafter as [->|Hafter].
      * rewrite split_loop_equation_1 in Heq. injection Heq as <- <-.
        constructor. exact Hsep.
      * constructor; try assumption. split; [|exact Hw].
        apply Hne. right. exact Hafter.
  - match goal with e : exec_whitespace_run _ = None |- _ =>
      pose proof (exec_whitespace_run_none _ _ e) as Hc end.
    match goal with IH : no_whitespace _ -> _ |- _ =>
      destruct IH as (w & tl & Heq & Hw & Hne & Htl) end.
    { apply Forall_app; split; [exact Hcur | constructor; [exact Hc | constructor]]. }
    exists w, tl. repeat split; try assumption.
    intros _. apply Hne. left. destruct cur; discriminate.
Qed.

(** *** The array that split returns *)

Lemma split_tail_nth (tl : list jsstring) :
  split_tail tl ->
  forall (i : nat) (w : jsstring),
    nth_error tl i = Some w ->
    if Nat.even i then whitespace_run w
    else word_run w \/ (w = [] /\ S i = List.length tl).
Proof.
  induction 1 as [|sep Hsep|sep w0 tl Hsep Hw0 Htl IH]; intros i w Hi.
  - destruct i; discriminate.
  - destruct i as [|[|i]]; simpl in Hi.
    + injection Hi as <-. exact Hsep.
    + injection Hi as <-. right. split; reflexivity.
    + destruct i; discriminate.
  - destruct i as [|[|i]]; simpl in Hi.
    + injection Hi as <-. exact Hsep.
    + injection Hi as <-. left. exact Hw0.
    + specialize (IH i w Hi). change (Nat.even (S (S i))) with (Nat.even i).
      destruct (Nat.even i); [exact IH|].
      destruct IH as [IH|[-> IH]]; [left; exact IH|].
      right. split; [reflexivity|]. simpl. rewrite IH. reflexivity.
Qed.

Lemma no_whitespace_cases (w : jsstring) :
  no_whitespace w -> w = [] \/ word_run w.
Proof.
  intros Hw. destruct w as [|c w]; [left; reflexivity|].
  right. split; [discriminate | exact Hw].
Qed.

Lemma split_whitespace_shape (s : jsstring) :
  exists w tl,
    split_whitespace s = w :: tl /\ no_whitespace w /\ split_tail tl.
Proof.
  destruct s as [|c s].
  - exists [], []. repeat split; constructor.
  - destruct (split_loop_shape [] (c :: s)) as (w & tl & Heq & Hw & _ & Htl);
      [constructor|].
    exists w, tl. repeat split; assumption.
Qed.

Lemma split_whitespace_concat (s : jsstring) :
  concat (split_whitespace s) = s.
Proof.
  destruct s as [|c s]; [reflexivity|].
  unfold split_whitespace. apply split_loop_concat.
Qed.

End JsStringFacts.

Module TokenizerSpec.

Import JsString Memorizer Vocabulary JsStringFacts.

Example words_hello_world_foo :
  words hello_world_foo =
  [[72; 101; 108; 108; 111]; [32; 32; 32]; [119; 111; 114; 108; 100];
   [10]; [102; 111; 111]].
Proof. reflexivity. Qed.

Example wordIndices_hello_world_foo :
  wordIndices (words hello_world_foo) = [0; 2; 4].
Proof. reflexivity. Qed.

(** " Hi " splits into five segments, the first and the last empty. *)
Example words_padded : words [32; 72; 105; 32] = [[]; [32]; [72; 105]; [32]; []].
Proof. reflexivity. Qed.

Example words_empty : words [] = [[]].
Proof. reflexivity. Qed.

(** C1.  For every string [s], concatenating the segments of
    [s.split(/(\s+)/)] in order gives back [s], whatever whitespace [s]
    starts with, ends with or contains, and also when [s] is empty. *)
Theorem words_concat (s : jsstring) : concat (words s) = s.
Proof.
  unfold words, split_whitespace.
  destruct s as [|c s]; [reflexivity|].
  apply split_loop_concat.
Qed.

(** C9 as stated fails: the segments of the empty string and of " Hi"
    include the empty string, which is neither a word nor a separator
    run. *)
Lemma words_segment_not_a_run :
  ~ Forall (fun w => word_run w \/ whitespace_run w) (words []) /\
  ~ Forall (fun w => word_run w \/ whitespace_run w) (words [32; 72; 105]).
Proof.
  split; intros H; inversion H as [|w l [[Hne _]|[Hne _]] _]; subst;
    apply Hne; reflexivity.
Qed.

(** C9, amended.  The segments alternate, starting with a word position.
    A segment at an odd position is a separator: a non-empty run of
    whitespace.  A segment at an even position is a word, a non-empty run
    without whitespace, except that the first and the last segment may
    be the empty string.  [/\S/.test] holds of the words and of nothing
    else. *)
Theorem words_segment_kinds (s : jsstring) (i : nat) (w : jsstring) :
  nth_error (words s) i = Some w ->
  if Nat.even i
  then (word_run w /\ test_non_whitespace w = true) \/
       (w = [] /\ test_non_whitespace w = false /\
        (i = 0%nat \/ S i = List.length (words s)))
  else whitespace_run w /\ test_non_whitespace w = false.
Proof.
  unfold words.
  destruct (split_whitespace_shape s) as (w0 & tl & -> & Hw0 & Htl).
  destruct i as [|i].
  - simpl. intros H; injection H as <-.
    destruct (no_whitespace_cases _ Hw0) as [->|Hw].
    + right. repeat split. left. reflexivity.
    + left. split; [exact Hw | apply test_non_whitespace_word, Hw].
  - change (nth_error (w0 :: tl) (S i)) with (nth_error tl i).
    intros H. pose proof (split_tail_nth tl Htl i w H) as Hk.
    rewrite Nat.even_succ, <- Nat.negb_even.
    destruct (Nat.even i); simpl.
    + split; [exact Hk | apply test_non_whitespace_all_whitespace, Hk].
    + destruct Hk as [Hk|[-> Hk]].
      * left. split; [exact Hk | apply test_non_whitespace_word, Hk].
      * right. repeat split. right. rewrite Hk. reflexivity.
Qed.

Lemma words_segment_kinds_witness :
  nth_error (words hello_world_foo) 1 = Some [32; 32; 32] /\
  (whitespace_run [32; 32; 32] /\ test_non_whitespace [32; 32; 32] = false).
Proof.
  split; [reflexivity|].
  exact (words_segment_kinds hello_world_foo 1 [32; 32; 32] eq_refl).
Defined.

End TokenizerSpec.

(** ** Arrays and the word index *)

Module ArrayFacts.

Import JsString Memorizer Vocabulary.

Lemma indexOf_from_absent (l : list Z) (x k : Z) :
  ~ In x l -> indexOf_from k l x = -1.
Proof.
  revert k. induction l as [|y l IH]; intros k Hx; simpl; [reflexivity|].
  destruct (Z.eqb_spec y x) as [->|_].
  - exfalso. apply Hx. left. reflexivity.
  - apply IH. intros H. apply Hx. right. exact H.
Qed.

Lemma indexOf_from_nth (l : list Z) (x k : Z) (r : nat) :
  NoDup l -> nth_error l r = Some x ->
  indexOf_from k l x = k + Z.of_nat r.
Proof.
  revert k r. induction l as [|y l IH]; intros k r Hnd Hr.
  - destruct r; discriminate.
  - inversion Hnd as [|? ? Hy Hnd']; subst. simpl.
    destruct r as [|r]; simpl in Hr.
    + injection Hr as ->. rewrite Z.eqb_refl. lia.
    + destruct (Z.eqb_spec y x) as [->|_].
      * exfalso. apply Hy. eapply nth_error_In. exact Hr.
      * rewrite (IH (k + 1) r Hnd' Hr). lia.
Qed.

Lemma wordIndices_from_cons (k : Z) (w : jsstring) (ws : list jsstring) :
  0 <= k ->
  wordIndices_from k (w :: ws) =
  (if test_non_whitespace w then [k] else []) ++ wordIndices_from (k + 1) ws.
Proof.
  intros Hk. unfold wordIndices_from. simpl.
  destruct (test_non_whitespace w); simpl; [|reflexivity].
  destruct (Z.eqb_spec k (-1)); [lia | reflexivity].
Qed.

Lemma wordIndices_from_In (ws : list jsstring) (k x : Z) :
  0 <= k ->
  In x (wordIndices_from k ws) <->
  exists w, k <= x /\ nth_error ws (Z.to_nat (x - k)) = Some w /\
            test_non_whitespace w = true.
Proof.
  revert k. induction ws as [|w ws IH]; intros k Hk.
  - split; [intros []|]. intros (w & _ & H & _).
    destruct (Z.to_nat (x - k)); discriminate.
  - rewrite wordIndices_from_cons by exact Hk.
    rewrite in_app_iff, IH by lia. split.
    + intros [Hx|(w' & Hle & Hn & Ht)].
      * destruct (test_non_whitespace w) eqn:Hw; [|destruct Hx].
        destruct Hx as [<-|[]]. exists w. rewrite Z.sub_diag.
        repeat split; [lia | exact Hw].
      * exists w'. repeat split; [lia | | exact Ht].
        replace (Z.to_nat (x - k)) with (S (Z.to_nat (x - (k + 1)))) by lia.
        exact Hn.
    + intros (w' & Hle & Hn & Ht).
      destruct (Z.eq_dec x k) as [->|Hne].
      * left. rewrite Z.sub_diag in Hn. injection Hn as ->.
        rewrite Ht. left. reflexivity.
      * right. exists w'. repeat split; [lia | | exact Ht].
        replace (Z.to_nat (x - k)) with (S (Z.to_nat (x - (k + 1)))) in Hn
          by lia.
        exact Hn.
Qed.

Lemma wordIndices_from_NoDup (ws : list jsstring) (k : Z) :
  0 <= k -> NoDup (wordIndices_from k ws).
Proof.
  revert k. induction ws as [|w ws IH]; intros k Hk; [constructor|].
  rewrite wordIndices_from_cons by exact Hk.
  destruct (test_non_whitespace w); simpl; [|apply IH; lia].
  constructor; [|apply IH; lia].
  rewrite wordIndices_from_In by lia. intros (_ & Hle & _). lia.
Qed.

Lemma wordIndices_In (ws : list jsstring) (x : Z) :
  In x (wordIndices ws) <->
  exists w, 0 <= x /\ nth_error ws (Z.to_nat x) = Some w /\
            test_non_whitespace w = true.
Proof.
  change (wordIndices ws) with (wordIndices_from 0 ws).
  rewrite wordIndices_from_In by lia. rewrite Z.sub_0_r. reflexivity.
Qed.

Lemma wordIndices_NoDup (ws : list jsstring) : NoDup (wordIndices ws).
Proof. apply (wordIndices_from_NoDup ws 0). lia. Qed.

Lemma isWordBlackedOut_rank (ws : list jsstring) (bc x : Z) (r : nat) :
  nth_error (wordIndices ws) r = Some x ->
  isWordBlackedOut (wordIndices ws) bc x = (Z.of_nat r <? bc).
Proof.
  intros Hr. unfold isWordBlackedOut, indexOf.
  rewrite (indexOf_from_nth _ _ 0 r (wordIndices_NoDup ws) Hr).
  destruct (Z.eqb_spec (0 + Z.of_nat r) (-1)); [lia|]. reflexivity.
Qed.

Lemma isWordBlackedOut_absent (l : list Z) (bc x : Z) :
  ~ In x l -> isWordBlackedOut l bc x = false.
Proof.
  intros Hx. unfold isWordBlackedOut, indexOf.
  rewrite (indexOf_from_absent _ _ 0 Hx). reflexivity.
Qed.

End ArrayFacts.
(** ** Runs of the component *)

Module StateFacts.

Import JsString Memorizer Vocabulary.

Lemma same_outside_peek_refl (s : State) : same_outside_peek s s.
Proof. split; reflexivity. Qed.

Lemma peekEffect_frame (now : Z) (s : State) :
  same_outside_peek s (peekEffect now s).
Proof.
  unfold peekEffect.
  destruct (peekCleanup s); simpl; destruct (peekIndex s); simpl;
    split; reflexivity.
Qed.

Lemma peekEffect_peekIndex (now : Z) (s : State) :
  peekIndex (peekEffect now s) = peekIndex s.
Proof.
  unfold peekEffect.
  destruct (peekCleanup s); simpl; destruct (peekIndex s); reflexivity.
Qed.

Lemma commit_frame (now : Z) (seen : Render) (s : State) :
  same_outside_peek s (commit now seen s).
Proof.
  unfold commit.
  destruct (option_Z_eqb _ _);
    [apply same_outside_peek_refl | apply peekEffect_frame].
Qed.

Lemma commit_peekIndex (now : Z) (seen : Render) (s : State) :
  peekIndex (commit now seen s) = peekIndex s.
Proof.
  unfold commit.
  destruct (option_Z_eqb _ _); [reflexivity | apply peekEffect_peekIndex].
Qed.

(** The commit shows the state as it is: the effect touches no hook. *)
Lemma render_commit (now : Z) (seen : Render) (s : State) :
  render (commit now seen s) = render s.
Proof.
  destruct (commit_frame now seen s) as [H1 H2 _ _ _].
  unfold render. now rewrite H1, H2, commit_peekIndex.
Qed.

Lemma setPeekIndex_frame (v : option Z) (s : State) :
  same_outside_peek s (setPeekIndex v s).
Proof. split; reflexivity. Qed.

Lemma onClick_frame (content : jsstring) (seen : Render) (idx : Z)
  (s : State) :
  same_outside_peek s (onClick content seen idx s).
Proof.
  unfold onClick.
  destruct (isWordBlackedOut _ _ idx);
    [apply setPeekIndex_frame | apply same_outside_peek_refl].
Qed.

Lemma toggleTimer_blackedOutCount (seen : Render) (now : Z) (s : State) :
  blackedOutCount (toggleTimer seen now s) = blackedOutCount s.
Proof. unfold toggleTimer. destruct (seen_isTiming seen); reflexivity. Qed.

Lemma fireTimer_blackedOutCount (now h : Z) (s : State) :
  blackedOutCount (fireTimer now h s) = blackedOutCount s.
Proof.
  unfold fireTimer.
  destruct (find _ (timers s)) as [t|]; [|reflexivity].
  destruct (timer_due t <=? now); [|reflexivity].
  destruct (timer_callback t); reflexivity.
Qed.

(** What one event does to the counter: the test reads the render, the
    update the state. *)
Lemma handle_blackedOutCount (content : jsstring) (now : Z) (ev : Event)
  (c : Component) :
  blackedOutCount (state (handle content now ev c)) =
  match ev with
  | NextStep =>
      if seen_blackedOutCount (seen c)
           <? totalWords (wordIndices (words content))
      then blackedOutCount (state c) + 1 else blackedOutCount (state c)
  | PrevStep =>
      if 0 <? seen_blackedOutCount (seen c)
      then blackedOutCount (state c) - 1 else blackedOutCount (state c)
  | Reset true => 0
  | _ => blackedOutCount (state c)
  end.
Proof.
  destruct ev as [idx| | |confirmed| |h|]; simpl.
  - apply (same_blackedOutCount _ _ (onClick_frame content _ idx _)).
  - unfold nextStep. now destruct (_ <? _).
  - unfold prevStep. now destruct (_ <? _).
  - now destruct confirmed.
  - apply toggleTimer_blackedOutCount.
  - apply fireTimer_blackedOutCount.
  - apply (same_blackedOutCount _ _ (commit_frame now _ _)).
Qed.

(** What one event does to the counter that the render saw. *)
Lemma handle_seen_blackedOutCount (content : jsstring) (now : Z) (ev : Event)
  (c : Component) :
  seen_blackedOutCount (seen (handle content now ev c)) =
  match ev with
  | Rerender => blackedOutCount (state c)
  | _ => seen_blackedOutCount (seen c)
  end.
Proof.
  destruct ev; try reflexivity. simpl.
  apply (same_blackedOutCount _ _ (commit_frame now _ _)).
Qed.

Lemma run_first (content : jsstring) (e : Z * Event) (evs : list (Z * Event))
  (c : Component) :
  run content (e :: evs) c = run content evs (handle content (fst e) (snd e) c).
Proof. reflexivity. Qed.

Lemma run_app (content : jsstring) (evs1 evs2 : list (Z * Event))
  (c : Component) :
  run content (evs1 ++ evs2) c = run content evs2 (run content evs1 c).
Proof. unfold run. apply fold_left_app. Qed.

Lemma run_invariant (content : jsstring) (P : Component -> Prop) :
  (forall now ev c, P c -> P (handle content now ev c)) ->
  forall evs c, P c -> P (run content evs c).
Proof.
  intros Hstep evs. induction evs as [|[now ev] evs IH]; intros c Hc;
    [exact Hc|].
  apply IH, Hstep, Hc.
Qed.

Lemma turns_cons (content : jsstring) (e : Z * Event)
  (evs : list (Z * Event)) (c : Component) :
  turns content (e :: evs) c
  = turns content evs (turn content (fst e) (snd e) c).
Proof. reflexivity. Qed.

(** A run of turns is the run of its events, each followed by its
    render. *)
Lemma turns_run (content : jsstring) (evs : list (Z * Event)) (c : Component) :
  turns content evs c = run content (each_rendered evs) c.
Proof.
  revert c. induction evs as [|e evs IH]; intros c; [reflexivity|].
  rewrite turns_cons, IH. reflexivity.
Qed.

Lemma turns_invariant (content : jsstring) (P : Component -> Prop) :
  (forall now ev c, P c -> P (turn content now ev c)) ->
  forall evs c, P c -> P (turns content evs c).
Proof.
  intros Hstep evs. induction evs as [|[now ev] evs IH]; intros c Hc;
    [exact Hc|].
  apply IH, Hstep, Hc.
Qed.

(** After a render the render is up to date. *)
Lemma settled_rerender (content : jsstring) (now : Z) (c : Component) :
  settled (handle content now Rerender c).
Proof. reflexivity. Qed.

Lemma settled_turn (content : jsstring) (now : Z) (ev : Event)
  (c : Component) :
  settled (turn content now ev c).
Proof. apply settled_rerender. Qed.

Lemma totalWords_nonneg (l : list Z) : 0 <= totalWords l.
Proof. unfold totalWords. lia. Qed.

(** When every call is rendered before the next, the counter stays
    within its bounds. *)
Lemma turn_blackedOutCount_range (content : jsstring) (now : Z) (ev : Event)
  (c : Component) :
  settled c ->
  0 <= blackedOutCount (state c) <= totalWords (wordIndices (words content)) ->
  0 <= blackedOutCount (state (turn content now ev c))
    <= totalWords (wordIndices (words content)).
Proof.
  intros Hs Hrange. unfold turn.
  rewrite (handle_blackedOutCount content now Rerender).
  rewrite handle_blackedOutCount, Hs. simpl.
  pose proof (totalWords_nonneg (wordIndices (words content))) as Htotal.
  destruct ev as [idx| | |[|]| |h|]; try lia.
  - destruct (Z.ltb_spec (blackedOutCount (state c))
                (totalWords (wordIndices (words content)))); lia.
  - destruct (Z.ltb_spec 0 (blackedOutCount (state c))); lia.
Qed.

Lemma turns_blackedOutCount_range (content : jsstring)
  (evs : list (Z * Event)) (firstHandle : positive) :
  0 <= blackedOutCount (state (turns content evs (mount firstHandle)))
    <= totalWords (wordIndices (words content)).
Proof.
  assert (Hinv : forall c,
            settled c /\
            0 <= blackedOutCount (state c)
              <= totalWords (wordIndices (words content)) ->
            settled (turns content evs c) /\
            0 <= blackedOutCount (state (turns content evs c))
              <= totalWords (wordIndices (words content))).
  { apply (turns_invariant content
             (fun c => settled c /\
                       0 <= blackedOutCount (state c)
                         <= totalWords (wordIndices (words content)))).
    intros now ev c [Hs Hr]. split; [apply settled_turn|].
    now apply turn_blackedOutCount_range. }
  apply Hinv. split; [reflexivity|]. simpl.
  pose proof (totalWords_nonneg (wordIndices (words content))). lia.
Qed.

(** Without words the counter does not move, whatever render the calls
    come from. *)
Lemma handle_no_words (content : jsstring) (now : Z) (ev : Event)
  (c : Component) :
  totalWords (wordIndices (words content)) = 0 ->
  blackedOutCount (state c) = 0 /\ seen_blackedOutCount (seen c) = 0 ->
  blackedOutCount (state (handle content now ev c)) = 0 /\
  seen_blackedOutCount (seen (handle content now ev c)) = 0.
Proof.
  intros Htotal [Hbc Hseen]. split.
  - rewrite handle_blackedOutCount, Hseen, Htotal, Hbc.
    destruct ev as [idx| | |[|]| |h|]; reflexivity.
  - destruct ev as [idx| | |confirmed| |h|]; try exact Hseen.
    cbn [handle seen render seen_blackedOutCount].
    rewrite (same_blackedOutCount _ _ (commit_frame now _ _)). exact Hbc.
Qed.

Lemma run_no_words (content : jsstring) (evs : list (Z * Event))
  (firstHandle : positive) :
  totalWords (wordIndices (words content)) = 0 ->
  blackedOutCount (state (run content evs (mount firstHandle))) = 0.
Proof.
  intros Htotal.
  apply (run_invariant content
           (fun c => blackedOutCount (state c) = 0 /\
                     seen_blackedOutCount (seen c) = 0)).
  - intros now ev c. apply handle_no_words. exact Htotal.
  - split; reflexivity.
Qed.

End StateFacts.

Module ProgressSpec.

Import JsString Memorizer Vocabulary ArrayFacts StateFacts.

(** "Hello   world\nfoo" has three words.  With a render after each
    call, three advances hide them all and a fourth changes nothing, and
    retreating from the start changes nothing either. *)
Example advance_saturates :
  blackedOutCount
    (state (turns hello_world_foo
              [(0, NextStep); (0, NextStep); (0, NextStep); (0, NextStep)]
              (mount 1))) = 3.
Proof. reflexivity. Qed.

Example retreat_saturates :
  blackedOutCount
    (state (turns hello_world_foo
              [(0, PrevStep); (0, PrevStep); (0, NextStep); (0, PrevStep);
               (0, PrevStep)]
              (mount 1))) = 0.
Proof. reflexivity. Qed.

(** Two calls of [nextStep] from the render that shows 2 of 3 words
    blacked out: both pass the test, and the counter is 4. *)
Example advance_twice_from_one_render :
  blackedOutCount
    (state (run hello_world_foo [(0, NextStep); (0, NextStep)] two_hidden))
  = 4.
Proof. reflexivity. Qed.

(** C4.  The counter is kept within [0 .. totalWords] only as long as
    every call is made from a render of the counter as it is.  In a
    run from mount in which each call is rendered before the next,
    [0 <= blackedOutCount <= totalWords] holds.  But the test of
    [nextStep] and of [prevStep] reads the counter that the render saw,
    and the update acts on the counter of the moment: from a state of
    such a run with one word left, two calls of [nextStep] before the
    next render give [totalWords + 1], and from a state with one word
    blacked out, two calls of [prevStep] give [-1]. *)
Theorem blackedOutCount_leaves_bounds (content : jsstring)
  (firstHandle : positive) (evs : list (Z * Event)) (t1 t2 : Z) :
  let total := totalWords (wordIndices (words content)) in
  let c := turns content evs (mount firstHandle) in
  0 <= blackedOutCount (state c) <= total /\
  (blackedOutCount (state c) = total - 1 ->
   blackedOutCount
     (state (run content [(t1, NextStep); (t2, NextStep)] c)) = total + 1) /\
  (blackedOutCount (state c) = 1 ->
   blackedOutCount
     (state (run content [(t1, PrevStep); (t2, PrevStep)] c)) = -1).
Proof.
  cbv zeta. set (total := totalWords (wordIndices (words content))).
  set (c := turns content evs (mount firstHandle)).
  assert (Hs : seen c = render (state c)).
  { unfold c. destruct evs as [|e evs] using rev_ind; [reflexivity|].
    unfold turns. rewrite fold_left_app. apply settled_turn. }
  split; [apply turns_blackedOutCount_range|]. split; intros Hbc.
  - change (run content [(t1, NextStep); (t2, NextStep)] c)
      with (handle content t2 NextStep (handle content t1 NextStep c)).
    rewrite !handle_blackedOutCount. cbn [handle seen]. rewrite Hs.
    cbn [render seen_blackedOutCount]. fold total.
    destruct (Z.ltb_spec (blackedOutCount (state c)) total); lia.
  - change (run content [(t1, PrevStep); (t2, PrevStep)] c)
      with (handle content t2 PrevStep (handle content t1 PrevStep c)).
    rewrite !handle_blackedOutCount. cbn [handle seen]. rewrite Hs.
    cbn [render seen_blackedOutCount].
    destruct (Z.ltb_spec 0 (blackedOutCount (state c))); lia.
Qed.

Lemma blackedOutCount_leaves_bounds_witness :
  let c := turns hello_world_foo [(0, NextStep); (0, NextStep)] (mount 1) in
  let one := turns hello_world_foo [(0, NextStep)] (mount 1) in
  (blackedOutCount (state c) = 3 - 1 /\
   blackedOutCount
     (state (run hello_world_foo [(5, NextStep); (6, NextStep)] c)) = 3 + 1) /\
  (blackedOutCount (state one) = 1 /\
   blackedOutCount
     (state (run hello_world_foo [(5, PrevStep); (6, PrevStep)] one)) = -1).
Proof.
  cbv zeta.
  destruct (blackedOutCount_leaves_bounds hello_world_foo 1
              [(0, NextStep); (0, NextStep)] 5 6) as (_ & Hnext & _).
  destruct (blackedOutCount_leaves_bounds hello_world_foo 1
              [(0, NextStep)] 5 6) as (_ & _ & Hprev).
  split; (split; [reflexivity|]).
  - exact (Hnext eq_refl).
  - exact (Hprev eq_refl).
Defined.

(** C5.  For every rank [r] in [0 .. totalWords - 1] there is the token
    index [idx = wordIndices[r]] of a word, and for every
    [blackedOutCount] the test [isWordBlackedOut idx] is [r <
    blackedOutCount].  For every argument that is not the index of a
    word token the test returns [false]. *)
Theorem isWordBlackedOut_iff_rank_below (content : jsstring)
  (blackedOutCount : Z) :
  let indices := wordIndices (words content) in
  (forall r : Z,
     0 <= r < totalWords indices ->
     exists idx w,
       nth_error indices (Z.to_nat r) = Some idx /\
       0 <= idx /\
       nth_error (words content) (Z.to_nat idx) = Some w /\
       test_non_whitespace w = true /\
       isWordBlackedOut indices blackedOutCount idx = (r <? blackedOutCount)) /\
  (forall idx : Z,
     ~ (exists w, 0 <= idx /\
                  nth_error (words content) (Z.to_nat idx) = Some w /\
                  test_non_whitespace w = true) ->
     isWordBlackedOut indices blackedOutCount idx = false).
Proof.
  intros indices. split.
  - intros r Hr. unfold totalWords in Hr.
    destruct (nth_error indices (Z.to_nat r)) as [idx|] eqn:Hidx.
    + pose proof (nth_error_In _ _ Hidx) as Hin.
      apply wordIndices_In in Hin. destruct Hin as (w & H0 & Hw & Ht).
      exists idx, w. repeat split; try assumption.
      unfold indices. rewrite (isWordBlackedOut_rank _ _ _ _ Hidx).
      rewrite Z2Nat.id by lia. reflexivity.
    + apply nth_error_None in Hidx. lia.
  - intros idx Hidx. apply isWordBlackedOut_absent.
    intros Hin. apply Hidx. apply wordIndices_In. exact Hin.
Qed.

Lemma isWordBlackedOut_iff_rank_below_witness :
  0 <= 1 < totalWords (wordIndices (words hello_world_foo)) /\
  (exists idx w,
     nth_error (wordIndices (words hello_world_foo))
       (Z.to_nat 1) = Some idx /\
     0 <= idx /\
     nth_error (words hello_world_foo) (Z.to_nat idx) = Some w /\
     test_non_whitespace w = true /\
     isWordBlackedOut (wordIndices (words hello_world_foo))
       2 idx = (1 <? 2)) /\
  ~ (exists w, 0 <= 1 /\
               nth_error (words hello_world_foo) (Z.to_nat 1)
                 = Some w /\
               test_non_whitespace w = true) /\
  isWordBlackedOut (wordIndices (words hello_world_foo)) 2 1
    = false.
Proof.
  assert (H1 : 0 <= 1 <
               totalWords (wordIndices (words hello_world_foo)))
    by (vm_compute; split; [discriminate | reflexivity]).
  assert (H2 : ~ (exists w, 0 <= 1 /\
               nth_error (words hello_world_foo) (Z.to_nat 1)
                 = Some w /\
               test_non_whitespace w = true)).
  { intros (w & _ & Hw & Ht). vm_compute in Hw. injection Hw as <-.
    vm_compute in Ht. discriminate. }
  split; [exact H1|]. split; [|split; [exact H2|]].
  - exact (proj1 (isWordBlackedOut_iff_rank_below
                    hello_world_foo 2) 1 H1).
  - exact (proj2 (isWordBlackedOut_iff_rank_below
                    hello_world_foo 2) 1 H2).
Defined.

End ProgressSpec.

(** ** Numbers *)

Module NumberFacts.

Import JsNumber Vocabulary.

(** The order of binary64 values: swapping the operands of a comparison
    swaps its outcome. *)
Lemma SFcompare_antisym (x y : spec_float) :
  SFcompare y x = option_map CompOpp (SFcompare x y).
Proof.
  destruct x as [sx|sx| |sx mx ex], y as [sy|sy| |sy my ey]; simpl;
    try reflexivity;
    try (destruct sx; reflexivity); try (destruct sy; reflexivity);
    try (destruct sx, sy; reflexivity).
  destruct sx, sy; simpl; try reflexivity;
    rewrite (Z.compare_antisym ex ey); destruct (ex ?= ey); simpl;
    try reflexivity; f_equal;
    rewrite (Pos.compare_cont_antisym mx my Eq); reflexivity.
Qed.

Lemma leb_true_ltb_false (x y : float) :
  PrimFloat.leb x y = true -> PrimFloat.ltb y x = false.
Proof.
  rewrite FloatAxioms.leb_spec, FloatAxioms.ltb_spec. unfold SFleb, SFltb.
  rewrite (SFcompare_antisym (Prim2SF x) (Prim2SF y)).
  destruct (SFcompare (Prim2SF x) (Prim2SF y)) as [[| |]|]; simpl;
    intros H; try reflexivity; discriminate.
Qed.

(** A mantissa of [d] binary digits lies in [2^(d-1) .. 2^d - 1]. *)
Lemma digits2_pos_bounds (m : positive) :
  2 ^ (Z.pos (digits2_pos m) - 1) <= Z.pos m < 2 ^ Z.pos (digits2_pos m).
Proof.
  induction m as [m IH|m IH|]; simpl digits2_pos.
  - rewrite Pos2Z.inj_succ.
    replace (Z.succ (Z.pos (digits2_pos m)) - 1)
      with (Z.succ (Z.pos (digits2_pos m) - 1)) by lia.
    rewrite !Z.pow_succ_r by lia. lia.
  - rewrite Pos2Z.inj_succ.
    replace (Z.succ (Z.pos (digits2_pos m)) - 1)
      with (Z.succ (Z.pos (digits2_pos m) - 1)) by lia.
    rewrite !Z.pow_succ_r by lia. lia.
  - simpl. lia.
Qed.

(** Comparing an integral Number with an eight-bit integer constant
    [C] (mantissa [C * 2^45] at exponent [-45]) is comparing the integers. *)
Lemma compare_integer_value (x : float) (z : Z) (mc : positive) (C : Z) :
  integer_value x z ->
  Z.pos mc = C * 2 ^ 45 -> 128 <= C < 256 ->
  SFcompare (Prim2SF x) (S754_finite false mc (-45)) = Some (z ?= C).
Proof.
  unfold integer_value. intros Hx Hmc HC.
  pose proof (Prim2SF_valid x) as Hv.
  destruct (Prim2SF x) as [s|s| |s m e]; try contradiction.
  - subst z. unfold SFcompare. f_equal. symmetry.
    apply Z.compare_lt_iff. lia.
  - simpl in Hv. unfold bounded, canonical_mantissa, fexp in Hv.
    apply andb_prop in Hv. destruct Hv as [Hcan Hmax].
    apply Z.eqb_eq in Hcan. 
    pose proof (digits2_pos_bounds m) as Hd.
    set (d := Z.pos (digits2_pos m)) in *.
    change (SpecFloat.emin prec emax) with (-1074) in Hcan.
    change prec with 53 in Hcan.
    destruct s; unfold SFcompare.
    + f_equal. symmetry. apply Z.compare_lt_iff.
      unfold cond_Zopp in Hx.
      destruct (Z.leb_spec 0 e) as [He|He].
      * assert (0 < 2 ^ e) by (apply Z.pow_pos_nonneg; lia).
        assert (0 < Z.pos m * 2 ^ e) by (apply Z.mul_pos_pos; lia). lia.
      * assert (0 < 2 ^ (- e)) by (apply Z.pow_pos_nonneg; lia). nia.
    + f_equal. destruct (Z.compare_spec e (-45)) as [He|He|He].
      * subst e. change (z * 2 ^ 45 = Z.pos m) in Hx.
        rewrite Pos.compare_cont_spec.
        change (Pos.compare m mc) with (Z.pos m ?= Z.pos mc).
        rewrite <- Hx, Hmc.
        rewrite <- (Zmult_compare_compat_r z C (2 ^ 45)) by reflexivity.
        destruct (z ?= C); reflexivity.
      * symmetry. apply Z.compare_lt_iff.
        destruct (Z.leb_spec 0 e) as [He'|He']; [lia|].
        assert (Hd53 : d <= 53) by lia.
        assert (Hm : Z.pos m < 2 ^ 53).
        { eapply Z.lt_le_trans; [apply Hd|]. apply Z.pow_le_mono_r; lia. }
        replace (- e) with (46 + (- e - 46)) in Hx by lia.
        rewrite Z.pow_add_r in Hx by lia.
        assert (0 < 2 ^ (- e - 46)) by (apply Z.pow_pos_nonneg; lia).
        change (2 ^ 53) with (128 * 2 ^ 46) in Hm.
        unfold cond_Zopp in Hx. nia.
      * symmetry. apply Z.compare_gt_iff.
        assert (Hd53 : d = 53) by lia.
        assert (Hm : 2 ^ 52 <= Z.pos m) by (rewrite Hd53 in Hd; apply Hd).
        unfold cond_Zopp in Hx.
        destruct (Z.leb_spec 0 e) as [He'|He'].
        -- assert (1 <= 2 ^ e) by (apply (Z.pow_le_mono_r 2 0 e); lia).
           change (2 ^ 52) with 4503599627370496 in Hm. nia.
        -- replace 52 with ((52 + e) + (- e)) in Hm by lia.
           rewrite Z.pow_add_r in Hm by lia.
           assert (0 < 2 ^ (- e)) by (apply Z.pow_pos_nonneg; lia).
           assert (2 ^ 8 <= 2 ^ (52 + e)) by (apply Z.pow_le_mono_r; lia).
           change (2 ^ 8) with 256 in *. nia.
Qed.

(** *** Integers convert exactly

    Shifting a mantissa left by [k] binary digits. *)
Lemma iter_xO_value (p k : positive) :
  Z.pos (Pos.iter xO p k) = Z.pos p * 2 ^ Z.pos k.
Proof.
  induction k as [|k IH] using Pos.peano_ind.
  - simpl. lia.
  - rewrite Pos.iter_succ, Pos2Z.inj_succ, Z.pow_succ_r by lia.
    rewrite Pos2Z.inj_xO, IH. lia.
Qed.

Lemma iter_xO_digits (p k : positive) :
  digits2_pos (Pos.iter xO p k) = (digits2_pos p + k)%positive.
Proof.
  induction k as [|k IH] using Pos.peano_ind.
  - simpl. lia.
  - rewrite Pos.iter_succ. simpl. rewrite IH. lia.
Qed.

(** A mantissa of 53 digits is not shifted or rounded any further. *)
Lemma shr_fexp_canonical (m : positive) (e : Z) :
  Z.pos (digits2_pos m) = 53 -> -1074 <= e ->
  shr_fexp prec emax (Z.pos m) e loc_Exact =
  ({| shr_m := Z.pos m; shr_r := false; shr_s := false |}, e).
Proof.
  intros Hd He. unfold shr_fexp, fexp.
  change (Zdigits2 (Z.pos m)) with (Z.pos (digits2_pos m)). rewrite Hd.
  change (SpecFloat.emin prec emax) with (-1074). change prec with 53.
  replace (Z.max (53 + e - 53) (-1074) - e) with 0 by lia.
  reflexivity.
Qed.

Lemma binary_round_aux_canonical (s : bool) (m : positive) (e : Z) :
  Z.pos (digits2_pos m) = 53 -> -1074 <= e <= 971 ->
  binary_round_aux prec emax s (Z.pos m) e loc_Exact = S754_finite s m e.
Proof.
  intros Hd He. unfold binary_round_aux.
  rewrite (shr_fexp_canonical m e Hd) by lia.
  cbn [shr_m loc_of_shr_record round_nearest_even].
  rewrite (shr_fexp_canonical m e Hd) by lia.
  cbn [shr_m]. change (emax - prec) with 971.
  destruct (Z.leb_spec e 971); [reflexivity | lia].
Qed.

(** An integer of at most 53 binary digits is normalised by a left shift
    alone. *)
Lemma binary_normalize_small (p : positive) :
  Z.pos (digits2_pos p) <= 53 ->
  exists m e,
    binary_normalize prec emax (Z.pos p) 0 false = S754_finite false m e /\
    -52 <= e <= 0 /\ Z.pos p * 2 ^ (- e) = Z.pos m.
Proof.
  intros Hd. unfold binary_normalize, binary_round, shl_align, fexp.
  change (SpecFloat.emin prec emax) with (-1074). change prec with 53.
  set (d := Z.pos (digits2_pos p)) in *.
  assert (Hd1 : 1 <= d) by (unfold d; lia).
  replace (Z.max (d + 0 - 53) (-1074) - 0) with (d - 53) by lia.
  replace (Z.max (d + 0 - 53) (-1074)) with (d - 53) by lia.
  destruct (d - 53) as [|k|k] eqn:Hk; try lia.
  - exists p, 0. split; [|split; [lia | simpl; lia]].
    apply binary_round_aux_canonical; [fold d; lia | lia].
  - exists (Pos.iter xO p k), (Z.neg k). split; [|split].
    + apply binary_round_aux_canonical; [|lia].
      rewrite iter_xO_digits, Pos2Z.inj_add. fold d. lia.
    + lia.
    + rewrite iter_xO_value. reflexivity.
Qed.

Lemma of_uint63_small (p : positive) :
  Z.pos p < 2 ^ 53 ->
  exists m e,
    Prim2SF (of_uint63 (Uint63.of_Z (Z.pos p))) = S754_finite false m e /\
    -52 <= e <= 0 /\ Z.pos p * 2 ^ (- e) = Z.pos m.
Proof.
  intros Hp. rewrite FloatAxioms.of_uint63_spec, Uint63.of_Z_spec.
  rewrite Z.mod_small
    by (split; [lia|]; change wB with (2 ^ 53 * 1024); lia).
  apply binary_normalize_small.
  pose proof (digits2_pos_bounds p) as [Hlo _].
  assert (Hlt : 2 ^ (Z.pos (digits2_pos p) - 1) < 2 ^ 53) by lia.
  apply Z.pow_lt_mono_r_iff in Hlt; lia.
Qed.

(** [number_of_Z] is exact below [2^53]. *)
Lemma number_of_Z_integer_value (z : Z) :
  - 2 ^ 53 < z < 2 ^ 53 -> integer_value (number_of_Z z) z.
Proof.
  intros Hz. unfold integer_value, number_of_Z.
  destruct (Z.ltb_spec z 0) as [Hneg|Hpos].
  - destruct z as [|p|p]; try lia.
    destruct (of_uint63_small p) as (m & e & Hm & He & Hv); [lia|].
    rewrite FloatAxioms.opp_spec. change (- Z.neg p) with (Z.pos p). rewrite Hm.
    unfold SFopp, cond_Zopp, negb.
    destruct (Z.leb_spec 0 e).
    + replace e with 0 in * by lia. simpl in Hv. lia.
    + lia.
  - destruct z as [|p|p]; try lia.
    + reflexivity.
    + destruct (of_uint63_small p) as (m & e & Hm & He & Hv); [lia|].
      rewrite Hm. unfold cond_Zopp.
      destruct (Z.leb_spec 0 e).
      * replace e with 0 in * by lia. simpl in Hv. lia.
      * exact Hv.
Qed.

(** *** Rounding

    For a finite [x = (-1)^s * m * 2^e] with a negative exponent,
    [Math_round x] is integral, and its integer value [z] satisfies
    [z <= x + 1/2 < z + 1]. *)
Lemma Math_round_integer_value (x : float) (s : bool) (m : positive) (e : Z) :
  Prim2SF x = S754_finite s m e -> e < 0 ->
  exists z,
    integer_value (Math_round x) z /\
    2 * z * 2 ^ (- e) <= 2 * cond_Zopp s (Z.pos m) + 2 ^ (- e)
      < 2 * (z + 1) * 2 ^ (- e).
Proof.
  intros Hx He. pose proof (Prim2SF_valid x) as Hv. rewrite Hx in Hv.
  simpl in Hv. unfold bounded, canonical_mantissa, fexp in Hv.
  apply andb_prop in Hv. destruct Hv as [Hcan _]. apply Z.eqb_eq in Hcan.
  change (SpecFloat.emin prec emax) with (-1074) in Hcan.
  change prec with 53 in Hcan.
  pose proof (digits2_pos_bounds m) as [_ Hd].
  assert (Hm : Z.pos m < 2 ^ 53).
  { eapply Z.lt_le_trans; [exact Hd|]. apply Z.pow_le_mono_r; lia. }
  set (d := 2 ^ (- e)) in *.
  assert (Hd2 : 2 <= d).
  { unfold d. change 2 with (2 ^ 1) at 1. apply Z.pow_le_mono_r; lia. }
  set (v := cond_Zopp s (Z.pos m)).
  assert (Hvm : - 2 ^ 53 < v < 2 ^ 53) by (unfold v, cond_Zopp; destruct s; lia).
  set (n := (2 * v + d) / (2 * d)).
  assert (Hn : 2 * d * n <= 2 * v + d < 2 * d * (n + 1)).
  { unfold n. pose proof (Z.mul_div_le (2 * v + d) (2 * d)).
    pose proof (Z.mul_succ_div_gt (2 * v + d) (2 * d)). lia. }
  assert (Hnb : - 2 ^ 53 < n < 2 ^ 53) by nia.
  exists n. split; [|lia].
  unfold Math_round. rewrite Hx.
  destruct (Z.leb_spec 0 e); [lia|]. fold d.
  replace (if s then Z.neg m else Z.pos m) with v
    by (unfold v, cond_Zopp; destruct s; reflexivity).
  fold n. destruct (Z.eqb_spec n 0) as [Hn0|Hn0]; simpl.
  - destruct s.
    + rewrite Hn0. reflexivity.
    + rewrite Hn0. reflexivity.
  - apply number_of_Z_integer_value, Hnb.
Qed.

(** *** Comparisons with the two thresholds *)

Lemma ltb_integer_value (x c : float) (z C : Z) (mc : positive) :
  integer_value x z ->
  Prim2SF c = S754_finite false mc (-45) ->
  Z.pos mc = C * 2 ^ 45 -> 128 <= C < 256 ->
  PrimFloat.ltb x c = (z <? C) /\ PrimFloat.ltb c x = (C <? z).
Proof.
  intros Hx Hc Hmc HC.
  pose proof (compare_integer_value x z mc C Hx Hmc HC) as Hcmp.
  rewrite !FloatAxioms.ltb_spec. unfold SFltb.
  rewrite (SFcompare_antisym (Prim2SF x) (Prim2SF c)), Hc, Hcmp.
  unfold Z.ltb. rewrite (Z.compare_antisym z C).
  destruct (z ?= C); split; reflexivity.
Qed.

End NumberFacts.

Module PaceSpec.

Import JsString JsNumber Memorizer Vocabulary NumberFacts.

(** Five words in two seconds are 150 words per minute; three words in
    half a second are below the one-second floor. *)
Example wpm_two_seconds : wpm 2 5 = 150%float.
Proof. reflexivity. Qed.

Example wpm_half_second : wpm 0.5 3 = 0%float.
Proof. reflexivity. Qed.

(** Ties round towards positive infinity: 7 words in 8 seconds are 52.5
    words per minute and show as 53. *)
Example wpm_tie : wpm 8 7 = 53%float.
Proof. reflexivity. Qed.

(** C6.  For every [totalWords] and every [elapsed]: when [elapsed >= 1]
    the result is [Math.round(totalWords / (elapsed / 60))]; when
    [elapsed < 1] the result is [0]; for [elapsed = 0.5] the result is
    [0] whatever [totalWords] is. *)
Theorem wpm_floor_and_formula (elapsed : float) (totalWords : Z) :
  (PrimFloat.leb 1 elapsed = true ->
   wpm elapsed totalWords =
   Math_round (PrimFloat.div (number_of_Z totalWords)
                 (PrimFloat.div elapsed 60))) /\
  (PrimFloat.ltb elapsed 1 = true -> wpm elapsed totalWords = 0%float) /\
  wpm 0.5 totalWords = 0%float.
Proof.
  unfold wpm. repeat split.
  - intros H. rewrite (leb_true_ltb_false _ _ H). reflexivity.
  - intros ->. reflexivity.
Qed.

Lemma wpm_floor_and_formula_witness :
  (PrimFloat.leb 1 2 = true /\ wpm 2 5 = 150%float) /\
  (PrimFloat.ltb 0.5 1 = true /\ wpm 0.5 5 = 0%float).
Proof.
  split; (split; [reflexivity|]).
  - rewrite (proj1 (wpm_floor_and_formula 2 5) eq_refl). reflexivity.
  - exact (proj1 (proj2 (wpm_floor_and_formula 0.5 5)) eq_refl).
Defined.

Lemma getSpeedFeedback_label (wpm : float) :
  label (getSpeedFeedback wpm) =
  if PrimFloat.ltb wpm 135 then TooSlow
  else if PrimFloat.ltb 185 wpm then TooFast else SweetSpot.
Proof.
  unfold getSpeedFeedback.
  destruct (PrimFloat.ltb wpm 135); [reflexivity|].
  destruct (PrimFloat.ltb 185 wpm); reflexivity.
Qed.

(** C7.  For every integral Number [wpm], of integer value [z], the
    label is TOO SLOW exactly when [z < 135], TOO FAST exactly when
    [z > 185], and SWEET SPOT exactly when [135 <= z <= 185].  Every
    integer [z] of magnitude below [2^53] is such a Number, and is
    classified by these three cases; the four boundary values 134, 135,
    185 and 186 fall in TOO SLOW, SWEET SPOT, SWEET SPOT and TOO FAST. *)
Theorem getSpeedFeedback_bands :
  (forall (wpm : float) (z : Z),
     integer_value wpm z ->
     (label (getSpeedFeedback wpm) = TooSlow <-> z < 135) /\
     (label (getSpeedFeedback wpm) = TooFast <-> 185 < z) /\
     (label (getSpeedFeedback wpm) = SweetSpot <-> 135 <= z <= 185)) /\
  (forall z : Z,
     - 2 ^ 53 < z < 2 ^ 53 ->
     label (getSpeedFeedback (number_of_Z z)) =
     if z <? 135 then TooSlow else if 185 <? z then TooFast else SweetSpot) /\
  label (getSpeedFeedback (number_of_Z 134)) = TooSlow /\
  label (getSpeedFeedback (number_of_Z 135)) = SweetSpot /\
  label (getSpeedFeedback (number_of_Z 185)) = SweetSpot /\
  label (getSpeedFeedback (number_of_Z 186)) = TooFast.
Proof.
  assert (Hcmp : forall (wpm : float) (z : Z),
             integer_value wpm z ->
             PrimFloat.ltb wpm 135 = (z <? 135) /\
             PrimFloat.ltb 185 wpm = (185 <? z)).
  { intros wpm z Hz.
    destruct (ltb_integer_value wpm 135 z 135 4749890231992320 Hz)
      as [Hlo _]; [reflexivity | reflexivity | lia |].
    destruct (ltb_integer_value wpm 185 z 185 6509108836433920 Hz)
      as [_ Hhi]; [reflexivity | reflexivity | lia |].
    split; assumption. }
  split; [|split; [|repeat split; reflexivity]].
  - intros wpm z Hz. rewrite getSpeedFeedback_label.
    destruct (Hcmp wpm z Hz) as [-> ->].
    unfold TooSlow, SweetSpot, TooFast.
    destruct (Z.ltb_spec z 135), (Z.ltb_spec 185 z);
      (split; [|split]); (split; intros Hl);
      try lia; try reflexivity; discriminate Hl.
  - intros z Hz. rewrite getSpeedFeedback_label.
    destruct (Hcmp _ z (number_of_Z_integer_value z Hz)) as [-> ->].
    reflexivity.
Qed.

Lemma getSpeedFeedback_bands_witness :
  (integer_value 150 150 /\ label (getSpeedFeedback 150) = SweetSpot) /\
  (- 2 ^ 53 < 200 < 2 ^ 53 /\
   label (getSpeedFeedback (number_of_Z 200)) = TooFast).
Proof.
  assert (H : integer_value 150 150) by (vm_compute; reflexivity).
  assert (H' : - 2 ^ 53 < 200 < 2 ^ 53) by (split; reflexivity).
  split; (split; [assumption|]).
  - apply (proj2 (proj2 (proj1 getSpeedFeedback_bands 150%float 150 H))).
    lia.
  - exact (proj1 (proj2 getSpeedFeedback_bands) 200 H').
Defined.

End PaceSpec.

Module PercentageSpec.

Import JsString JsNumber Memorizer Vocabulary JsStringFacts ArrayFacts StateFacts.

Example progressPercentage_all : progressPercentage 3 3 = 100%float.
Proof. reflexivity. Qed.

Example progressPercentage_third : progressPercentage 1 3 = 33%float.
Proof. reflexivity. Qed.

Lemma wordIndices_from_no_words (ws : list jsstring) (k : Z) :
  0 <= k ->
  (forall w, In w ws -> test_non_whitespace w = false) ->
  wordIndices_from k ws = [].
Proof.
  revert k. induction ws as [|w ws IH]; intros k Hk Hws; [reflexivity|].
  rewrite wordIndices_from_cons by exact Hk.
  rewrite (Hws w) by (left; reflexivity). simpl.
  apply IH; [lia|]. intros w' Hw'. apply Hws. right. exact Hw'.
Qed.

(** A text of whitespace only, the empty text included, has no words. *)
Lemma totalWords_all_whitespace (content : jsstring) :
  all_whitespace content -> totalWords (wordIndices (words content)) = 0.
Proof.
  intros Hc.
  change (wordIndices (words content))
    with (wordIndices_from 0 (words content)).
  rewrite wordIndices_from_no_words; [reflexivity | lia |].
  intros w Hw. apply test_non_whitespace_all_whitespace.
  unfold all_whitespace in *. rewrite Forall_forall in *.
  intros c Hcw. apply Hc.
  rewrite <- (split_whitespace_concat content). apply in_concat.
  exists w. split; assumption.
Qed.

(** C2, where the code departs from it.  For a text without words (empty
    or whitespace only) the counter stays at [0] along every run, and
    [Math.round((0 / 0) * 100)] is NaN, not [0]. *)
Theorem progressPercentage_without_words_is_NaN (content : jsstring)
  (firstHandle : positive) (evs : list (Z * Event)) :
  all_whitespace content ->
  PrimFloat.is_nan
    (progressPercentage
       (blackedOutCount (state (run content evs (mount firstHandle))))
       (totalWords (wordIndices (words content)))) = true.
Proof.
  intros Hc.
  pose proof (totalWords_all_whitespace content Hc) as Htotal.
  rewrite (run_no_words content evs firstHandle Htotal), Htotal.
  reflexivity.
Qed.

Lemma progressPercentage_without_words_is_NaN_witness :
  all_whitespace [32; 10] /\
  PrimFloat.is_nan
    (progressPercentage
       (blackedOutCount
          (state (run [32; 10] [(0, NextStep)] (mount 1))))
       (totalWords (wordIndices (words [32; 10])))) = true.
Proof.
  assert (H : all_whitespace [32; 10]) by (repeat constructor).
  split; [exact H|].
  exact (progressPercentage_without_words_is_NaN [32; 10] 1 [(0, NextStep)] H).
Defined.

End PercentageSpec.
(** ** The window's timers and the peek *)

Module TimerFacts.

Import JsString JsNumber Memorizer Vocabulary StateFacts.

(** *** Lists of timers *)

Lemma filter_comm {A : Type} (p q : A -> bool) (l : list A) :
  filter p (filter q l) = filter q (filter p l).
Proof.
  induction l as [|x l IH]; simpl; [reflexivity|].
  destruct (q x) eqn:Hq, (p x) eqn:Hp; simpl;
    rewrite ?Hq, ?Hp, IH; reflexivity.
Qed.

Lemma filter_all {A : Type} (p : A -> bool) (l : list A) :
  (forall x, In x l -> p x = true) -> filter p l = l.
Proof.
  induction l as [|x l IH]; intros H; simpl; [reflexivity|].
  rewrite (H x) by (left; reflexivity).
  rewrite IH; [reflexivity|]. intros y Hy. apply H. right. exact Hy.
Qed.

Lemma filter_none {A : Type} (p : A -> bool) (l : list A) :
  (forall x, In x l -> p x = false) -> filter p l = [].
Proof.
  induction l as [|a l IH]; intros Hp; [reflexivity|]. simpl.
  rewrite (Hp a (or_introl eq_refl)). apply IH.
  intros x Hx. apply Hp. now right.
Qed.

Lemma NoDup_handles_filter (p : Timer -> bool) (ts : list Timer) :
  NoDup (map timer_handle ts) -> NoDup (map timer_handle (filter p ts)).
Proof.
  induction ts as [|t ts IH]; intros H; simpl; [constructor|].
  inversion H as [|? ? Hnot Hnd]; subst.
  destruct (p t); simpl; [|apply IH, Hnd].
  constructor; [|apply IH, Hnd].
  intros Hin. apply Hnot. apply in_map_iff in Hin.
  destruct Hin as (t' & Heq & Hin). apply filter_In in Hin.
  apply in_map_iff. exists t'. split; [exact Heq | apply Hin].
Qed.

Lemma NoDup_handles_inj (ts : list Timer) (t t' : Timer) :
  NoDup (map timer_handle ts) -> In t ts -> In t' ts ->
  timer_handle t = timer_handle t' -> t = t'.
Proof.
  induction ts as [|x ts IH]; intros H Ht Ht' Heq; [destruct Ht|].
  inversion H as [|? ? Hnot Hnd]; subst.
  destruct Ht as [->|Ht], Ht' as [->|Ht'].
  - reflexivity.
  - exfalso. apply Hnot. rewrite Heq. apply in_map. exact Ht'.
  - exfalso. apply Hnot. rewrite <- Heq. apply in_map. exact Ht.
  - apply IH; assumption.
Qed.

Lemma not_handle_absent (h : Z) (ts : list Timer) :
  ~ In h (map timer_handle (filter (not_handle h) ts)).
Proof.
  intros Hin. apply in_map_iff in Hin. destruct Hin as (t & Heq & Hin).
  apply filter_In in Hin. destruct Hin as [_ Hnh].
  unfold not_handle in Hnh. rewrite Heq, Z.eqb_refl in Hnh. discriminate.
Qed.

Lemma find_handle (ts : list Timer) (t : Timer) :
  NoDup (map timer_handle ts) -> In t ts ->
  find (fun x => timer_handle x =? timer_handle t) ts = Some t.
Proof.
  intros Hnd Hin.
  destruct (find (fun x => timer_handle x =? timer_handle t) ts) as [x|] eqn:Hf.
  - apply find_some in Hf. destruct Hf as [Hx Heq]. apply Z.eqb_eq in Heq.
    rewrite (NoDup_handles_inj ts x t Hnd Hx Hin Heq). reflexivity.
  - pose proof (find_none _ _ Hf t Hin) as Hn. simpl in Hn.
    rewrite Z.eqb_refl in Hn. discriminate.
Qed.

Lemma peekTimeouts_In (s : State) (t : Timer) :
  In t (peekTimeouts s) <-> In t (timers s) /\ is_peek_timer t = true.
Proof. apply filter_In. Qed.

Lemma tickTimers_In (s : State) (t : Timer) :
  In t (tickTimers s) <-> In t (timers s) /\ timer_callback t = ElapsedTick.
Proof.
  unfold tickTimers. rewrite filter_In. unfold is_peek_timer.
  destruct (timer_callback t); simpl; split; intros [H1 H2];
    (split; [exact H1|]); congruence.
Qed.

(** Clearing a handle, on the two kinds of timers. *)
Lemma peekTimeouts_clearTimer (h : Z) (s : State) :
  peekTimeouts (clearTimer h s) = filter (not_handle h) (peekTimeouts s).
Proof. unfold peekTimeouts, clearTimer. simpl. apply filter_comm. Qed.

Lemma tickTimers_clearTimer (h : Z) (s : State) :
  tickTimers (clearTimer h s) = filter (not_handle h) (tickTimers s).
Proof. unfold tickTimers, clearTimer. simpl. apply filter_comm. Qed.

(** A handle that none of the timers has. *)
Lemma filter_not_handle_all (h : Z) (ts : list Timer) :
  (forall t, In t ts -> timer_handle t <> h) ->
  filter (not_handle h) ts = ts.
Proof.
  intros Hne. apply filter_all. intros t Ht. unfold not_handle.
  destruct (Z.eqb_spec (timer_handle t) h) as [Heq|]; [|reflexivity].
  now apply Hne in Ht.
Qed.

(** In a table without duplicates, the timers of the other kind do not
    have the handle of [t]. *)
Lemma other_kind_handle (ts : list Timer) (t x : Timer) :
  NoDup (map timer_handle ts) -> In t ts -> In x ts ->
  is_peek_timer x <> is_peek_timer t -> timer_handle x <> timer_handle t.
Proof.
  intros Hnd Ht Hx Hkind Heq. apply Hkind.
  now rewrite (NoDup_handles_inj ts x t Hnd Hx Ht Heq).
Qed.

Lemma option_Z_eqb_eq (a b : option Z) : option_Z_eqb a b = true <-> a = b.
Proof.
  destruct a as [x|], b as [y|]; simpl; split; intros H;
    try discriminate; try reflexivity.
  - apply Z.eqb_eq in H. congruence.
  - injection H as ->. apply Z.eqb_refl.
Qed.


Lemma isPeeking_iff (s : State) (idx : Z) :
  isPeeking s idx = true <-> peekIndex s = Some idx.
Proof. apply option_Z_eqb_eq. Qed.


(** *** Well-formed timer tables *)

Lemma wf_mount (firstHandle : positive) : wf_state (mount firstHandle).
Proof.
  split; simpl.
  - constructor.
  - intros t [].
  - lia.
  - intros t [].
  - discriminate.
  - discriminate.
  - reflexivity.
Qed.

(** A call that leaves the timers, the refs and the cleanup. *)
Lemma wf_same_timers (c : Component) (s' : State) :
  peekCleanup s' = peekCleanup (state c) ->
  timers s' = timers (state c) -> nextHandle s' = nextHandle (state c) ->
  timerIntervalRef s' = timerIntervalRef (state c) ->
  wf_state c -> wf_state {| state := s'; seen := seen c |}.
Proof.
  intros H2 H3 H4 H5 [W1 W2 W3 W4 W5 W6 W7].
  split; unfold peekTimeouts, tickTimers in *; simpl;
    rewrite ?H2, ?H3, ?H4, ?H5; assumption.
Qed.

Lemma wf_onClick (content : jsstring) (idx : Z) (c : Component) :
  wf_state c ->
  wf_state {| state := onClick content (seen c) idx (state c);
              seen := seen c |}.
Proof.
  intros W. unfold onClick.
  destruct (isWordBlackedOut _ _ idx);
    [|now apply wf_same_timers].
  now apply wf_same_timers.
Qed.

(** *** The stopwatch button leaves the peek alone *)

Lemma toggleTimer_peek (now : Z) (c : Component) :
  wf_state c ->
  let s' := toggleTimer (seen c) now (state c) in
  wf_state {| state := s'; seen := seen c |} /\
  peekIndex s' = peekIndex (state c) /\
  peekCleanup s' = peekCleanup (state c) /\
  peekTimeouts s' = peekTimeouts (state c).
Proof.
  intros [W1 W2 W3 W4 W5 W6 W7]. cbv zeta. unfold toggleTimer.
  set (s := state c) in *.
  destruct (seen_isTiming (seen c)).
  - (* Stop *)
    assert (Hpeek : peekTimeouts (clearTimer (timerIntervalRef s) s)
                    = peekTimeouts s).
    { rewrite peekTimeouts_clearTimer. now apply filter_not_handle_all. }
    assert (Htick : forall t,
              In t (tickTimers (clearTimer (timerIntervalRef s) s)) ->
              In t (tickTimers s)).
    { intros t. rewrite tickTimers_clearTimer, filter_In. tauto. }
    split; [|now repeat split].
    split; simpl.
    + apply NoDup_handles_filter, W1.
    + intros t Ht. apply filter_In in Ht. apply W2, Ht.
    + exact W3.
    + change (forall t, In t (peekTimeouts
                                (clearTimer (timerIntervalRef s) s)) ->
                        timer_handle t <> timerIntervalRef s).
      now rewrite Hpeek.
    + exact W5.
    + intros h t Hh Ht. apply (W6 h t Hh). now apply Htick.
    + change (peek_parts (seen_peekIndex (seen c)) (peekCleanup s)
                (peekTimeouts (clearTimer (timerIntervalRef s) s))).
      now rewrite Hpeek.
  - (* Start *)
    split; [|now repeat split].
    split; simpl.
    + constructor; [|exact W1].
      intros Hin. apply in_map_iff in Hin.
      destruct Hin as (t & Ht & Hin). specialize (W2 t Hin). lia.
    + intros t [<-|Hin]; simpl; [lia|]. specialize (W2 t Hin). lia.
    + lia.
    + intros t Ht. apply peekTimeouts_In in Ht.
      destruct Ht as [[<-|Ht] Hk]; [discriminate Hk|].
      specialize (W2 t Ht). lia.
    + intros h Hh. specialize (W5 h Hh). lia.
    + intros h t Hh [<-|Ht]; simpl.
      * specialize (W5 h Hh). lia.
      * now apply (W6 h t Hh).
    + exact W7.
Qed.

(** *** A timer runs *)

(** The callback of a peek timeout runs: the timeout leaves the table,
    and no word is peeked. *)
Lemma fireTimer_expiry (now : Z) (t : Timer) (c : Component) :
  wf_state c -> In t (timers (state c)) ->
  timer_callback t = PeekExpiry -> timer_due t <= now ->
  let s' := fireTimer now (timer_handle t) (state c) in
  peekIndex s' = None /\ peekTimeouts s' = [] /\
  peekTimeouts (state c) = [t] /\
  tickTimers s' = tickTimers (state c) /\
  same_outside_peek (state c) s' /\
  wf_state {| state := s'; seen := seen c |}.
Proof.
  intros W Hin Hcb Hdue. pose proof W as [W1 W2 W3 W4 W5 W6 W7].
  cbv zeta. set (s := state c) in *.
  unfold fireTimer. fold s. rewrite (find_handle _ _ W1 Hin).
  destruct (Z.leb_spec (timer_due t) now); [|lia]. rewrite Hcb.
  assert (Hkind : is_peek_timer t = true)
    by (unfold is_peek_timer; now rewrite Hcb).
  assert (Hpending : peekTimeouts s = [t]).
  { assert (Ht : In t (peekTimeouts s)) by now apply peekTimeouts_In.
    unfold peek_parts in W7.
    destruct (seen_peekIndex (seen c)), (peekCleanup s);
      try contradiction.
    - destruct W7 as [W7|(t0 & W7 & _)]; rewrite W7 in Ht.
      + destruct Ht.
      + destruct Ht as [->|[]]. exact W7.
    - rewrite W7 in Ht. destruct Ht. }
  assert (Hgone : peekTimeouts (clearTimer (timer_handle t) s) = []).
  { rewrite peekTimeouts_clearTimer, Hpending. simpl. unfold not_handle.
    now rewrite Z.eqb_refl. }
  assert (Hticks : tickTimers (clearTimer (timer_handle t) s) = tickTimers s).
  { rewrite tickTimers_clearTimer. apply filter_not_handle_all.
    intros x Hx. apply filter_In in Hx. destruct Hx as [Hx Hxk].
    apply (other_kind_handle (timers s) t x W1 Hin Hx).
    rewrite Hkind. now destruct (is_peek_timer x). }
  split; [reflexivity|]. split; [exact Hgone|]. split; [exact Hpending|].
  split; [exact Hticks|]. split; [split; reflexivity|].
  split; simpl.
  - apply NoDup_handles_filter, W1.
  - intros x Hx. apply filter_In in Hx. apply W2, Hx.
  - exact W3.
  - fold (clearTimer (timer_handle t) s). unfold setPeekIndex.
    change (peekTimeouts (set_peek None (peekCleanup (clearTimer (timer_handle t) s))
                            (clearTimer (timer_handle t) s)))
      with (peekTimeouts (clearTimer (timer_handle t) s)).
    rewrite Hgone. intros x [].
  - exact W5.
  - intros h x Hh Hx.
    change (In x (tickTimers (clearTimer (timer_handle t) s))) in Hx.
    rewrite Hticks in Hx. now apply (W6 h x Hh).
  - change (peek_parts (seen_peekIndex (seen c)) (peekCleanup s)
              (peekTimeouts (clearTimer (timer_handle t) s))).
    rewrite Hgone. unfold peek_parts in *.
    destruct (seen_peekIndex (seen c)), (peekCleanup s); try contradiction.
    + now left.
    + rewrite Hpending in W7. discriminate.
Qed.

(** The callback of an interval runs: it writes [elapsed] and stays in
    the table, due a tick later. *)
Lemma fireTimer_tick (now : Z) (t : Timer) (c : Component) :
  wf_state c -> In t (timers (state c)) ->
  timer_callback t = ElapsedTick -> timer_due t <= now ->
  let s' := fireTimer now (timer_handle t) (state c) in
  elapsed s'
  = PrimFloat.div (number_of_Z (now - startTimeRef (state c))) 1000 /\
  isTiming s' = isTiming (state c) /\
  startTimeRef s' = startTimeRef (state c) /\
  timerIntervalRef s' = timerIntervalRef (state c) /\
  blackedOutCount s' = blackedOutCount (state c) /\
  peekIndex s' = peekIndex (state c) /\
  peekCleanup s' = peekCleanup (state c) /\
  peekTimeouts s' = peekTimeouts (state c) /\
  tickTimers s'
  = tickTimer (timer_handle t) (now + 100)
    :: filter (not_handle (timer_handle t)) (tickTimers (state c)) /\
  wf_state {| state := s'; seen := seen c |}.
Proof.
  intros W Hin Hcb Hdue. pose proof W as [W1 W2 W3 W4 W5 W6 W7].
  cbv zeta. set (s := state c) in *.
  unfold fireTimer. fold s. rewrite (find_handle _ _ W1 Hin).
  destruct (Z.leb_spec (timer_due t) now); [|lia]. rewrite Hcb.
  assert (Hkind : is_peek_timer t = false)
    by (unfold is_peek_timer; now rewrite Hcb).
  assert (Hpeek : peekTimeouts (clearTimer (timer_handle t) s)
                  = peekTimeouts s).
  { rewrite peekTimeouts_clearTimer. apply filter_not_handle_all.
    intros x Hx. apply peekTimeouts_In in Hx. destruct Hx as [Hx Hxk].
    apply (other_kind_handle (timers s) t x W1 Hin Hx).
    rewrite Hkind, Hxk. discriminate. }
  assert (Hpeek' :
            filter is_peek_timer
              (filter (fun x => negb (timer_handle x =? timer_handle t))
                 (timers s)) = peekTimeouts s) by exact Hpeek.
  assert (Hticks :
            filter (fun x => negb (is_peek_timer x))
              (filter (fun x => negb (timer_handle x =? timer_handle t))
                 (timers s))
            = filter (not_handle (timer_handle t)) (tickTimers s))
    by apply (tickTimers_clearTimer (timer_handle t) s).
  repeat (split; [reflexivity|]).
  split; [unfold peekTimeouts, tick; simpl; exact Hpeek'|].
  split; [unfold tickTimers, tick; simpl; now rewrite Hticks|].
  split; unfold peekTimeouts, tickTimers, tick; simpl;
    rewrite ?Hpeek', ?Hticks.
  - constructor; [|apply NoDup_handles_filter, W1].
    apply (not_handle_absent (timer_handle t)).
  - intros x [<-|Hx]; simpl.
    + apply W2, Hin.
    + apply filter_In in Hx. apply W2, Hx.
  - exact W3.
  - exact W4.
  - exact W5.
  - intros h x Hh [<-|Hx]; simpl.
    + apply (W6 h t Hh). apply tickTimers_In. now split.
    + apply filter_In in Hx. now apply (W6 h x Hh).
  - exact W7.
Qed.

(** A run of a timer callback, whichever it is. *)
Lemma fireTimer_cases (now h : Z) (c : Component) :
  fireTimer now h (state c) = state c \/
  exists t, In t (timers (state c)) /\ timer_handle t = h /\
            timer_due t <= now.
Proof.
  unfold fireTimer.
  destruct (find _ (timers (state c))) as [t|] eqn:Hfind; [|now left].
  apply find_some in Hfind. destruct Hfind as [Hin Hh].
  apply Z.eqb_eq in Hh.
  destruct (Z.leb_spec (timer_due t) now) as [Hdue|_]; [|now left].
  right. now exists t.
Qed.

Lemma wf_fireTimer (now h : Z) (c : Component) :
  wf_state c -> wf_state {| state := fireTimer now h (state c); seen := seen c |}.
Proof.
  intros W. destruct (fireTimer_cases now h c) as [->|(t & Hin & <- & Hdue)].
  - now destruct c.
  - destruct (timer_callback t) eqn:Hcb.
    + apply (fireTimer_expiry now t c W Hin Hcb Hdue).
    + apply (fireTimer_tick now t c W Hin Hcb Hdue).
Qed.

(** *** A render *)

(** The cleanup of the effect clears the pending peek timeout, if there
    is one, and nothing else. *)
Lemma cleanup_clears (c : Component) :
  wf_state c ->
  let s := state c in
  let s1 := match peekCleanup s with
            | Some timer => clearTimer timer s
            | None => s
            end in
  peekTimeouts s1 = [] /\ tickTimers s1 = tickTimers s /\
  (forall t, In t (timers s1) -> In t (timers s)) /\
  NoDup (map timer_handle (timers s1)) /\
  nextHandle s1 = nextHandle s /\ timerIntervalRef s1 = timerIntervalRef s /\
  peekIndex s1 = peekIndex s /\ same_outside_peek s s1.
Proof.
  intros [W1 W2 W3 W4 W5 W6 W7]. cbv zeta. set (s := state c) in *.
  unfold peek_parts in W7.
  destruct (peekCleanup s) as [h|] eqn:Hc.
  - split; [|split; [|split; [|split]]].
    + rewrite peekTimeouts_clearTimer.
      destruct (seen_peekIndex (seen c)); [|contradiction].
      destruct W7 as [->|(t & -> & Hh)]; [reflexivity|].
      simpl. unfold not_handle. now rewrite Hh, Z.eqb_refl.
    + rewrite tickTimers_clearTimer. apply filter_not_handle_all.
      intros t Ht. now apply (W6 h t).
    + intros t Ht. now apply filter_In in Ht.
    + apply NoDup_handles_filter, W1.
    + repeat split.
  - split; [|now repeat split].
    now destruct (seen_peekIndex (seen c)).
Qed.

(** What a render does to the timers: nothing when the peeked word is
    the one the previous render saw; otherwise the pending peek timeout
    is gone and, when a word is peeked, one new timeout is pending, due
    600 ms after the render. *)
Lemma commit_peek (now : Z) (c : Component) :
  wf_state c ->
  let s := state c in
  let s' := commit now (seen c) s in
  wf_state {| state := s'; seen := render s' |} /\
  tickTimers s' = tickTimers s /\
  (if option_Z_eqb (seen_peekIndex (seen c)) (peekIndex s)
   then s' = s
   else peekTimeouts s'
        = match peekIndex s with
          | Some _ => [peekTimeout (nextHandle s) (now + 600)]
          | None => []
          end /\
        forall t0, In t0 (peekTimeouts s) -> ~ In t0 (timers s')).
Proof.
  intros W. pose proof W as [W1 W2 W3 W4 W5 W6 W7]. cbv zeta.
  set (s := state c) in *. unfold commit.
  destruct (option_Z_eqb (seen_peekIndex (seen c)) (peekIndex s)) eqn:Heq.
  - apply option_Z_eqb_eq in Heq.
    split; [|now split]. split; simpl; try assumption.
    now rewrite <- Heq.
  - destruct (cleanup_clears c W)
      as (Hnil & Hticks & Hsub & Hnd & Hnext & Href & Hidx & _).
    fold s in Hnil, Hticks, Hsub, Hnd, Hnext, Href, Hidx.
    unfold peekEffect.
    set (s1 := match peekCleanup s with
               | Some timer => clearTimer timer s
               | None => s
               end) in *.
    assert (Hnil' : filter is_peek_timer (timers s1) = []) by exact Hnil.
    assert (Hticks' : filter (fun t => negb (is_peek_timer t)) (timers s1)
                      = tickTimers s) by exact Hticks.
    rewrite Hidx. destruct (peekIndex s) as [j|] eqn:Hj.
    + (* a word is peeked: the body arms its timeout *)
      simpl. rewrite Hnext.
      split; [|split; [|split]].
      * split; unfold peekTimeouts, tickTimers; simpl;
          rewrite ?Hnil', ?Hticks', ?Hnext, ?Href.
        -- constructor; [|exact Hnd].
           intros Hin. apply in_map_iff in Hin.
           destruct Hin as (t & Ht & Hin).
           specialize (W2 t (Hsub t Hin)). lia.
        -- intros t [<-|Hin]; simpl; [lia|].
           specialize (W2 t (Hsub t Hin)). lia.
        -- lia.
        -- intros t [<-|[]]. simpl. lia.
        -- intros h Hh. injection Hh as <-. lia.
        -- intros h t Hh Ht. injection Hh as <-.
           apply tickTimers_In in Ht. specialize (W2 t (proj1 Ht)). lia.
        -- rewrite Hidx. right. eexists. split; reflexivity.
      * unfold tickTimers. simpl. exact Hticks'.
      * unfold peekTimeouts. simpl. now rewrite Hnil'.
      * intros t0 Ht0 [<-|Hin].
        -- apply peekTimeouts_In in Ht0. specialize (W2 _ (proj1 Ht0)).
           simpl in W2. lia.
        -- apply peekTimeouts_In in Ht0.
           assert (Hp : In t0 (peekTimeouts s1))
             by (apply peekTimeouts_In; tauto).
           rewrite Hnil in Hp. destruct Hp.
    + (* no word is peeked *)
      simpl.
      split; [|split; [|split]].
      * split; unfold peekTimeouts, tickTimers; simpl;
          rewrite ?Hnil', ?Hticks', ?Hnext, ?Href.
        -- exact Hnd.
        -- intros t Hin. apply W2, Hsub, Hin.
        -- exact W3.
        -- intros t [].
        -- discriminate.
        -- discriminate.
        -- reflexivity.
      * exact Hticks.
      * exact Hnil.
      * intros t0 Ht0 Hin. apply peekTimeouts_In in Ht0.
        assert (Hp : In t0 (peekTimeouts s1))
          by (apply peekTimeouts_In; tauto).
        rewrite Hnil in Hp. destruct Hp.
Qed.

Lemma wf_handle (content : jsstring) (now : Z) (ev : Event) (c : Component) :
  wf_state c -> wf_state (handle content now ev c).
Proof.
  intros W. destruct ev as [idx| | |confirmed| |h|]; simpl.
  - apply wf_onClick, W.
  - unfold nextStep. destruct (_ <? _); now apply wf_same_timers.
  - unfold prevStep. destruct (_ <? _); now apply wf_same_timers.
  - unfold reset. destruct confirmed; now apply wf_same_timers.
  - apply (toggleTimer_peek now c W).
  - apply wf_fireTimer, W.
  - apply (commit_peek now c W).
Qed.

Lemma wf_run (content : jsstring) (evs : list (Z * Event)) (c : Component) :
  wf_state c -> wf_state (run content evs c).
Proof.
  apply (run_invariant content wf_state). intros now ev c'.
  apply wf_handle.
Qed.

Lemma wf_turns (content : jsstring) (evs : list (Z * Event)) (c : Component) :
  wf_state c -> wf_state (turns content evs c).
Proof. rewrite turns_run. apply wf_run. Qed.

Lemma Event_eq_Rerender (ev : Event) : {ev = Rerender} + {ev <> Rerender}.
Proof. destruct ev; (now left) || (right; discriminate). Qed.

(** *** What an event does to the peek *)

(** Between two renders: an event leaves the pending peek timeout, and
    unless it is a click it leaves the peeked word, or else it is the
    run of the pending peek timeout, which was due, and no word is
    peeked. *)
Lemma handle_peek (content : jsstring) (now : Z) (ev : Event) (c : Component) :
  wf_state c -> ev <> Rerender ->
  let s := state c in
  let s' := state (handle content now ev c) in
  (peekTimeouts s' = peekTimeouts s /\
   (is_click ev = false -> peekIndex s' = peekIndex s)) \/
  (exists t, ev = TimerFires (timer_handle t) /\ peekTimeouts s = [t] /\
             timer_due t <= now /\
             peekIndex s' = None /\ peekTimeouts s' = []).
Proof.
  intros W Hev. cbv zeta.
  destruct ev as [idx| | |confirmed| |h|]; simpl; try contradiction.
  - left. split; [|discriminate]. unfold onClick.
    now destruct (isWordBlackedOut _ _ idx).
  - left. unfold nextStep. now destruct (_ <? _).
  - left. unfold prevStep. now destruct (_ <? _).
  - left. now destruct confirmed.
  - left. destruct (toggleTimer_peek now c W) as (_ & H1 & _ & H2).
    now split.
  - destruct (fireTimer_cases now h c) as [->|(t & Hin & <- & Hdue)];
      [now left|].
    destruct (timer_callback t) eqn:Hcb.
    + right. exists t.
      destruct (fireTimer_expiry now t c W Hin Hcb Hdue)
        as (H1 & H2 & H3 & _).
      repeat split; assumption.
    + left.
      destruct (fireTimer_tick now t c W Hin Hcb Hdue)
        as (_ & _ & _ & _ & _ & H1 & _ & H2 & _).
      now split.
Qed.

(** A click on a word that its render shows blacked out makes it the
    peeked word; any other click does nothing. *)
Lemma onClick_peekIndex (content : jsstring) (seen : Render) (idx : Z)
  (s : State) :
  (isWordBlackedOut (wordIndices (words content))
     (seen_blackedOutCount seen) idx = true /\
   onClick content seen idx s = setPeekIndex (Some idx) s) \/
  (isWordBlackedOut (wordIndices (words content))
     (seen_blackedOutCount seen) idx = false /\
   onClick content seen idx s = s).
Proof.
  unfold onClick. destruct (isWordBlackedOut _ _ idx); [left|right];
    now split.
Qed.

(** *** Runs in which every call is rendered before the next *)

Lemma in_order_mount (content : jsstring) (firstHandle : positive) :
  in_order content (mount firstHandle).
Proof.
  split.
  - apply wf_mount.
  - reflexivity.
  - simpl. pose proof (totalWords_nonneg (wordIndices (words content))). lia.
  - reflexivity.
  - reflexivity.
Qed.

(** The stopwatch and the window still agree after an event of such a
    run. *)
Lemma handle_stopwatch_in_order (content : jsstring) (now : Z) (ev : Event)
  (c : Component) :
  wf_state c -> settled c -> wf_stopwatch (state c) ->
  wf_stopwatch (state (handle content now ev c)).
Proof.
  intros W Hs SW. pose proof W as [W1 W2 W3 W4 W5 W6 W7].
  unfold wf_stopwatch in *.
  destruct ev as [idx| | |confirmed| |h|]; simpl.
  - unfold onClick. now destruct (isWordBlackedOut _ _ idx).
  - unfold nextStep. now destruct (_ <? _).
  - unfold prevStep. now destruct (_ <? _).
  - now destruct confirmed.
  - unfold toggleTimer. rewrite Hs. simpl.
    destruct (isTiming (state c)) eqn:Hrun.
    + destruct SW as (due & SW).
      change (tickTimers (clearTimer (timerIntervalRef (state c)) (state c))
              = []).
      rewrite tickTimers_clearTimer, SW. simpl. unfold not_handle.
      now rewrite Z.eqb_refl.
    + simpl. unfold tickTimers in *. simpl. rewrite SW.
      now exists (now + 100).
  - destruct (fireTimer_cases now h c) as [->|(t & Hin & <- & Hdue)];
      [exact SW|].
    destruct (timer_callback t) eqn:Hcb.
    + destruct (fireTimer_expiry now t c W Hin Hcb Hdue)
        as (_ & _ & _ & Hticks & [_ Hrun _ _ Href] & _).
      now rewrite Hrun, Href, Hticks.
    + destruct (fireTimer_tick now t c W Hin Hcb Hdue)
        as (_ & Hrun & _ & Href & _ & _ & _ & _ & Hticks & _).
      rewrite Hrun, Href, Hticks.
      assert (Ht : In t (tickTimers (state c)))
        by (apply tickTimers_In; now split).
      destruct (isTiming (state c)).
      * destruct SW as (due & SW). rewrite SW in Ht |- *.
        destruct Ht as [<-|[]]. simpl. unfold not_handle.
        rewrite Z.eqb_refl. simpl. now exists (now + 100).
      * rewrite SW in Ht. destruct Ht.
  - destruct (commit_peek now c W) as (_ & Hticks & _).
    destruct (commit_frame now (seen c) (state c)) as [_ Hrun _ _ Href].
    now rewrite Hrun, Href, Hticks.
Qed.

Lemma in_order_turn (content : jsstring) (now : Z) (ev : Event)
  (c : Component) :
  in_order content c -> in_order content (turn content now ev c).
Proof.
  intros [W Hs Hr SW Hp].
  assert (W1 : wf_state (handle content now ev c)) by now apply wf_handle.
  split.
  - now apply wf_handle.
  - apply settled_turn.
  - now apply turn_blackedOutCount_range.
  - unfold turn.
    destruct (commit_peek now (handle content now ev c) W1)
      as (_ & Hticks & _).
    destruct (commit_frame now (seen (handle content now ev c))
                (state (handle content now ev c))) as [_ Hrun _ _ Href].
    unfold wf_stopwatch. simpl. rewrite Hrun, Href, Hticks.
    now apply handle_stopwatch_in_order.
  - unfold turn.
    destruct (commit_peek now (handle content now ev c) W1)
      as (_ & _ & Hpeek).
    simpl. rewrite commit_peekIndex.
    destruct (option_Z_eqb (seen_peekIndex (seen (handle content now ev c)))
                (peekIndex (state (handle content now ev c)))) eqn:Heq.
    + (* the render finds the peeked word it saw before *)
      rewrite Hpeek. apply option_Z_eqb_eq in Heq.
      destruct (Event_eq_Rerender ev) as [->|Hev].
      * simpl. destruct (commit_peek now c W) as (_ & _ & Hsame).
        rewrite Hs in Hsame. simpl in Hsame.
        assert (Hrefl : option_Z_eqb (peekIndex (state c))
                          (peekIndex (state c)) = true)
          by now apply option_Z_eqb_eq.
        rewrite Hrefl in Hsame. rewrite Hs. simpl. now rewrite Hsame.
      * assert (Hseen : seen (handle content now ev c) = seen c)
          by (destruct ev; try reflexivity; contradiction).
        rewrite Hseen, Hs in Heq. simpl in Heq.
        destruct (handle_peek content now ev c W Hev)
          as [[Hsame _]|(t & _ & Hone & _ & Hnone & _)].
        -- rewrite Hsame, <- Heq. exact Hp.
        -- rewrite Hnone in Heq. rewrite Heq, Hone in Hp. discriminate.
    + destruct Hpeek as [-> _].
      destruct (peekIndex (state (handle content now ev c)));
        [eexists|]; reflexivity.
Qed.

Lemma in_order_turns (content : jsstring) (evs : list (Z * Event))
  (firstHandle : positive) :
  in_order content (turns content evs (mount firstHandle)).
Proof.
  apply (turns_invariant content (in_order content)).
  - intros now ev c. apply in_order_turn.
  - apply in_order_mount.
Qed.





End TimerFacts.
Module PeekSpec.

Import JsString Memorizer Vocabulary ArrayFacts StateFacts TimerFacts.

(** With two words blacked out: a click on "Hello" (token 0) at 1000 ms
    arms handle 1 for 1600 ms; a click on "world" (token 2) at 1200 ms
    replaces it by handle 2 for 1800 ms. *)
Example peek_then_other_word :
  let c := turns hello_world_foo
             [(1000, ClickWord 0); (1200, ClickWord 2)] two_hidden in
  peekIndex (state c) = Some 2 /\ timers (state c) = [peekTimeout 2 1800].
Proof. split; reflexivity. Qed.

(** A click on the visible word "foo" (token 4) is ignored. *)
Example peek_visible_word_ignored :
  handle hello_world_foo 1000 (ClickWord 4) two_hidden = two_hidden.
Proof. reflexivity. Qed.




(** C10.  In every state, a click on a word changes at most the peek,
    whatever render the handler comes from: [blackedOutCount],
    [isTiming], [elapsed], [startTimeRef], [timerIntervalRef] and the
    window's timers are as before (the tokens are a function of the
    script alone), so [isWordBlackedOut] answers as before for every
    token, and a blacked-out word that is now peeked still counts as
    blacked out; a click on a word that the render shows visible changes
    nothing at all.  The render that follows leaves the same fields as
    they are, and in the states of a run the stopwatch's interval in the
    window is untouched by the click and by that render. *)
Theorem onClick_changes_only_peek (content : jsstring) (now idx : Z) :
  (forall (seen : Render) (s : State),
     let s' := onClick content seen idx s in
     let shown := commit now seen s' in
     blackedOutCount s' = blackedOutCount s /\
     isTiming s' = isTiming s /\
     elapsed s' = elapsed s /\
     startTimeRef s' = startTimeRef s /\
     timerIntervalRef s' = timerIntervalRef s /\
     timers s' = timers s /\
     (forall i,
        isWordBlackedOut (wordIndices (words content)) (blackedOutCount s') i
        = isWordBlackedOut (wordIndices (words content)) (blackedOutCount s) i) /\
     (if isWordBlackedOut (wordIndices (words content))
           (seen_blackedOutCount seen) idx
      then isPeeking s' idx = true /\
           isPeeking shown idx = true /\
           (seen_blackedOutCount seen = blackedOutCount s ->
            isWordBlackedOut (wordIndices (words content))
              (blackedOutCount s') idx = true /\
            isWordBlackedOut (wordIndices (words content))
              (blackedOutCount shown) idx = true)
      else s' = s /\ (seen_peekIndex seen = peekIndex s -> shown = s)) /\
     same_outside_peek s shown) /\
  (forall (firstHandle : positive) (evs : list (Z * Event)),
     let c := run content evs (mount firstHandle) in
     let c1 := handle content now (ClickWord idx) c in
     tickTimers (state c1) = tickTimers (state c) /\
     tickTimers (state (handle content now Rerender c1))
     = tickTimers (state c)).
Proof.
  split.
  - intros seen s s' shown.
    destruct (onClick_frame content seen idx s) as [H1 H2 H3 H4 H5].
    fold s' in H1, H2, H3, H4, H5.
    destruct (commit_frame now seen s') as [G1 G2 G3 G4 G5].
    fold shown in G1, G2, G3, G4, G5.
    assert (Ht : timers s' = timers s).
    { unfold s', onClick. destruct (isWordBlackedOut _ _ idx); reflexivity. }
    repeat (split; [assumption|]).
    split; [intros i; rewrite H1; reflexivity|].
    split; [|constructor; congruence].
    destruct (isWordBlackedOut _ (seen_blackedOutCount seen) idx) eqn:Hb.
    + assert (Hidx : peekIndex s' = Some idx).
      { unfold s', onClick. rewrite Hb. reflexivity. }
      split; [apply isPeeking_iff, Hidx|].
      split.
      { apply isPeeking_iff. unfold shown. rewrite commit_peekIndex.
        exact Hidx. }
      intros Hseen. rewrite G1, H1, <- Hseen. split; exact Hb.
    + assert (Hs : s' = s) by (unfold s', onClick; rewrite Hb; reflexivity).
      split; [exact Hs|]. intros Hseen. unfold shown, commit.
      rewrite Hs, Hseen, (proj2 (option_Z_eqb_eq _ _) eq_refl).
      reflexivity.
  - intros firstHandle evs c c1.
    assert (W : wf_state c) by (apply wf_run, wf_mount).
    assert (W1 : wf_state c1) by (apply wf_handle, W).
    assert (H1 : tickTimers (state c1) = tickTimers (state c)).
    { unfold c1. cbn [handle state]. unfold onClick.
      destruct (isWordBlackedOut _ _ idx); reflexivity. }
    split; [exact H1|].
    destruct (commit_peek now c1 W1) as (_ & H & _). cbv zeta in H.
    cbn [handle state]. rewrite H. exact H1.
Qed.

End PeekSpec.
(** ** The stopwatch and its interval *)

Module StopwatchFacts.

Import JsString JsNumber Memorizer Vocabulary StateFacts TimerFacts.

Lemma filter_idem {A : Type} (p : A -> bool) (l : list A) :
  filter p (filter p l) = filter p l.
Proof.
  apply filter_all. intros x Hx. apply filter_In in Hx. apply Hx.
Qed.

(** The Stop branch, taken by the handler of a render that saw the
    stopwatch running: the clock is not read. *)
Lemma toggleTimer_stop (seen : Render) (now : Z) (s : State) :
  seen_isTiming seen = true ->
  let s' := toggleTimer seen now s in
  isTiming s' = false /\ elapsed s' = elapsed s /\
  startTimeRef s' = startTimeRef s /\
  timerIntervalRef s' = timerIntervalRef s /\
  timers s' = filter (not_handle (timerIntervalRef s)) (timers s).
Proof.
  intros Hseen. unfold toggleTimer. rewrite Hseen. repeat split.
Qed.

(** The Start branch. *)
Lemma toggleTimer_start (seen : Render) (now : Z) (s : State) :
  seen_isTiming seen = false ->
  let s' := toggleTimer seen now s in
  isTiming s' = true /\ elapsed s' = 0%float /\
  startTimeRef s' = now /\ timerIntervalRef s' = nextHandle s /\
  timers s' = tickTimer (nextHandle s) (now + 100) :: timers s.
Proof.
  intros Hseen. unfold toggleTimer. rewrite Hseen. repeat split.
Qed.

(** An event that is neither the button nor a run of an interval
    callback leaves the stopwatch as it is. *)
Lemma handle_untouched (content : jsstring) (now : Z) (ev : Event)
  (c : Component) :
  writes_stopwatch (state c) ev = false ->
  let s' := state (handle content now ev c) in
  isTiming s' = isTiming (state c) /\ elapsed s' = elapsed (state c) /\
  startTimeRef s' = startTimeRef (state c) /\
  timerIntervalRef s' = timerIntervalRef (state c).
Proof.
  intros Hev. destruct ev as [idx| | |confirmed| |h|]; cbn [handle state].
  - destruct (onClick_frame content (seen c) idx (state c)).
    repeat split; assumption.
  - unfold nextStep. destruct (_ <? _); repeat split.
  - unfold prevStep. destruct (_ <? _); repeat split.
  - unfold reset. destruct confirmed; repeat split.
  - discriminate.
  - unfold writes_stopwatch in Hev. unfold fireTimer.
    destruct (find _ (timers (state c))) as [t|]; [|repeat split].
    destruct (timer_due t <=? now); [|repeat split].
    unfold is_peek_timer in Hev.
    destruct (timer_callback t); [repeat split | discriminate].
  - destruct (commit_frame now (seen c) (state c)).
    repeat split; assumption.
Qed.

Lemma run_untouched (content : jsstring) (evs : list (Z * Event)) :
  forall c,
    stopwatch_untouched content evs c ->
    let s' := state (run content evs c) in
    isTiming s' = isTiming (state c) /\ elapsed s' = elapsed (state c) /\
    startTimeRef s' = startTimeRef (state c) /\
    timerIntervalRef s' = timerIntervalRef (state c).
Proof.
  induction evs as [|[now ev] evs IH]; intros c Hq; [repeat split|].
  destruct Hq as [Hev Hq]. cbn [fst snd] in *. rewrite run_first.
  destruct (handle_untouched content now ev c Hev) as (H1 & H2 & H3 & H4).
  destruct (IH _ Hq) as (I1 & I2 & I3 & I4). cbn [fst snd] in *.
  repeat split; congruence.
Qed.

(** The reading that a stop freezes after a tick at [t] and events that
    leave the stopwatch alone. *)
Lemma stop_after_tick (content : jsstring) (c : Component) (tm : Timer)
  (t now : Z) (later : list (Z * Event)) :
  wf_state c ->
  In tm (timers (state c)) -> timer_callback tm = ElapsedTick ->
  timer_due tm <= t ->
  let c1 := handle content t (TimerFires (timer_handle tm)) c in
  stopwatch_untouched content later c1 ->
  let c2 := run content later c1 in
  seen_isTiming (seen c2) = true ->
  let s' := state (handle content now ToggleTimer c2) in
  isTiming s' = false /\
  elapsed s' = PrimFloat.div (number_of_Z (t - startTimeRef (state c))) 1000.
Proof.
  intros W Hin Hcb Hdue c1 Hq c2 Hseen s'.
  destruct (fireTimer_tick t tm c W Hin Hcb Hdue) as (H1 & _ & H3 & _).
  destruct (run_untouched content later c1 Hq) as (_ & I2 & _).
  destruct (toggleTimer_stop (seen c2) now (state c2) Hseen)
    as (T1 & T2 & _).
  split; [exact T1|]. unfold s'. cbn [handle state]. rewrite T2.
  fold c2 in I2. rewrite I2. exact H1.
Qed.

(** The reading that a stop freezes after a start and events that leave
    the stopwatch alone. *)
Lemma stop_after_start (content : jsstring) (c : Component) (t0 now : Z)
  (later : list (Z * Event)) :
  seen_isTiming (seen c) = false ->
  let c1 := handle content t0 ToggleTimer c in
  stopwatch_untouched content later c1 ->
  let c2 := run content later c1 in
  seen_isTiming (seen c2) = true ->
  let s' := state (handle content now ToggleTimer c2) in
  isTiming s' = false /\ elapsed s' = 0%float.
Proof.
  intros Hoff c1 Hq c2 Hseen s'.
  destruct (toggleTimer_start (seen c) t0 (state c) Hoff) as (_ & S2 & _).
  destruct (run_untouched content later c1 Hq) as (_ & I2 & _).
  destruct (toggleTimer_stop (seen c2) now (state c2) Hseen)
    as (T1 & T2 & _).
  split; [exact T1|]. unfold s'. cbn [handle state]. rewrite T2.
  fold c2 in I2. rewrite I2. exact S2.
Qed.

End StopwatchFacts.

Module StopwatchSpec.

Import JsString JsNumber Memorizer Vocabulary StateFacts TimerFacts
  StopwatchFacts.

Example ticked_twice_running :
  isTiming (state ticked_twice) = true /\
  startTimeRef (state ticked_twice) = 1000 /\
  elapsed (state ticked_twice) = PrimFloat.div 200 1000.
Proof. repeat split. Qed.

(** A second start sets [elapsed] back to [0]. *)
Example restart_resets :
  elapsed
    (state (turns [] [(1250, ToggleTimer); (5000, ToggleTimer)] ticked_twice))
  = 0%float.
Proof. reflexivity. Qed.

(** C3 as stated fails: after ticks at 1100 ms and 1200 ms, stopping at
    1250 ms leaves [elapsed] at the reading of the last tick, 200 / 1000,
    and not at (1250 - 1000) / 1000. *)
Lemma stop_keeps_last_tick_reading :
  let stopped := state (turn [] 1250 ToggleTimer ticked_twice) in
  isTiming (state ticked_twice) = true /\
  isTiming stopped = false /\
  elapsed stopped = PrimFloat.div 200 1000 /\
  elapsed stopped <>
  PrimFloat.div (number_of_Z (1250 - startTimeRef (state ticked_twice))) 1000.
Proof.
  cbv zeta. repeat split. intros H. apply (f_equal Prim2SF) in H.
  vm_compute in H. discriminate H.
Qed.

(** C3, amended.  Stopping does not read the clock.  The Stop branch of
    [toggleTimer], taken by the handler of a render that saw the
    stopwatch running, sets [isTiming] to [false], clears the interval
    whose handle [timerIntervalRef] holds and leaves [elapsed] and
    [startTimeRef] as they are, in every state and at every time [now].
    So along every run the frozen value is the reading of the latest
    interval callback: when an interval callback last ran at time [t],
    and whatever happened before the stop that did not write the
    stopwatch, the frozen value is [(t - startTimeRef) / 1000] for every
    stop time [now]; when none ran between start and stop, it is [0]. *)
Theorem toggleTimer_stop_freezes_last_reading (content : jsstring)
  (firstHandle : positive) (evs : list (Z * Event)) :
  let c := run content evs (mount firstHandle) in
  (forall (seen : Render) (now : Z) (s : State),
     seen_isTiming seen = true ->
     let s' := toggleTimer seen now s in
     isTiming s' = false /\ elapsed s' = elapsed s /\
     startTimeRef s' = startTimeRef s /\
     timers s' = filter (not_handle (timerIntervalRef s)) (timers s)) /\
  (forall tm t later now,
     In tm (timers (state c)) -> timer_callback tm = ElapsedTick ->
     timer_due tm <= t ->
     let c1 := handle content t (TimerFires (timer_handle tm)) c in
     stopwatch_untouched content later c1 ->
     let c2 := run content later c1 in
     seen_isTiming (seen c2) = true ->
     let stopped := state (handle content now ToggleTimer c2) in
     isTiming stopped = false /\
     elapsed stopped
     = PrimFloat.div (number_of_Z (t - startTimeRef (state c))) 1000) /\
  (forall t0 later now,
     seen_isTiming (seen c) = false ->
     let c1 := handle content t0 ToggleTimer c in
     stopwatch_untouched content later c1 ->
     let c2 := run content later c1 in
     seen_isTiming (seen c2) = true ->
     let stopped := state (handle content now ToggleTimer c2) in
     isTiming stopped = false /\ elapsed stopped = 0%float).
Proof.
  intros c.
  assert (W : wf_state c) by (apply wf_run, wf_mount).
  split; [|split].
  - intros seen now s Hseen s'.
    destruct (toggleTimer_stop seen now s Hseen) as (H1 & H2 & H3 & _ & H5).
    repeat split; assumption.
  - intros tm t later now Hin Hcb Hdue c1 Hq c2 Hseen.
    apply (stop_after_tick content c tm t now later W Hin Hcb Hdue Hq Hseen).
  - intros t0 later now Hoff c1 Hq c2 Hseen.
    apply (stop_after_start content c t0 now later Hoff Hq Hseen).
Qed.

Lemma toggleTimer_stop_freezes_last_reading_witness :
  let c := run [] [(1000, ToggleTimer); (1000, Rerender);
                   (1100, TimerFires 1); (1100, Rerender)] (mount 1) in
  (elapsed (toggleTimer (seen c) 1150 (state c)) = elapsed (state c)) /\
  (elapsed
     (state (run [] [(1200, TimerFires 1); (1200, Rerender);
                     (1210, NextStep); (98900, ToggleTimer)] c))
   = PrimFloat.div 200 1000) /\
  (elapsed
     (state (run [] [(1000, ToggleTimer); (1000, Rerender);
                     (1010, NextStep); (1050, ToggleTimer)] (mount 1)))
   = 0%float).
Proof.
  intros c.
  destruct (toggleTimer_stop_freezes_last_reading []
              1 [(1000, ToggleTimer); (1000, Rerender);
                 (1100, TimerFires 1); (1100, Rerender)])
    as (Hstop & Htick & _).
  destruct (toggleTimer_stop_freezes_last_reading [] 1 [])
    as (_ & _ & Hzero).
  split; [|split].
  - apply (Hstop (seen c) 1150 (state c) eq_refl).
  - apply (Htick (tickTimer 1 1200) 1200
             [(1200, Rerender); (1210, NextStep)] 98900).
    + left. reflexivity.
    + reflexivity.
    + simpl. lia.
    + repeat split.
    + reflexivity.
  - apply (Hzero 1000 [(1000, Rerender); (1010, NextStep)] 1050 eq_refl).
    + repeat split.
    + reflexivity.
Defined.

End StopwatchSpec.

(** * Further properties *)

(** ** The rendered words *)

Module ViewFacts.

Import JsString JsNumber Memorizer MemorizerView Vocabulary ViewVocabulary
  JsStringFacts ArrayFacts StateFacts TimerFacts.

(** A selection of word spans by a test that only looks at the token
    index selects the corresponding part of the word index. *)
Lemma wordSpans_keys_from (content : jsstring) (s : State)
  (f : WordSpan -> bool) (g : Z -> bool) (ws : list jsstring) (k : Z) :
  0 <= k ->
  (forall w idx,
     test_non_whitespace w = true ->
     exists sp, renderToken content s w idx = Word sp /\
                span_key sp = idx /\ f sp = g idx) ->
  map span_key
    (filter f (wordSpans (map_with_index (renderToken content s) k ws)))
  = filter g (wordIndices_from k ws).
Proof.
  intros Hk Hfg. revert k Hk.
  induction ws as [|w ws IH]; intros k Hk; [reflexivity|].
  rewrite wordIndices_from_cons by exact Hk. simpl.
  destruct (test_non_whitespace w) eqn:Hw.
  - destruct (Hfg w k Hw) as (sp & -> & Hkey & Hf). simpl.
    rewrite Hf. destruct (g k); simpl; rewrite ?Hkey, IH by lia; reflexivity.
  - unfold renderToken at 1. rewrite Hw. simpl. apply IH. lia.
Qed.

Lemma render_texts_from (content : jsstring) (s : State)
  (ws : list jsstring) (k : Z) :
  map spanText (map_with_index (renderToken content s) k ws) = ws.
Proof.
  revert k. induction ws as [|w ws IH]; intros k; [reflexivity|].
  simpl. rewrite IH. f_equal.
  unfold renderToken. destruct (test_non_whitespace w); reflexivity.
Qed.

Lemma render_keys_from (content : jsstring) (s : State)
  (ws : list jsstring) (k : Z) :
  map spanKey (map_with_index (renderToken content s) k ws)
  = map (fun i => k + Z.of_nat i) (seq 0 (List.length ws)).
Proof.
  revert k. induction ws as [|w ws IH]; intros k; [reflexivity|].
  simpl. rewrite IH. f_equal.
  - unfold renderToken. destruct (test_non_whitespace w); simpl; lia.
  - rewrite <- seq_shift, map_map. apply map_ext. intros i. lia.
Qed.

(** A test that holds exactly below rank [bc] selects the first [bc]
    elements. *)
Lemma filter_rank_firstn (p : Z -> bool) (l : list Z) (bc : Z) :
  (forall r x, nth_error l r = Some x -> p x = (Z.of_nat r <? bc)) ->
  filter p l = firstn (Z.to_nat bc) l.
Proof.
  revert bc. induction l as [|a l IH]; intros bc Hp.
  - now rewrite firstn_nil.
  - simpl. rewrite (Hp 0%nat a eq_refl).
    assert (Htl : filter p l = firstn (Z.to_nat (bc - 1)) l).
    { apply IH. intros r x Hr. rewrite (Hp (S r) x Hr).
      destruct (Z.ltb_spec (Z.of_nat (S r)) bc);
        destruct (Z.ltb_spec (Z.of_nat r) (bc - 1)); lia || reflexivity. }
    rewrite Htl. destruct (Z.ltb_spec (Z.of_nat 0) bc) as [Hlt|Hge].
    + replace (Z.to_nat bc) with (S (Z.to_nat (bc - 1))) by lia. reflexivity.
    + replace (Z.to_nat bc) with 0%nat by lia.
      replace (Z.to_nat (bc - 1)) with 0%nat by lia. reflexivity.
Qed.

Lemma filter_isWordBlackedOut (ws : list jsstring) (bc : Z) :
  filter (isWordBlackedOut (wordIndices ws) bc) (wordIndices ws)
  = firstn (Z.to_nat bc) (wordIndices ws).
Proof.
  apply filter_rank_firstn. intros r x Hr.
  now apply isWordBlackedOut_rank.
Qed.

Lemma filter_andb {A : Type} (p q : A -> bool) (l : list A) :
  filter (fun x => p x && q x) l = filter q (filter p l).
Proof.
  induction l as [|a l IH]; [reflexivity|]. simpl.
  destruct (p a); simpl; [destruct (q a)|]; now rewrite IH.
Qed.

(** Removing one value from a duplicate-free list. *)
Lemma filter_remove_length (l : list Z) (p : Z) :
  NoDup l ->
  Z.of_nat (List.length (filter (fun i => negb (p =? i)) l))
  = Z.of_nat (List.length l) - (if existsb (Z.eqb p) l then 1 else 0).
Proof.
  induction 1 as [|a l Ha Hl IH]; [reflexivity|].
  cbn [filter existsb List.length].
  destruct (Z.eqb_spec p a) as [->|Hne]; cbn [negb orb List.length].
  - rewrite filter_all; [lia|].
    intros x Hx. destruct (Z.eqb_spec a x) as [->|]; [contradiction|reflexivity].
  - rewrite Nat2Z.inj_succ, IH. destruct (existsb (Z.eqb p) l); lia.
Qed.

(** Selecting one value from a duplicate-free list. *)
Lemma filter_select (l : list Z) (p : Z) :
  NoDup l ->
  filter (fun i => p =? i) l = if existsb (Z.eqb p) l then [p] else [].
Proof.
  induction 1 as [|a l Ha Hl IH]; [reflexivity|].
  cbn [filter existsb].
  destruct (Z.eqb_spec p a) as [->|Hne]; cbn [orb].
  - f_equal. apply filter_none.
    intros x Hx. destruct (Z.eqb_spec a x) as [->|]; [contradiction|reflexivity].
  - exact IH.
Qed.

Lemma existsb_eqb_In (l : list Z) (p : Z) :
  existsb (Z.eqb p) l = true <-> In p l.
Proof.
  rewrite existsb_exists. split.
  - intros (x & Hx & Heq). apply Z.eqb_eq in Heq. now subst.
  - intros Hp. exists p. split; [exact Hp|apply Z.eqb_refl].
Qed.

(** A blacked-out token is a word token. *)
Lemma isWordBlackedOut_In (l : list Z) (bc x : Z) :
  isWordBlackedOut l bc x = true -> In x l.
Proof.
  intros Hb. destruct (in_dec Z.eq_dec x l) as [Hin|Hout]; [exact Hin|].
  rewrite (isWordBlackedOut_absent l bc x Hout) in Hb. discriminate.
Qed.

(** The members of the first [bc] word tokens are the blacked-out ones. *)
Lemma existsb_firstn_blacked (ws : list jsstring) (bc p : Z) :
  existsb (Z.eqb p) (firstn (Z.to_nat bc) (wordIndices ws))
  = isWordBlackedOut (wordIndices ws) bc p.
Proof.
  rewrite <- filter_isWordBlackedOut.
  apply eq_true_iff_eq. rewrite existsb_eqb_In, filter_In. split.
  - tauto.
  - intros Hb. split; [now apply isWordBlackedOut_In in Hb|exact Hb].
Qed.

(** The peeked token is a word token in every state of a run. *)
Lemma peek_is_word_handle (content : jsstring) (now : Z) (ev : Event)
  (c : Component) :
  peek_is_word content (state c) ->
  peek_is_word content (state (handle content now ev c)).
Proof.
  intros Hp. unfold peek_is_word in *.
  destruct ev as [idx| | |confirmed| |h|]; cbn [handle state].
  - destruct (onClick_peekIndex content (seen c) idx (state c))
      as [[Hb ->]|[_ ->]]; [|exact Hp].
    cbn [setPeekIndex set_peek peekIndex].
    now apply isWordBlackedOut_In in Hb.
  - unfold nextStep. now destruct (_ <? _).
  - unfold prevStep. now destruct (_ <? _).
  - unfold reset. now destruct confirmed.
  - unfold toggleTimer. now destruct (seen_isTiming (seen c)).
  - unfold fireTimer.
    destruct (find _ (timers (state c))) as [t|]; [|exact Hp].
    destruct (timer_due t <=? now); [|exact Hp].
    destruct (timer_callback t); [exact I | exact Hp].
  - rewrite commit_peekIndex. exact Hp.
Qed.

Lemma peek_is_word_run (content : jsstring) (evs : list (Z * Event))
  (firstHandle : positive) :
  peek_is_word content (state (run content evs (mount firstHandle))).
Proof.
  apply (run_invariant content (fun c => peek_is_word content (state c)));
    [|exact I].
  intros now ev c. apply peek_is_word_handle.
Qed.

End ViewFacts.

Module ViewSpec.

Import JsString JsNumber Memorizer MemorizerView Vocabulary ViewVocabulary
  JsStringFacts ArrayFacts StateFacts TimerFacts ViewFacts.

Section Rendering.

Variable content : jsstring.

(** How [renderToken] classifies a word token, by token index. *)
Lemma renderToken_word (s : State) (f : WordSpan -> bool) (g : Z -> bool) :
  (forall w idx,
     f {| span_key := idx; span_text := w;
          span_cursor :=
            if isWordBlackedOut (wordIndices (words content))
                 (blackedOutCount s) idx
            then "cursor-pointer select-none"%string else ""%string;
          span_tone :=
            if isWordBlackedOut (wordIndices (words content))
                 (blackedOutCount s) idx && negb (isPeeking s idx)
            then "bg-zinc-800 text-transparent"%string
            else if isPeeking s idx then "bg-zinc-800 text-zinc-400"%string
                 else "text-zinc-100"%string;
          span_overlay :=
            isWordBlackedOut (wordIndices (words content))
              (blackedOutCount s) idx && negb (isPeeking s idx) |} = g idx) ->
  map span_key (filter f (wordSpans (renderWords content s)))
  = filter g (wordIndices (words content)).
Proof.
  intros Hfg. unfold renderWords.
  apply (wordSpans_keys_from content s f g (words content) 0); [lia|].
  intros w idx Hw. unfold renderToken. rewrite Hw.
  eexists. split; [reflexivity|]. split; [reflexivity|]. apply Hfg.
Qed.

Lemma pointerKeys_filter (s : State) :
  pointerKeys (renderWords content s)
  = filter (isWordBlackedOut (wordIndices (words content)) (blackedOutCount s))
      (wordIndices (words content)).
Proof.
  apply renderToken_word. intros w idx. cbn [span_cursor].
  now destruct (isWordBlackedOut _ _ idx).
Qed.

Lemma concealedKeys_filter (s : State) :
  concealedKeys (renderWords content s)
  = filter (fun idx => negb (isPeeking s idx))
      (firstn (Z.to_nat (blackedOutCount s)) (wordIndices (words content))).
Proof.
  rewrite <- filter_isWordBlackedOut, <- filter_andb.
  apply renderToken_word. intros w idx. reflexivity.
Qed.

Lemma transparentKeys_filter (s : State) :
  transparentKeys (renderWords content s)
  = filter (fun idx => negb (isPeeking s idx))
      (firstn (Z.to_nat (blackedOutCount s)) (wordIndices (words content))).
Proof.
  rewrite <- filter_isWordBlackedOut, <- filter_andb.
  apply renderToken_word. intros w idx. unfold has_tone. cbn [span_tone].
  destruct (isWordBlackedOut _ _ idx), (isPeeking s idx); reflexivity.
Qed.

Lemma peekToneKeys_filter (s : State) :
  peekToneKeys (renderWords content s)
  = filter (isPeeking s) (wordIndices (words content)).
Proof.
  apply renderToken_word. intros w idx. unfold has_tone. cbn [span_tone].
  destruct (isWordBlackedOut _ _ idx), (isPeeking s idx); reflexivity.
Qed.

Lemma renderWords_keys (s : State) :
  map span_key (wordSpans (renderWords content s))
  = wordIndices (words content).
Proof.
  rewrite <- (filter_all (fun _ => true)
                (wordSpans (renderWords content s))) by reflexivity.
  rewrite (renderToken_word s (fun _ => true) (fun _ => true))
    by reflexivity.
  now apply filter_all.
Qed.

(** X1.  In every state the word area shows the whole script: one span
    per token of [words], keyed by the token's index, with the token as
    its text, so the texts of the spans read in order are the script;
    and the spans that carry the click handler are the word tokens. *)
Theorem renderWords_layout (s : State) :
  map spanText (renderWords content s) = words content /\
  concat (map spanText (renderWords content s)) = content /\
  map spanKey (renderWords content s)
  = map Z.of_nat (seq 0 (List.length (words content))) /\
  map span_key (wordSpans (renderWords content s))
  = wordIndices (words content).
Proof.
  assert (Htexts : map spanText (renderWords content s) = words content)
    by apply render_texts_from.
  rewrite Htexts. split; [reflexivity|].
  split; [apply split_whitespace_concat|]. split.
  - unfold renderWords. rewrite render_keys_from.
    apply map_ext. intros i. lia.
  - apply renderWords_keys.
Qed.

(** X2.  In every state the words under the overlay are the first
    [blackedOutCount] word tokens other than the peeked one, the words
    drawn transparent are the same ones, and the words with the pointer
    cursor are the first [blackedOutCount] word tokens, the peeked one
    included. *)
Theorem renderWords_concealed (s : State) :
  let hidden :=
    firstn (Z.to_nat (blackedOutCount s)) (wordIndices (words content)) in
  pointerKeys (renderWords content s) = hidden /\
  concealedKeys (renderWords content s)
  = filter (fun idx => negb (isPeeking s idx)) hidden /\
  transparentKeys (renderWords content s)
  = concealedKeys (renderWords content s).
Proof.
  cbv zeta. split; [|split].
  - rewrite pointerKeys_filter. apply filter_isWordBlackedOut.
  - apply concealedKeys_filter.
  - now rewrite transparentKeys_filter, concealedKeys_filter.
Qed.

Lemma firstn_length_clamped (l : list Z) (bc : Z) :
  Z.of_nat (List.length (firstn (Z.to_nat bc) l))
  = Z.min (Z.max 0 bc) (totalWords l).
Proof.
  unfold totalWords. rewrite length_firstn. lia.
Qed.

(** X3.  In every state the number of words under the overlay is the
    counter, kept to [0 .. totalWords], less one while a blacked-out
    word is peeked.  In a run from mount in which every call is rendered
    before the next, that is the counter shown in the footer, less one
    while a blacked-out word is peeked. *)
Theorem concealed_count (firstHandle : positive) (evs : list (Z * Event)) :
  let peeked (s : State) :=
    match peekIndex s with
    | Some idx =>
        if isWordBlackedOut (wordIndices (words content))
             (blackedOutCount s) idx
        then 1 else 0
    | None => 0
    end in
  (forall s : State,
     Z.of_nat (List.length (concealedKeys (renderWords content s)))
     = Z.min (Z.max 0 (blackedOutCount s))
         (totalWords (wordIndices (words content))) - peeked s) /\
  (let s := state (turns content evs (mount firstHandle)) in
   Z.of_nat (List.length (concealedKeys (renderWords content s)))
   = blackedOutCount s - peeked s).
Proof.
  cbv zeta.
  assert (Hall : forall s : State,
            Z.of_nat (List.length (concealedKeys (renderWords content s)))
            = Z.min (Z.max 0 (blackedOutCount s))
                (totalWords (wordIndices (words content)))
              - match peekIndex s with
                | Some idx =>
                    if isWordBlackedOut (wordIndices (words content))
                         (blackedOutCount s) idx
                    then 1 else 0
                | None => 0
                end).
  { intros s. rewrite concealedKeys_filter.
    pose proof (firstn_length_clamped (wordIndices (words content))
                  (blackedOutCount s)) as Hlen.
    destruct (peekIndex s) as [p|] eqn:Hpeek.
    - rewrite (filter_ext _ (fun i => negb (p =? i))).
      + rewrite filter_remove_length, Hlen, existsb_firstn_blacked.
        * reflexivity.
        * rewrite <- filter_isWordBlackedOut.
          apply NoDup_filter, wordIndices_NoDup.
      + intros i. unfold isPeeking. now rewrite Hpeek.
    - rewrite filter_all; [lia|].
      intros i _. unfold isPeeking. now rewrite Hpeek. }
  split; [exact Hall|].
  rewrite Hall.
  pose proof (turns_blackedOutCount_range content evs firstHandle) as Hrange.
  f_equal. lia.
Qed.

(** X4.  In every state of a run from mount, the peek tone is on the span
    of the peeked token and on no other span: one word while a peek
    lasts, none otherwise. *)
Theorem peek_tone_unique (firstHandle : positive) (evs : list (Z * Event)) :
  let s := state (run content evs (mount firstHandle)) in
  peekToneKeys (renderWords content s)
  = match peekIndex s with
    | Some idx => [idx]
    | None => []
    end.
Proof.
  cbv zeta. set (s := state (run content evs (mount firstHandle))).
  pose proof (peek_is_word_run content evs firstHandle) as Hword.
  fold s in Hword. unfold peek_is_word in Hword.
  rewrite peekToneKeys_filter.
  destruct (peekIndex s) as [p|] eqn:Hpeek.
  - rewrite (filter_ext _ (fun i => p =? i)).
    + rewrite filter_select by apply wordIndices_NoDup.
      apply existsb_eqb_In in Hword. now rewrite Hword.
    + intros i. unfold isPeeking. now rewrite Hpeek.
  - apply filter_none. intros i _. unfold isPeeking. now rewrite Hpeek.
Qed.

(** X5.  In a run from mount in which every call is rendered before the
    next, the footer agrees with its handlers: the primary button is
    disabled exactly when every word is blacked out, which is exactly
    when it reads "Script Mastered"; a disabled button's handler would
    change nothing, and an enabled one's moves the counter by one. *)
Theorem footer_buttons (firstHandle : positive) (evs : list (Z * Event)) :
  let c := turns content evs (mount firstHandle) in
  let s := state c in
  nextDisabled content s
  = (blackedOutCount s =? totalWords (wordIndices (words content))) /\
  nextLabel content s
  = (if nextDisabled content s then "Script Mastered"%string
     else "Blackout Next Word"%string) /\
  (if nextDisabled content s then nextStep content (seen c) s = s
   else blackedOutCount (nextStep content (seen c) s)
        = blackedOutCount s + 1) /\
  (if stepBackDisabled s then prevStep (seen c) s = s
   else blackedOutCount (prevStep (seen c) s) = blackedOutCount s - 1).
Proof.
  cbv zeta. set (c := turns content evs (mount firstHandle)).
  destruct (in_order_turns content evs firstHandle) as [_ Hs Hrange _ _].
  fold c in Hs, Hrange. unfold settled in Hs. rewrite Hs.
  set (s := state c) in *.
  unfold nextDisabled, nextLabel, stepBackDisabled, nextStep, prevStep.
  cbn [render seen_blackedOutCount].
  set (total := totalWords (wordIndices (words content))) in *.
  destruct (Z.leb_spec total (blackedOutCount s)) as [Hle|Hlt];
    destruct (Z.eqb_spec (blackedOutCount s) total) as [Heq|Hne];
    try lia;
    (split; [reflexivity|]); (split; [reflexivity|]); split.
  - destruct (Z.ltb_spec (blackedOutCount s) total); [lia|reflexivity].
  - destruct (Z.eqb_spec (blackedOutCount s) 0) as [H0|H0];
      destruct (Z.ltb_spec 0 (blackedOutCount s)); try lia; reflexivity.
  - destruct (Z.ltb_spec (blackedOutCount s) total); [reflexivity|lia].
  - destruct (Z.eqb_spec (blackedOutCount s) 0) as [H0|H0];
      destruct (Z.ltb_spec 0 (blackedOutCount s)); try lia; reflexivity.
Qed.

Lemma set_blackedOutCount_same (s : State) (v : Z) :
  v = blackedOutCount s -> set_blackedOutCount v s = s.
Proof. intros ->. now destruct s. Qed.

Lemma set_blackedOutCount_twice (s : State) (v v' : Z) :
  set_blackedOutCount v' (set_blackedOutCount v s) = set_blackedOutCount v' s.
Proof. reflexivity. Qed.

(** A render that follows a change of the counter alone. *)
Lemma rerender_counter (now v : Z) (c : Component) :
  settled c ->
  handle content now Rerender
    {| state := set_blackedOutCount v (state c); seen := seen c |}
  = {| state := set_blackedOutCount v (state c);
       seen := render (set_blackedOutCount v (state c)) |}.
Proof.
  unfold settled. intros Hs. cbn [handle state seen]. unfold commit.
  rewrite Hs. cbn [render seen_peekIndex set_blackedOutCount peekIndex].
  rewrite (proj2 (option_Z_eqb_eq _ _) eq_refl). reflexivity.
Qed.

(** X6.  In a run from mount in which every call is rendered before the
    next, an enabled "Blackout Next Word" followed by "Step Back" gives
    the component back, and so does an enabled "Step Back" followed by
    "Blackout Next Word": counter, peek, stopwatch and timers
    included. *)
Theorem step_round_trip (firstHandle : positive) (evs : list (Z * Event))
  (t1 t2 : Z) :
  let c := turns content evs (mount firstHandle) in
  (nextDisabled content (state c) = false ->
   turns content [(t1, NextStep); (t2, PrevStep)] c = c) /\
  (stepBackDisabled (state c) = false ->
   turns content [(t1, PrevStep); (t2, NextStep)] c = c).
Proof.
  cbv zeta. set (c := turns content evs (mount firstHandle)).
  destruct (in_order_turns content evs firstHandle) as [_ Hs Hrange _ _].
  fold c in Hs, Hrange. pose proof Hs as Hseen. unfold settled in Hseen.
  unfold nextDisabled, stepBackDisabled.
  set (total := totalWords (wordIndices (words content))) in *.
  assert (Hback : forall v,
            v = blackedOutCount (state c) ->
            {| state := set_blackedOutCount v (state c);
               seen := render (set_blackedOutCount v (state c)) |} = c).
  { intros v Hv. rewrite (set_blackedOutCount_same _ _ Hv), <- Hseen.
    now destruct c. }
  split; intros Hen.
  - apply Z.leb_gt in Hen.
    change (turns content [(t1, NextStep); (t2, PrevStep)] c)
      with (handle content t2 Rerender
              (handle content t2 PrevStep
                 (handle content t1 Rerender
                    (handle content t1 NextStep c)))).
    assert (H1 : handle content t1 NextStep c
                 = {| state := set_blackedOutCount
                                 (blackedOutCount (state c) + 1) (state c);
                      seen := seen c |}).
    { cbn [handle]. unfold nextStep. rewrite Hseen.
      cbn [render seen_blackedOutCount]. fold total.
      destruct (Z.ltb_spec (blackedOutCount (state c)) total); [|lia].
      rewrite <- Hseen. reflexivity. }
    rewrite H1, (rerender_counter t1 _ c Hs).
    set (c1 := {| state := set_blackedOutCount _ (state c);
                  seen := render _ |}).
    assert (Hs1 : settled c1) by reflexivity.
    assert (H2 : handle content t2 PrevStep c1
                 = {| state := set_blackedOutCount
                                 (blackedOutCount (state c)) (state c1);
                      seen := seen c1 |}).
    { cbn [handle]. unfold prevStep, c1.
      cbn [seen state render seen_blackedOutCount blackedOutCount
           set_blackedOutCount].
      destruct (Z.ltb_spec 0 (blackedOutCount (state c) + 1)); [|lia].
      f_equal. f_equal. lia. }
    rewrite H2, (rerender_counter t2 _ c1 Hs1).
    unfold c1. cbn [state]. rewrite !set_blackedOutCount_twice.
    apply Hback. reflexivity.
  - apply Z.eqb_neq in Hen.
    change (turns content [(t1, PrevStep); (t2, NextStep)] c)
      with (handle content t2 Rerender
              (handle content t2 NextStep
                 (handle content t1 Rerender
                    (handle content t1 PrevStep c)))).
    assert (H1 : handle content t1 PrevStep c
                 = {| state := set_blackedOutCount
                                 (blackedOutCount (state c) - 1) (state c);
                      seen := seen c |}).
    { cbn [handle]. unfold prevStep. rewrite Hseen.
      cbn [render seen_blackedOutCount].
      destruct (Z.ltb_spec 0 (blackedOutCount (state c))); [|lia].
      rewrite <- Hseen. reflexivity. }
    rewrite H1, (rerender_counter t1 _ c Hs).
    set (c1 := {| state := set_blackedOutCount _ (state c);
                  seen := render _ |}).
    assert (Hs1 : settled c1) by reflexivity.
    assert (H2 : handle content t2 NextStep c1
                 = {| state := set_blackedOutCount
                                 (blackedOutCount (state c)) (state c1);
                      seen := seen c1 |}).
    { cbn [handle]. unfold nextStep, c1.
      cbn [seen state render seen_blackedOutCount blackedOutCount
           set_blackedOutCount]. fold total.
      destruct (Z.ltb_spec (blackedOutCount (state c) - 1) total); [|lia].
      f_equal. f_equal. lia. }
    rewrite H2, (rerender_counter t2 _ c1 Hs1).
    unfold c1. cbn [state]. rewrite !set_blackedOutCount_twice.
    apply Hback. reflexivity.
Qed.

(** X7.  A confirmed reset uncovers the whole script at once: in the
    next render no word is under the overlay, no word has the pointer
    cursor, a click on any token of that render does nothing, whatever
    the state has become, and "Step Back" is disabled; the peek, the
    stopwatch and the pending timers are as they were.  A declined reset
    changes nothing. *)
Theorem reset_uncovers (s : State) :
  let s' := reset true s in
  concealedKeys (renderWords content s') = [] /\
  pointerKeys (renderWords content s') = [] /\
  (forall idx s0, onClick content (render s') idx s0 = s0) /\
  stepBackDisabled s' = true /\
  peekIndex s' = peekIndex s /\ timers s' = timers s /\
  isTiming s' = isTiming s /\ elapsed s' = elapsed s /\
  reset false s = s.
Proof.
  cbv zeta. split; [|split; [|split]].
  - rewrite concealedKeys_filter. reflexivity.
  - rewrite pointerKeys_filter, filter_isWordBlackedOut. reflexivity.
  - intros idx s0. unfold onClick.
    change (seen_blackedOutCount (render (reset true s))) with 0.
    assert (Hb : isWordBlackedOut (wordIndices (words content)) 0 idx = false).
    { destruct (isWordBlackedOut _ 0 idx) eqn:Hb; [|reflexivity].
      pose proof (existsb_firstn_blacked (words content) 0 idx) as Hex.
      rewrite Hb in Hex. discriminate. }
    now rewrite Hb.
  - repeat split.
Qed.

End Rendering.

Lemma step_round_trip_witness :
  let c := turns hello_world_foo [(0, NextStep)] (mount 1) in
  (nextDisabled hello_world_foo (state c) = false /\
   turns hello_world_foo [(5, NextStep); (6, PrevStep)] c = c) /\
  (stepBackDisabled (state c) = false /\
   turns hello_world_foo [(5, PrevStep); (6, NextStep)] c = c).
Proof.
  cbv zeta.
  pose proof (step_round_trip hello_world_foo 1 [(0, NextStep)] 5 6) as Htrip.
  cbv zeta in Htrip. destruct Htrip as [Hnext Hprev].
  split; (split; [reflexivity|]).
  - apply Hnext. reflexivity.
  - apply Hprev. reflexivity.
Defined.

(** X8.  A script without words (empty, or whitespace only) is shown as
    mastered from the start: in every state of a run from mount both
    step buttons are disabled, the primary one reads "Script Mastered",
    and no span carries a click handler. *)
Theorem blank_script_mastered (content : jsstring) (firstHandle : positive)
  (evs : list (Z * Event)) :
  all_whitespace content ->
  let s := state (run content evs (mount firstHandle)) in
  stepBackDisabled s = true /\ nextDisabled content s = true /\
  nextLabel content s = "Script Mastered"%string /\
  wordSpans (renderWords content s) = [].
Proof.
  intros Hblank. cbv zeta.
  set (s := state (run content evs (mount firstHandle))).
  pose proof (PercentageSpec.totalWords_all_whitespace content Hblank)
    as Htotal.
  assert (Hbc : blackedOutCount s = 0)
    by (apply run_no_words, Htotal).
  unfold stepBackDisabled, nextDisabled, nextLabel.
  rewrite Htotal, Hbc. repeat (split; [reflexivity|]).
  pose proof (renderWords_keys content s) as Hkeys.
  unfold totalWords in Htotal.
  destruct (wordIndices (words content)); [|discriminate].
  destruct (wordSpans (renderWords content s)); [reflexivity|discriminate].
Qed.

Lemma blank_script_mastered_witness :
  all_whitespace [32; 10] /\
  let s := state (run [32; 10] [(0, NextStep); (5, ClickWord 1)] (mount 1)) in
  stepBackDisabled s = true /\ nextDisabled [32; 10] s = true /\
  nextLabel [32; 10] s = "Script Mastered"%string /\
  wordSpans (renderWords [32; 10] s) = [].
Proof.
  assert (Hblank : all_whitespace [32; 10]).
  { repeat constructor. }
  split; [exact Hblank|].
  exact (blank_script_mastered [32; 10] 1
           [(0, NextStep); (5, ClickWord 1)] Hblank).
Defined.

End ViewSpec.
(** ** The window's timers over the life of the component *)

Module TeardownSpec.

Import JsString JsNumber Memorizer MemorizerView Vocabulary ViewVocabulary
  StateFacts TimerFacts StopwatchFacts ViewFacts.

(** X9.  In a run from mount in which every call is rendered before the
    next, the window holds one timer for a running stopwatch and one for
    a lasting peek, and no other: however often words are clicked or the
    stopwatch is toggled, no timer is left behind. *)
Theorem timers_bounded (content : jsstring) (firstHandle : positive)
  (evs : list (Z * Event)) :
  let s := state (turns content evs (mount firstHandle)) in
  List.length (timers s)
  = ((if isTiming s then 1 else 0)
     + (match peekIndex s with Some _ => 1 | None => 0 end))%nat.
Proof.
  cbv zeta.
  destruct (in_order_turns content evs firstHandle) as [_ _ _ Hsw Hpeek].
  set (s := state (turns content evs (mount firstHandle))) in *.
  rewrite <- (filter_length is_peek_timer (timers s)).
  fold (peekTimeouts s). fold (tickTimers s).
  unfold wf_stopwatch in Hsw.
  assert (Hp : List.length (peekTimeouts s)
               = match peekIndex s with Some _ => 1%nat | None => 0%nat end).
  { destruct (peekIndex s).
    - destruct Hpeek as (t & ->). reflexivity.
    - now rewrite Hpeek. }
  assert (Ht : List.length (tickTimers s)
               = if isTiming s then 1%nat else 0%nat).
  { destruct (isTiming s).
    - destruct Hsw as (due & ->). reflexivity.
    - now rewrite Hsw. }
  rewrite Hp, Ht. apply Nat.add_comm.
Qed.

(** X10.  Unmounting after a run from mount in which every call was
    rendered before the next leaves no timer in the window: the cleanups
    of the two effects clear the peek timeout and the stopwatch
    interval, so no callback of the component runs afterwards. *)
Theorem unmount_clears_timers (content : jsstring) (firstHandle : positive)
  (evs : list (Z * Event)) :
  let s := unmount (state (turns content evs (mount firstHandle))) in
  timers s = [] /\ forall now h, fireTimer now h s = s.
Proof.
  cbv zeta.
  destruct (in_order_turns content evs firstHandle) as [Hwf _ _ Hsw _].
  pose proof (wf_peek _ Hwf) as Hpeek. unfold peek_parts in Hpeek.
  set (s := state (turns content evs (mount firstHandle))) in *.
  assert (Hnil : timers (unmount s) = []).
  { unfold wf_stopwatch in Hsw.
    assert (Hshape :
      timers (unmount s)
      = filter (fun t => negb (timer_handle t =? timerIntervalRef s))
          (match peekCleanup s with
           | Some timer =>
               filter (fun t => negb (timer_handle t =? timer)) (timers s)
           | None => timers s
           end)).
    { unfold unmount. now destruct (peekCleanup s). }
    rewrite Hshape. apply filter_none. intros t Ht.
    assert (Hin : In t (timers s) /\
                  match peekCleanup s with
                  | Some timer => timer_handle t <> timer
                  | None => True
                  end).
    { destruct (peekCleanup s) as [timer|]; [|now split].
      apply filter_In in Ht. destruct Ht as [Hin Hne]. split; [exact Hin|].
      apply negb_true_iff, Z.eqb_neq in Hne. exact Hne. }
    destruct Hin as [Hin Hne].
    destruct (is_peek_timer t) eqn:Hkind.
    - assert (Hpt : In t (peekTimeouts s)) by now apply peekTimeouts_In.
      destruct (seen_peekIndex _), (peekCleanup s); try contradiction.
      + destruct Hpeek as [Heq|(t0 & Heq & Hh)]; rewrite Heq in Hpt.
        * destruct Hpt.
        * destruct Hpt as [<-|[]]. contradiction.
      + rewrite Hpeek in Hpt. destruct Hpt.
    - assert (Htt : In t (tickTimers s)).
      { apply tickTimers_In. split; [exact Hin|].
        unfold is_peek_timer in Hkind.
        now destruct (timer_callback t). }
      destruct (isTiming s).
      + destruct Hsw as (due & Heq). rewrite Heq in Htt.
        destruct Htt as [<-|[]]. simpl. now rewrite Z.eqb_refl.
      + rewrite Hsw in Htt. destruct Htt. }
  split; [exact Hnil|].
  intros now h. unfold fireTimer. now rewrite Hnil.
Qed.

End TeardownSpec.

(** ** The header after a stop *)

Module HeaderSpec.

Import JsString JsNumber Memorizer MemorizerView Vocabulary ViewVocabulary
  StateFacts TimerFacts StopwatchFacts.

Lemma short_readings :
  forallb (fun n => short_reading (Z.of_nat n)) (seq 1 999) = true.
Proof. vm_compute. reflexivity. Qed.

Lemma short_reading_below_second (d : Z) :
  0 < d < 1000 -> short_reading d = true.
Proof.
  intros Hd. pose proof short_readings as Hall.
  rewrite forallb_forall in Hall.
  rewrite <- (Z2Nat.id d) by lia. apply Hall. apply in_seq. lia.
Qed.

(** X11.  What the header shows right after a stop, along every run from
    mount.  When an interval callback last ran less than a second after
    the start, and nothing wrote the stopwatch between it and the stop,
    the result panel is shown with 0 WPM and TOO SLOW, whatever the
    script.  When nothing wrote the stopwatch between the start and the
    stop, no panel is shown and the button reads "Start Timer": the
    result of an earlier measurement is gone. *)
Theorem header_after_stop (content : jsstring) (firstHandle : positive)
  (evs : list (Z * Event)) :
  let c := run content evs (mount firstHandle) in
  (forall tm t later now,
     In tm (timers (state c)) -> timer_callback tm = ElapsedTick ->
     timer_due tm <= t ->
     0 < t - startTimeRef (state c) < 1000 ->
     let c1 := handle content t (TimerFires (timer_handle tm)) c in
     stopwatch_untouched content later c1 ->
     let c2 := run content later c1 in
     seen_isTiming (seen c2) = true ->
     let s' := state (handle content now ToggleTimer c2) in
     statsShown s' = true /\ shownWpm content s' = 0%float /\
     shownLabel content s' = "TOO SLOW"%string) /\
  (forall t0 later now,
     seen_isTiming (seen c) = false ->
     let c1 := handle content t0 ToggleTimer c in
     stopwatch_untouched content later c1 ->
     let c2 := run content later c1 in
     seen_isTiming (seen c2) = true ->
     let s' := state (handle content now ToggleTimer c2) in
     statsShown s' = false /\ idleTimerLabel s' = "Start Timer"%string).
Proof.
  cbv zeta. set (c := run content evs (mount firstHandle)).
  assert (W : wf_state c) by (apply wf_run, wf_mount).
  split.
  - intros tm t later now Hin Hcb Hdue Hshort Hq Hseen.
    destruct (stop_after_tick content c tm t now later W Hin Hcb Hdue
                Hq Hseen) as [Hoff Hel].
    pose proof (short_reading_below_second _ Hshort) as Hread.
    unfold short_reading in Hread. apply andb_true_iff in Hread.
    destruct Hread as [Hpos Hlt].
    unfold statsShown, shownLabel, shownWpm, wpm.
    rewrite Hoff, Hel, Hpos, Hlt. repeat split.
  - intros t0 later now Hoff Hq Hseen.
    destruct (stop_after_start content c t0 now later Hoff Hq Hseen)
      as [Hoff' Hel].
    unfold statsShown, idleTimerLabel. rewrite Hoff', Hel. split; reflexivity.
Qed.

Lemma header_after_stop_witness :
  let c := run hello_world_foo
             [(1000, ToggleTimer); (1000, Rerender);
              (1100, TimerFires 1); (1100, Rerender)] (mount 1) in
  (let s' := state (run hello_world_foo
                      [(1900, TimerFires 1); (1900, Rerender);
                       (1910, NextStep); (1950, ToggleTimer)] c) in
   statsShown s' = true /\ shownWpm hello_world_foo s' = 0%float /\
   shownLabel hello_world_foo s' = "TOO SLOW"%string) /\
  (let s' := state (run hello_world_foo
                      [(1000, ToggleTimer); (1000, Rerender);
                       (1010, NextStep); (1050, ToggleTimer)] (mount 1)) in
   statsShown s' = false /\ idleTimerLabel s' = "Start Timer"%string).
Proof.
  cbv zeta.
  destruct (header_after_stop hello_world_foo 1
              [(1000, ToggleTimer); (1000, Rerender);
               (1100, TimerFires 1); (1100, Rerender)])
    as (Htick & _).
  destruct (header_after_stop hello_world_foo 1 []) as (_ & Hzero).
  split.
  - apply (Htick (tickTimer 1 1200) 1900
             [(1900, Rerender); (1910, NextStep)] 1950).
    + left. reflexivity.
    + reflexivity.
    + simpl. lia.
    + simpl. lia.
    + repeat split.
    + reflexivity.
  - apply (Hzero 1000 [(1000, Rerender); (1010, NextStep)] 1050 eq_refl).
    + repeat split.
    + reflexivity.
Defined.

End HeaderSpec.

(** ** The application shell *)

Module AppFacts.

Import JsString JsStringMethods App AppVocabulary.

Lemma jsstring_eqb_eq (a b : jsstring) : jsstring_eqb a b = true <-> a = b.
Proof.
  revert b. induction a as [|x a IH]; intros [|y b]; simpl;
    try (split; [discriminate|discriminate]); [tauto|].
  rewrite andb_true_iff, Z.eqb_eq, IH. split.
  - intros [-> ->]. reflexivity.
  - intros H. injection H as -> ->. now split.
Qed.

Lemma jsstring_eqb_refl (a : jsstring) : jsstring_eqb a a = true.
Proof. now apply jsstring_eqb_eq. Qed.

Lemma jsstring_eqb_neq (a b : jsstring) : jsstring_eqb a b = false <-> a <> b.
Proof.
  rewrite <- jsstring_eqb_eq. destruct (jsstring_eqb a b); split;
    congruence.
Qed.

Lemma hasCard_In (i : jsstring) (a : AppState) :
  hasCard i a = true <-> In i (ids a).
Proof.
  unfold hasCard, ids. rewrite existsb_exists, in_map_iff. split.
  - intros (s & Hs & Heq). apply jsstring_eqb_eq in Heq. now exists s.
  - intros (s & Heq & Hs). exists s. split; [exact Hs|].
    now apply jsstring_eqb_eq.
Qed.

(** With distinct ids, the script found for the id of a stored script is
    that script. *)
Lemma find_by_id (l : list Script) (s : Script) :
  NoDup (map id l) -> In s l ->
  find (fun x => jsstring_eqb (id x) (id s)) l = Some s.
Proof.
  induction l as [|x l IH]; intros Hnd Hin; [destruct Hin|].
  simpl in Hnd. apply NoDup_cons_iff in Hnd. destruct Hnd as [Hx Hnd].
  simpl. destruct Hin as [->|Hin].
  - now rewrite jsstring_eqb_refl.
  - destruct (jsstring_eqb (id x) (id s)) eqn:Heq; [|now apply IH].
    apply jsstring_eqb_eq in Heq. exfalso. apply Hx. rewrite Heq.
    now apply in_map.
Qed.

Lemma find_some_id (l : list Script) (i : jsstring) (s : Script) :
  find (fun x => jsstring_eqb (id x) i) l = Some s -> In s l /\ id s = i.
Proof.
  intros Hf. apply find_some in Hf. destruct Hf as [Hin Heq].
  now apply jsstring_eqb_eq in Heq.
Qed.

Lemma find_none_id (l : list Script) (i : jsstring) :
  find (fun x => jsstring_eqb (id x) i) l = None <-> ~ In i (map id l).
Proof.
  induction l as [|x l IH]; simpl; [tauto|].
  destruct (jsstring_eqb (id x) i) eqn:Heq.
  - apply jsstring_eqb_eq in Heq. split; [discriminate|].
    intros H. exfalso. apply H. now left.
  - apply jsstring_eqb_neq in Heq. rewrite IH. tauto.
Qed.

Lemma update_ids (active : jsstring) (scriptData : PartialScript)
  (l : list Script) :
  partial_id scriptData = None \/ partial_id scriptData = Some active ->
  map id (update active scriptData l) = map id l.
Proof.
  intros Hid. unfold update. rewrite map_map. apply map_ext. intros s.
  destruct (jsstring_eqb (id s) active) eqn:Heq; [|reflexivity].
  apply jsstring_eqb_eq in Heq. unfold spread. simpl.
  destruct Hid as [->| ->]; simpl; congruence.
Qed.

Lemma update_other (active : jsstring) (scriptData : PartialScript)
  (l : list Script) (s : Script) :
  In s l -> id s <> active -> In s (update active scriptData l).
Proof.
  intros Hin Hne. unfold update. apply in_map_iff. exists s.
  apply jsstring_eqb_neq in Hne. now rewrite Hne.
Qed.

Lemma update_find (active : jsstring) (scriptData : PartialScript)
  (l : list Script) (s : Script) :
  partial_id scriptData = None \/ partial_id scriptData = Some active ->
  find (fun x => jsstring_eqb (id x) active) l = Some s ->
  find (fun x => jsstring_eqb (id x) active) (update active scriptData l)
  = Some (spread s scriptData).
Proof.
  intros Hid. unfold update.
  induction l as [|x l IH]; simpl; [discriminate|].
  destruct (jsstring_eqb (id x) active) eqn:Heq.
  - intros H. injection H as <-.
    assert (Hsame : id (spread x scriptData) = id x).
    { apply jsstring_eqb_eq in Heq. unfold spread. simpl.
      destruct Hid as [->| ->]; simpl; congruence. }
    now rewrite Hsame, Heq.
  - rewrite Heq. exact IH.
Qed.

Lemma handleSave_update (newId active : jsstring) (now : Z)
  (scriptData : PartialScript) (a : AppState) :
  activeScriptId a = Some active -> truthy active = true ->
  scripts (handleSave newId now scriptData a)
  = update active scriptData (scripts a).
Proof.
  intros Hact Htr. unfold handleSave. rewrite Hact, Htr.
  now destruct (ViewState_eqb (view a) EditView).
Qed.

Lemma handleSave_view (newId : jsstring) (now : Z)
  (scriptData : PartialScript) (a : AppState) :
  view (handleSave newId now scriptData a)
  = if ViewState_eqb (view a) EditView then ListView else view a.
Proof.
  unfold handleSave.
  destruct (ViewState_eqb (view a) EditView); [reflexivity|].
  destruct (activeScriptId a) as [active|]; [|reflexivity].
  now destruct (truthy active).
Qed.

Lemma handleSave_activeScriptId (newId : jsstring) (now : Z)
  (scriptData : PartialScript) (a : AppState) :
  activeScriptId (handleSave newId now scriptData a) = activeScriptId a.
Proof.
  destruct a as [l v [active|]]; unfold handleSave; simpl;
    destruct v; simpl; try destruct (truthy active); reflexivity.
Qed.

(** The list after a save: updated in place, or with the new script in
    front. *)
Lemma handleSave_scripts (newId : jsstring) (now : Z)
  (scriptData : PartialScript) (a : AppState) :
  scripts (handleSave newId now scriptData a)
  = match activeScriptId a with
    | Some active =>
        if truthy active then update active scriptData (scripts a)
        else newScript newId now scriptData :: scripts a
    | None => newScript newId now scriptData :: scripts a
    end.
Proof.
  destruct a as [l v [active|]]; unfold handleSave; simpl;
    destruct v; simpl; try destruct (truthy active); reflexivity.
Qed.

Lemma spread_twice (s : Script) (scriptData : PartialScript) :
  spread (spread s scriptData) scriptData = spread s scriptData.
Proof.
  unfold spread. simpl.
  destruct scriptData as [[i|] [t|] [c|] [b|] [n|]]; reflexivity.
Qed.

(** Saving the same data twice is saving it once. *)
Lemma update_twice (active : jsstring) (scriptData : PartialScript)
  (l : list Script) :
  partial_id scriptData = None \/ partial_id scriptData = Some active ->
  update active scriptData (update active scriptData l)
  = update active scriptData l.
Proof.
  intros Hid. unfold update. rewrite map_map. apply map_ext. intros s.
  destruct (jsstring_eqb (id s) active) eqn:Heq; [|now rewrite Heq].
  assert (Hsame : id (spread s scriptData) = id s).
  { apply jsstring_eqb_eq in Heq. unfold spread. simpl.
    destruct Hid as [->| ->]; simpl; congruence. }
  rewrite Hsame, Heq. apply spread_twice.
Qed.

Lemma handleSave_memorize (newId active : jsstring) (now : Z)
  (scriptData : PartialScript) (a : AppState) :
  view a = MemorizeView -> activeScriptId a = Some active ->
  truthy active = true ->
  handleSave newId now scriptData a
  = setScripts (update active scriptData (scripts a)) a.
Proof.
  intros Hview Hact Htr. unfold handleSave. now rewrite Hview, Hact, Htr.
Qed.

Lemma handleDelete_scripts (i : jsstring) (a : AppState) :
  scripts (handleDelete true i a)
  = filter (fun s => negb (jsstring_eqb (id s) i)) (scripts a).
Proof. reflexivity. Qed.

Lemma run_cons (ev : Event) (evs : list Event) (a : AppState) :
  run (ev :: evs) a = run evs (handle ev a).
Proof. reflexivity. Qed.


Lemma activeScript_some (a : AppState) (script : Script) :
  activeScript a = Some script ->
  activeScriptId a = Some (id script) /\ In script (scripts a).
Proof.
  unfold activeScript. destruct (activeScriptId a) as [active|];
    [|discriminate].
  intros Hf. apply find_some_id in Hf. destruct Hf as [Hin <-]. now split.
Qed.

(** The active script is still found after a save of its cues. *)
Lemma save_keeps_active (newId : jsstring) (now : Z) (b : jsstring)
  (a : AppState) (script : Script) :
  activeScript a = Some script ->
  exists script',
    find (fun s => jsstring_eqb (id s) (id script))
      (scripts (handleSave newId now (autoSaveData script b) a))
    = Some script'.
Proof.
  intros Hs. destruct (activeScript_some a script Hs) as [Hid Hin].
  rewrite handleSave_scripts, Hid.
  unfold activeScript in Hs. rewrite Hid in Hs.
  destruct (truthy (id script)).
  - eexists. apply update_find; [right; reflexivity|exact Hs].
  - simpl. destruct (jsstring_eqb newId (id script));
      [eexists; reflexivity|now exists script].
Qed.

(** Outside the edit view a save touches the list only. *)
Lemma handleSave_outside_edit (newId : jsstring) (now : Z)
  (scriptData : PartialScript) (a : AppState) :
  view a = MemorizeView ->
  handleSave newId now scriptData a
  = setScripts (scripts (handleSave newId now scriptData a)) a.
Proof.
  intros Hview. unfold handleSave. rewrite Hview. simpl.
  destruct (activeScriptId a) as [active|]; [|reflexivity].
  now destruct (truthy active).
Qed.

(** The shell's turn for an auto-save of the cues of its active
    script. *)
Lemma memorizerSave_step (newId : jsstring) (now : Z) (b : jsstring)
  (a : AppState) (script : Script) :
  view a = MemorizeView -> activeScript a = Some script ->
  truthy (id script) = true ->
  handle (MemorizerSave b newId now) a
  = setScripts (update (id script) (autoSaveData script b) (scripts a)) a /\
  activeScript (handle (MemorizerSave b newId now) a)
  = Some (with_bullets script b).
Proof.
  intros Hview Hact Htr.
  destruct (activeScript_some a script Hact) as [Hid Hin].
  assert (Hstep : handle (MemorizerSave b newId now) a
                  = setScripts (update (id script) (autoSaveData script b)
                                  (scripts a)) a).
  { unfold handle. rewrite Hview, Hact. now apply handleSave_memorize. }
  split; [exact Hstep|]. rewrite Hstep.
  unfold activeScript in *. simpl. rewrite Hid in *.
  now rewrite (update_find (id script) (autoSaveData script b)
                 (scripts a) script) by (auto; now right).
Qed.

Lemma NoDup_ids_filter (p : Script -> bool) (l : list Script) :
  NoDup (map id l) -> NoDup (map id (filter p l)).
Proof.
  induction l as [|x l IH]; intros Hnd; [constructor|].
  simpl in Hnd. apply NoDup_cons_iff in Hnd. destruct Hnd as [Hx Hnd].
  simpl. destruct (p x); [|now apply IH].
  simpl. constructor; [|now apply IH].
  intros Hin. apply Hx. apply in_map_iff in Hin.
  destruct Hin as (y & Hy & Hin). apply filter_In in Hin.
  apply in_map_iff. exists y. tauto.
Qed.

(** Removing the scripts with an id that no script has. *)
Lemma filter_absent_id (l : list Script) (i : jsstring) :
  ~ In i (map id l) ->
  filter (fun s => negb (jsstring_eqb (id s) i)) l = l.
Proof.
  induction l as [|x l IH]; intros Hout; [reflexivity|]. simpl in *.
  destruct (jsstring_eqb (id x) i) eqn:Heq.
  - apply jsstring_eqb_eq in Heq. tauto.
  - simpl. f_equal. apply IH. tauto.
Qed.

(** With distinct ids, removing the scripts with a stored id removes
    one script. *)
Lemma filter_stored_id (l : list Script) (i : jsstring) :
  NoDup (map id l) -> In i (map id l) ->
  (List.length (filter (fun s => negb (jsstring_eqb (id s) i)) l) + 1
   = List.length l)%nat.
Proof.
  induction l as [|x l IH]; intros Hnd Hin; [destruct Hin|].
  simpl in Hnd. apply NoDup_cons_iff in Hnd. destruct Hnd as [Hx Hnd].
  simpl. destruct (jsstring_eqb (id x) i) eqn:Heq; simpl.
  - apply jsstring_eqb_eq in Heq. rewrite <- Heq in *.
    rewrite filter_absent_id by exact Hx. lia.
  - apply jsstring_eqb_neq in Heq. destruct Hin as [Hin|Hin]; [tauto|].
    rewrite IH by assumption. lia.
Qed.

(** Without that, it removes at least one. *)
Lemma filter_some_id (l : list Script) (i : jsstring) :
  In i (map id l) ->
  (List.length (filter (fun s => negb (jsstring_eqb (id s) i)) l)
   < List.length l)%nat.
Proof.
  induction l as [|x l IH]; intros Hin; [destruct Hin|].
  simpl. destruct (jsstring_eqb (id x) i) eqn:Heq; simpl.
  - pose proof (filter_length_le
                  (fun s => negb (jsstring_eqb (id s) i)) l). lia.
  - apply jsstring_eqb_neq in Heq. destruct Hin as [Hin|Hin]; [tauto|].
    specialize (IH Hin). lia.
Qed.

(** One turn keeps the ids distinct when the id it is handed is new. *)
Lemma handle_NoDup (ev : Event) (a : AppState) :
  NoDup (ids a) ->
  match supplied_id ev with
  | Some newId => ~ In newId (ids a)
  | None => True
  end ->
  NoDup (ids (handle ev a)).
Proof.
  intros Hnd Hfresh. unfold handle.
  destruct (view a) eqn:Hview;
    destruct ev as [|i|i|i confirmed|t c newId now| |b newId now|];
    simpl in Hfresh; try exact Hnd.
  - destruct (hasCard i a); exact Hnd.
  - destruct (hasCard i a); exact Hnd.
  - destruct (hasCard i a); [|exact Hnd]. unfold handleDelete.
    destruct confirmed; [|exact Hnd]. unfold ids. simpl.
    now apply NoDup_ids_filter.
  - unfold ids. rewrite handleSave_scripts.
    assert (Hnew : NoDup (map id (newScript newId now
                                    (editorData t c)
                                  :: scripts a)))
      by (simpl; constructor; assumption).
    destruct (activeScriptId a) as [active|]; [|exact Hnew].
    destruct (truthy active); [|exact Hnew].
    rewrite update_ids by (left; reflexivity). exact Hnd.
  - destruct (activeScript a) as [script|] eqn:Hact; [|exact Hnd].
    apply activeScript_some in Hact. destruct Hact as [Hid _].
    unfold ids. rewrite handleSave_scripts, Hid.
    destruct (truthy (id script)).
    + rewrite update_ids by (right; reflexivity). exact Hnd.
    + simpl. constructor; assumption.
  - destruct (activeScript a); exact Hnd.
Qed.

End AppFacts.

Module AppSpec.

Import JsString JsStringMethods App AppVocabulary AppFacts.



(** X13.  The ids of the stored scripts stay distinct: when the store
    held distinct ids and every id handed to a save is new, the ids are
    distinct in every state of the run. *)
Theorem ids_stay_distinct (stored : Stored) (first : AppState)
  (evs : list Event) :
  init stored = Some first ->
  NoDup (ids first) -> fresh_supply evs first ->
  NoDup (ids (run evs first)).
Proof.
  intros _ Hnd Hfresh.
  assert (Hrun : forall a, NoDup (ids a) -> fresh_supply evs a ->
                           NoDup (ids (run evs a))).
  { clear. induction evs as [|ev evs IH]; intros a Hnd Hfresh; [exact Hnd|].
    destruct Hfresh as [Hev Hfresh]. rewrite run_cons.
    apply IH; [|exact Hfresh]. now apply handle_NoDup. }
  apply Hrun; assumption.
Qed.

Lemma ids_stay_distinct_witness :
  init (ScriptList [intro_script]) = Some (firstState [intro_script]) /\
  NoDup (map id [intro_script]) /\
  fresh_supply [ClickNew; EditorSave (js "Pitch") (js "Two lines") (js "q7") 2000]
    (firstState [intro_script]) /\
  NoDup (ids (run [ClickNew;
                   EditorSave (js "Pitch") (js "Two lines") (js "q7") 2000]
                (firstState [intro_script]))).
Proof.
  assert (Hnd : NoDup (map id [intro_script])).
  { constructor; [intros []|constructor]. }
  assert (Hfresh : fresh_supply
                     [ClickNew;
                      EditorSave (js "Pitch") (js "Two lines") (js "q7") 2000]
                     (firstState [intro_script])).
  { split; [exact I|]. split; [|exact I].
    intros [Heq|[]]. discriminate Heq. }
  split; [reflexivity|]. split; [exact Hnd|]. split; [exact Hfresh|].
  exact (ids_stay_distinct (ScriptList [intro_script])
           (firstState [intro_script])
           [ClickNew; EditorSave (js "Pitch") (js "Two lines") (js "q7") 2000]
           eq_refl Hnd Hfresh).
Defined.

(** X14.  Saving an edit changes one script.  With distinct ids, opening
    the editor from the card of a stored script and saving it with a new
    title and content returns to the list, keeps the cards and their
    order, stores the new title and content under the same id with the
    cues and the creation time kept, and leaves every other script as it
    was. *)
Theorem editor_save_updates_one_script (a : AppState) (script : Script)
  (t c newId : jsstring) (now : Z) :
  NoDup (ids a) -> In script (scripts a) -> truthy (id script) = true ->
  let a' := handleSave newId now (editorData t c) (handleEdit (id script) a) in
  view a' = ListView /\ ids a' = ids a /\
  lookup (id script) a' = Some (edited script t c) /\
  (forall other,
     In other (scripts a) -> id other <> id script ->
     lookup (id other) a' = Some other).
Proof.
  intros Hnd Hin Htr. cbv zeta.
  set (a1 := handleEdit (id script) a).
  assert (Hscripts : scripts (handleSave newId now (editorData t c) a1)
                     = update (id script) (editorData t c) (scripts a))
    by (rewrite (handleSave_update newId (id script) now _ a1 eq_refl Htr);
        reflexivity).
  assert (Hids : ids (handleSave newId now (editorData t c) a1) = ids a).
  { unfold ids. rewrite Hscripts. apply update_ids. now left. }
  split; [now rewrite handleSave_view|]. split; [exact Hids|]. split.
  - unfold lookup. rewrite Hscripts.
    rewrite (update_find (id script) (editorData t c) (scripts a) script).
    + reflexivity.
    + now left.
    + now apply find_by_id.
  - intros other Hother Hne. unfold lookup. apply find_by_id.
    + fold (ids (handleSave newId now (editorData t c) a1)).
      now rewrite Hids.
    + rewrite Hscripts. now apply update_other.
Qed.

Lemma editor_save_updates_one_script_witness :
  let a := firstState [intro_script] in
  NoDup (ids a) /\ In intro_script (scripts a) /\
  truthy (id intro_script) = true /\
  lookup (js "k3")
    (handleSave (js "q7") 2000 (editorData (js "Pitch") (js "Two lines"))
       (handleEdit (id intro_script) a))
  = Some (edited intro_script (js "Pitch") (js "Two lines")).
Proof.
  cbv zeta.
  assert (Hnd : NoDup (ids (firstState [intro_script]))).
  { constructor; [intros []|constructor]. }
  assert (Hin : In intro_script (scripts (firstState [intro_script])))
    by (left; reflexivity).
  split; [exact Hnd|]. split; [exact Hin|]. split; [reflexivity|].
  exact (proj1 (proj2 (proj2
           (editor_save_updates_one_script (firstState [intro_script]) intro_script
              (js "Pitch") (js "Two lines") (js "q7") 2000
              Hnd Hin eq_refl)))).
Defined.

(** X15.  Creating a script and deleting it again.  "New Script" and
    "Save Script" put the new script in front of the others, under the
    id the host handed out, with the typed content, the typed title
    (or "Untitled Script" when the title is empty), empty cues and the
    current time, and return to the list.  When the id is new, a
    confirmed delete of the new card gives back the list as it was.
    When a stored script already has that id, the delete removes that
    script too. *)
Theorem create_then_delete (a : AppState) (t c newId : jsstring) (now : Z) :
  let a1 := handleSave newId now (editorData t c) (handleCreateNew a) in
  scripts a1
  = {| id := newId;
       title := if truthy t then t else js "Untitled Script";
       content := c; bullets := Some []; createdAt := now |} :: scripts a /\
  view a1 = ListView /\
  (~ In newId (ids a) -> scripts (handleDelete true newId a1) = scripts a) /\
  (In newId (ids a) ->
   (List.length (scripts (handleDelete true newId a1))
    < List.length (scripts a))%nat).
Proof.
  cbv zeta.
  assert (Hcontent : or_default (Some c) [] = c) by now destruct c.
  assert (Hscripts :
            scripts (handleSave newId now (editorData t c) (handleCreateNew a))
            = newScript newId now (editorData t c) :: scripts a)
    by reflexivity.
  split; [|split; [reflexivity|split]].
  - rewrite Hscripts. unfold newScript. simpl partial_content.
    now rewrite Hcontent.
  - intros Hfresh. rewrite handleDelete_scripts, Hscripts.
    simpl. rewrite jsstring_eqb_refl. simpl.
    now apply filter_absent_id.
  - intros Hold. rewrite handleDelete_scripts, Hscripts.
    simpl. rewrite jsstring_eqb_refl. simpl.
    now apply filter_some_id.
Qed.

(** X16.  A confirmed delete removes one script.  With distinct ids, the
    delete button of a card removes the script of that card and no
    other: the list is one shorter, it holds the other scripts, and no
    script is found for the id any more; the view does not change.  A
    declined confirm changes nothing. *)
Theorem delete_removes_one (a : AppState) (i : jsstring) :
  NoDup (ids a) -> hasCard i a = true ->
  let a' := handleDelete true i a in
  (List.length (scripts a') + 1 = List.length (scripts a))%nat /\
  (forall s, In s (scripts a') <-> In s (scripts a) /\ id s <> i) /\
  lookup i a' = None /\ view a' = view a /\ handleDelete false i a = a.
Proof.
  intros Hnd Hcard. cbv zeta. apply hasCard_In in Hcard.
  split; [now apply filter_stored_id|]. split; [|split].
  - intros s. unfold handleDelete. simpl. rewrite filter_In.
    rewrite negb_true_iff, jsstring_eqb_neq. reflexivity.
  - unfold lookup. apply find_none_id. unfold handleDelete. simpl.
    intros Hin. apply in_map_iff in Hin. destruct Hin as (s & Hs & Hin).
    apply filter_In in Hin. destruct Hin as [_ Hne].
    rewrite negb_true_iff, jsstring_eqb_neq in Hne. contradiction.
  - split; reflexivity.
Qed.

Lemma delete_removes_one_witness :
  NoDup (ids (firstState [intro_script])) /\
  hasCard (js "k3") (firstState [intro_script]) = true /\
  (List.length (scripts (handleDelete true (js "k3") (firstState [intro_script])))
   + 1 = List.length (scripts (firstState [intro_script])))%nat.
Proof.
  assert (Hnd : NoDup (ids (firstState [intro_script]))).
  { constructor; [intros []|constructor]. }
  split; [exact Hnd|]. split; [reflexivity|].
  exact (proj1 (delete_removes_one (firstState [intro_script]) (js "k3")
                  Hnd eq_refl)).
Defined.

(** X17.  An auto-save of the cues keeps the session.  In the memorize
    view, the save that the memorizer issues for its script with new
    cues stays in the memorize view with the same active id; the active
    script afterwards is the old one with the new cues, so its title and
    its content, and with the content the tokens on screen, are the
    same; the cards and their order are kept and every script with
    another id is kept; and the same save once more changes nothing. *)
Theorem autosave_keeps_session (a : AppState) (script : Script)
  (b newId : jsstring) (now : Z) :
  view a = MemorizeView -> activeScript a = Some script ->
  truthy (id script) = true ->
  let a' := handle (MemorizerSave b newId now) a in
  view a' = MemorizeView /\ activeScriptId a' = activeScriptId a /\
  activeScript a' = Some (with_bullets script b) /\
  ids a' = ids a /\
  (forall other,
     In other (scripts a) -> id other <> id script -> In other (scripts a')) /\
  (forall newId' now', handle (MemorizerSave b newId' now') a' = a').
Proof.
  intros Hview Hact Htr. cbv zeta.
  destruct (activeScript_some a script Hact) as [Hid Hin].
  assert (Hstep : handle (MemorizerSave b newId now) a
                  = setScripts (update (id script) (autoSaveData script b)
                                  (scripts a)) a).
  { unfold handle. rewrite Hview, Hact.
    now apply handleSave_memorize. }
  rewrite Hstep.
  assert (Hact' : activeScript
                    (setScripts (update (id script) (autoSaveData script b)
                                   (scripts a)) a)
                  = Some (with_bullets script b)).
  { unfold activeScript in *. simpl. rewrite Hid in *.
    now rewrite (update_find (id script) (autoSaveData script b)
                   (scripts a) script) by (auto; now right). }
  split; [exact Hview|]. split; [reflexivity|]. split; [exact Hact'|].
  split; [|split].
  - unfold ids. simpl. apply update_ids. now right.
  - intros other Hother Hne. simpl. now apply update_other.
  - intros newId' now'. unfold handle. simpl view. rewrite Hview, Hact'.
    rewrite (handleSave_memorize newId' (id script) now');
      [|exact Hview|exact Hid|exact Htr].
    unfold setScripts. simpl. f_equal.
    apply (update_twice (id script) (autoSaveData script b)). now right.
Qed.

Lemma autosave_keeps_session_witness :
  let a := run [ClickMemorize (js "k3")] (firstState [intro_script]) in
  view a = MemorizeView /\ activeScript a = Some intro_script /\
  truthy (id intro_script) = true /\
  activeScript (handle (MemorizerSave (js "<ul><li>hook</li></ul>")
                          (js "q7") 3000) a)
  = Some (with_bullets intro_script (js "<ul><li>hook</li></ul>")).
Proof.
  cbv zeta. split; [reflexivity|]. split; [reflexivity|].
  split; [reflexivity|].
  exact (proj1 (proj2 (proj2
           (autosave_keeps_session
              (run [ClickMemorize (js "k3")] (firstState [intro_script]))
              intro_script (js "<ul><li>hook</li></ul>") (js "q7") 3000
              eq_refl eq_refl eq_refl)))).
Defined.

End AppSpec.

(** ** The cue sheet *)

Module CuesFacts.

Import JsString JsStringMethods Cues AppVocabulary CuesVocabulary.

Lemma truthy_drop_whitespace (s : jsstring) :
  truthy (drop_whitespace s) = test_non_whitespace s.
Proof.
  induction s as [|c s IH]; [reflexivity|]. simpl.
  destruct (is_whitespace c); [exact IH|reflexivity].
Qed.

Lemma test_drop_whitespace (s : jsstring) :
  test_non_whitespace (drop_whitespace s) = test_non_whitespace s.
Proof.
  induction s as [|c s IH]; [reflexivity|].
  cbn [drop_whitespace]. destruct (is_whitespace c) eqn:Hc; [|reflexivity].
  rewrite IH. unfold test_non_whitespace. simpl. now rewrite Hc.
Qed.

Lemma test_rev (s : jsstring) :
  test_non_whitespace (rev s) = test_non_whitespace s.
Proof.
  unfold test_non_whitespace. induction s as [|c s IH]; [reflexivity|].
  simpl. rewrite existsb_app, IH. simpl.
  rewrite orb_false_r. apply orb_comm.
Qed.

Lemma truthy_rev (s : jsstring) : truthy (rev s) = truthy s.
Proof.
  destruct s as [|c s]; [reflexivity|]. simpl.
  now destruct (rev s).
Qed.

(** [!content.trim()] holds exactly for a text of whitespace only. *)
Lemma truthy_trim (s : jsstring) : truthy (trim s) = test_non_whitespace s.
Proof.
  unfold trim.
  now rewrite truthy_rev, truthy_drop_whitespace, test_rev,
    test_drop_whitespace.
Qed.

Lemma truthy_test (s : jsstring) :
  test_non_whitespace s = true -> truthy s = true.
Proof. now destruct s. Qed.

Lemma starts_with_app (pat s : jsstring) : starts_with pat (pat ++ s) = true.
Proof.
  induction pat as [|p pat IH]; [reflexivity|]. simpl.
  now rewrite Z.eqb_refl.
Qed.

Lemma includes_prefix (pat s : jsstring) : includes (pat ++ s) pat = true.
Proof.
  destruct (pat ++ s) eqn:Heq; simpl; rewrite <- Heq, starts_with_app;
    reflexivity.
Qed.

(** A text that is not blank and has a list tag is its own format. *)
Lemma formatInitialContent_html (html : jsstring) :
  test_non_whitespace html = true -> has_list_tag html = true ->
  formatInitialContent (Some html) = html.
Proof.
  intros Htext Htag. unfold formatInitialContent.
  rewrite truthy_trim, Htext, (truthy_test html Htext). simpl.
  unfold has_list_tag in Htag. now rewrite Htag.
Qed.

(** The three shapes of a result. *)
Lemma formatInitialContent_cases (content : option jsstring) :
  formatInitialContent content = emptyList \/
  (exists html, content = Some html /\ formatInitialContent content = html /\
                test_non_whitespace html = true /\ has_list_tag html = true) \/
  (exists html items,
     content = Some html /\ test_non_whitespace html = true /\
     has_list_tag html = false /\
     items = (if truthy (listItems html) then listItems html
              else js "<li><br></li>") /\
     formatInitialContent content = js "<ul>" ++ items ++ js "</ul>").
Proof.
  destruct content as [html|]; [|now left]. unfold formatInitialContent.
  rewrite truthy_trim.
  destruct (truthy html) eqn:Htr; [|now left].
  destruct (test_non_whitespace html) eqn:Htext; [|now left].
  simpl. fold (has_list_tag html).
  destruct (has_list_tag html) eqn:Htag.
  - right. left. now exists html.
  - right. right.
    exists html, (if truthy (listItems html) then listItems html
                  else js "<li><br></li>").
    split; [reflexivity|]. split; [exact Htext|]. split; [exact Htag|].
    split; reflexivity.
Qed.

(** Every result is a text with a list tag. *)
Lemma formatInitialContent_shape (content : option jsstring) :
  test_non_whitespace (formatInitialContent content) = true /\
  has_list_tag (formatInitialContent content) = true.
Proof.
  destruct (formatInitialContent_cases content)
    as [->|[(html & _ & -> & Htext & Htag)|(html & items & _ & _ & _ & _ & ->)]].
  - split; reflexivity.
  - now split.
  - split; [reflexivity|]. unfold has_list_tag.
    now rewrite (includes_prefix (js "<ul>") (items ++ js "</ul>")).
Qed.

Lemma formatInitialContent_fixed (content : option jsstring) :
  formatInitialContent (Some (formatInitialContent content))
  = formatInitialContent content.
Proof.
  destruct (formatInitialContent_shape content) as [Htext Htag].
  now apply formatInitialContent_html.
Qed.

(** *** The text of the lines *)

Lemma text_of_app (a b : jsstring) : text_of (a ++ b) = text_of a ++ text_of b.
Proof. apply filter_app. Qed.

Lemma text_of_test (s : jsstring) :
  test_non_whitespace s = true <-> text_of s <> [].
Proof.
  unfold test_non_whitespace, text_of, non_whitespace.
  induction s as [|c s IH]; simpl; [split; [discriminate|congruence]|].
  destruct (is_whitespace c); simpl; [exact IH|].
  split; [discriminate|reflexivity].
Qed.

Lemma text_drop_whitespace (s : jsstring) :
  text_of (drop_whitespace s) = text_of s.
Proof.
  unfold text_of, non_whitespace.
  induction s as [|c s IH]; [reflexivity|]. cbn [drop_whitespace].
  destruct (is_whitespace c) eqn:Hc; [|reflexivity].
  rewrite IH. simpl. now rewrite Hc.
Qed.

Lemma text_trim (s : jsstring) : text_of (trim s) = text_of s.
Proof.
  unfold trim. unfold text_of at 1. rewrite filter_rev.
  fold (text_of (drop_whitespace (rev (drop_whitespace s)))).
  rewrite text_drop_whitespace. unfold text_of at 1.
  rewrite filter_rev, rev_involutive. apply text_drop_whitespace.
Qed.

(** Splitting at a whitespace code unit loses no text. *)
Lemma text_split_from (sep : code_unit) (cur s : jsstring) :
  is_whitespace sep = true ->
  text_of (concat (split_from sep cur s)) = text_of (cur ++ s).
Proof.
  intros Hsep. revert cur. induction s as [|c s IH]; intros cur.
  - simpl. now rewrite !app_nil_r.
  - cbn [split_from]. destruct (Z.eqb_spec c sep) as [->|Hne].
    + rewrite concat_cons, !text_of_app, IH. simpl.
      unfold non_whitespace. now rewrite Hsep.
    + rewrite IH, <- app_assoc. reflexivity.
Qed.

Lemma concat_nonempty (ls : list jsstring) :
  concat (filter (fun line => 0 <? Z.of_nat (List.length line)) ls)
  = concat ls.
Proof.
  induction ls as [|l ls IH]; [reflexivity|]. simpl.
  destruct l as [|c l]; simpl; [exact IH|]. now rewrite IH.
Qed.

Lemma text_map_trim (ls : list jsstring) :
  text_of (concat (map trim ls)) = text_of (concat ls).
Proof.
  induction ls as [|l ls IH]; [reflexivity|]. simpl.
  now rewrite !text_of_app, text_trim, IH.
Qed.

Lemma cue_lines_text (content : jsstring) :
  text_of (concat (cue_lines content)) = text_of content.
Proof.
  unfold cue_lines, split.
  rewrite concat_nonempty, text_map_trim, text_split_from by reflexivity.
  reflexivity.
Qed.

(** *** The shape of a trimmed line *)

Lemma drop_whitespace_fixed (s : jsstring) :
  s = [] \/ Vocabulary.starts_with_non_whitespace s -> drop_whitespace s = s.
Proof.
  intros [->|Hhead]; [reflexivity|].
  destruct s as [|c s]; [destruct Hhead|]. simpl in *. now rewrite Hhead.
Qed.

Lemma drop_whitespace_twice (s : jsstring) :
  drop_whitespace (drop_whitespace s) = drop_whitespace s.
Proof.
  apply drop_whitespace_fixed, JsStringFacts.drop_whitespace_head.
Qed.

Lemma trim_trimmed (s : jsstring) : trimmed (trim s).
Proof.
  unfold trimmed, trim. rewrite rev_involutive. split;
    [|apply drop_whitespace_twice].
  set (A := drop_whitespace s).
  pose proof (JsStringFacts.drop_whitespace_head s) as HA. fold A in HA.
  pose proof (JsStringFacts.take_drop_whitespace (rev A)) as Hsplit.
  set (C := drop_whitespace (rev A)) in *.
  apply drop_whitespace_fixed.
  destruct (rev C) as [|h t] eqn:HC; [now left|right].
  assert (HArev : A = (h :: t) ++ rev (take_whitespace (rev A))).
  { rewrite <- HC, <- rev_app_distr, Hsplit. now rewrite rev_involutive. }
  destruct HA as [HA|HA].
  - rewrite HA in HArev. discriminate.
  - rewrite HArev in HA. exact HA.
Qed.

Lemma In_drop_whitespace (x : code_unit) (s : jsstring) :
  In x (drop_whitespace s) -> In x s.
Proof.
  induction s as [|c s IH]; [tauto|]. cbn [drop_whitespace].
  destruct (is_whitespace c); [|tauto]. intros H. right. now apply IH.
Qed.

Lemma In_trim (x : code_unit) (s : jsstring) : In x (trim s) -> In x s.
Proof.
  unfold trim. intros H. apply in_rev in H. apply In_drop_whitespace in H.
  apply in_rev in H. now apply In_drop_whitespace in H.
Qed.

(** No segment of a split holds the separator. *)
Lemma split_from_free (sep : code_unit) (cur s : jsstring) :
  ~ In sep cur -> Forall (fun seg => ~ In sep seg) (split_from sep cur s).
Proof.
  revert cur. induction s as [|c s IH]; intros cur Hcur.
  - now constructor.
  - cbn [split_from]. destruct (Z.eqb_spec c sep) as [->|Hne].
    + constructor; [exact Hcur|]. apply IH. tauto.
    + apply IH. intros Hin. apply in_app_or in Hin.
      destruct Hin as [Hin|[Hin|[]]]; [tauto|congruence].
Qed.

Lemma cue_lines_shape (content : jsstring) :
  Forall (fun line => line <> [] /\ trimmed line /\ ~ In 10 line)
    (cue_lines content).
Proof.
  unfold cue_lines. apply Forall_forall. intros line Hin.
  apply filter_In in Hin. destruct Hin as [Hin Hlen].
  apply in_map_iff in Hin. destruct Hin as (seg & <- & Hseg).
  split; [|split].
  - intros Hnil. rewrite Hnil in Hlen. discriminate.
  - apply trim_trimmed.
  - intros H10. apply In_trim in H10.
    pose proof (split_from_free 10 [] content (fun H => H)) as Hfree.
    rewrite Forall_forall in Hfree. exact (Hfree seg Hseg H10).
Qed.

End CuesFacts.

Module CuesSpec.

Import JsString JsStringMethods Cues CuesVocabulary CuesFacts.

Example formatInitialContent_two_lines :
  formatInitialContent (Some hook_story)
  = js "<ul><li>hook</li><li>story</li></ul>".
Proof. reflexivity. Qed.

(** X18.  The initial value of the cue editor is a fixed point of
    [formatInitialContent]: whatever the stored cues are (absent, empty,
    plain text or HTML), the value is not blank, holds a list tag, and is
    returned unchanged when it is formatted again.  So cues that were
    saved as formatted are the editor's initial value the next time. *)
Theorem formatInitialContent_idempotent (content : option jsstring) :
  let html := formatInitialContent content in
  blank html = false /\ has_list_tag html = true /\
  formatInitialContent (Some html) = html.
Proof.
  cbv zeta.
  destruct (formatInitialContent_shape content) as [Htext Htag].
  unfold blank. rewrite Htext. split; [reflexivity|]. split; [exact Htag|].
  now apply formatInitialContent_html.
Qed.

(** X19.  Plain text becomes a list of its lines.  For stored cues that
    are not blank and hold no list tag, the initial value of the editor
    is one [<li>] item per non-blank line, in order, inside one [<ul>].
    There is at least one item, so the fallback item [<li><br></li>] is
    never used here; every item's line is not empty, neither starts nor
    ends with whitespace and holds no line feed; and the lines together
    have the text of the cues: only whitespace is dropped. *)
Theorem plain_text_becomes_list (content : jsstring) :
  blank content = false -> has_list_tag content = false ->
  formatInitialContent (Some content)
  = js "<ul>" ++ concat (map list_item (cue_lines content)) ++ js "</ul>" /\
  cue_lines content <> [] /\
  Forall (fun line => line <> [] /\ trimmed line /\ ~ In 10 line)
    (cue_lines content) /\
  text_of (concat (cue_lines content)) = text_of content.
Proof.
  intros Hblank Htag. unfold blank in Hblank.
  apply negb_false_iff in Hblank.
  assert (Hlines : cue_lines content <> []).
  { intros Hnil. apply text_of_test in Hblank. apply Hblank.
    now rewrite <- cue_lines_text, Hnil. }
  split; [|split; [exact Hlines|split]].
  - unfold formatInitialContent.
    rewrite truthy_trim, Hblank, (truthy_test content Hblank).
    cbn [negb orb]. fold (has_list_tag content). rewrite Htag.
    assert (Hitems : listItems content
                     = concat (map list_item (cue_lines content)))
      by reflexivity.
    rewrite Hitems.
    destruct (cue_lines content) as [|line lines]; [congruence|].
    reflexivity.
  - apply cue_lines_shape.
  - apply cue_lines_text.
Qed.

Lemma plain_text_becomes_list_witness :
  blank hook_story = false /\ has_list_tag hook_story = false /\
  cue_lines hook_story <> [].
Proof.
  split; [reflexivity|]. split; [reflexivity|].
  exact (proj1 (proj2
           (plain_text_becomes_list hook_story eq_refl eq_refl))).
Defined.

End CuesSpec.

(** ** The cue editor *)

Module CueEditorFacts.

Import JsString JsStringMethods App Cues CueEditor AppVocabulary
  CueEditorVocabulary AppFacts.

Lemma differs_same (b : jsstring) : differs b (Some b) = false.
Proof. simpl. now rewrite jsstring_eqb_refl. Qed.

(** The cleanup empties a table whose timers all have the handle that
    the cleanup holds. *)
Lemma runCleanup_empties (st : Session) :
  (forall t, In t (saveTimers st) -> saveCleanup st = Some (save_handle t)) ->
  saveTimers (runCleanup st) = [] /\ shell (runCleanup st) = shell st /\
  bulletsHtml (runCleanup st) = bulletsHtml st /\
  nextSaveHandle (runCleanup st) = nextSaveHandle st.
Proof.
  intros Hall. unfold runCleanup.
  destruct (saveCleanup st) as [h|] eqn:Hc; simpl.
  - split; [|now repeat split].
    apply TimerFacts.filter_none. intros t Ht.
    specialize (Hall t Ht). injection Hall as ->.
    now rewrite Z.eqb_refl.
  - split; [|now repeat split].
    destruct (saveTimers st) as [|t ts]; [reflexivity|].
    specialize (Hall t (or_introl eq_refl)). discriminate.
Qed.

(** A run of the effect brings the window in step with the editor. *)
Lemma autoSaveEffect_in_step (now : Z) (st : Session) (script : Script) :
  view (shell st) = MemorizeView ->
  activeScript (shell st) = Some script ->
  (forall t, In t (saveTimers st) -> saveCleanup st = Some (save_handle t)) ->
  in_step (autoSaveEffect now st) /\
  shell (autoSaveEffect now st) = shell st /\
  bulletsHtml (autoSaveEffect now st) = bulletsHtml st /\
  saveTimers (autoSaveEffect now st)
  = (if differs (bulletsHtml st) (bullets script)
     then [pendingSave (nextSaveHandle st) (now + 1000) st script]
     else []).
Proof.
  intros Hview Hact Hall.
  destruct (runCleanup_empties st Hall) as (Hnil & Hshell & Hhtml & Hnext).
  unfold autoSaveEffect, in_step. cbv zeta.
  rewrite Hshell, Hact, Hhtml, Hnext.
  destruct (differs (bulletsHtml st) (bullets script)) eqn:Hd; simpl;
    rewrite ?Hshell, ?Hhtml, Hnil.
  - split; [|now repeat split].
    split; [exact Hview|]. exists script. split; [exact Hact|].
    split; [exact Hd|]. now exists (now + 1000).
  - split; [|now repeat split].
    split; [exact Hview|]. exists script. now repeat split.
Qed.

(** In step, every pending timer has the handle that the cleanup
    holds. *)
Lemma in_step_cleanup (st : Session) :
  in_step st ->
  forall t, In t (saveTimers st) -> saveCleanup st = Some (save_handle t).
Proof.
  intros (_ & script & _ & Hc) t Ht.
  destruct (saveCleanup st) as [h|].
  - destruct Hc as (_ & due & Heq). rewrite Heq in Ht.
    destruct Ht as [<-|[]]. reflexivity.
  - destruct Hc as (_ & Heq). rewrite Heq in Ht. destruct Ht.
Qed.

Lemma in_step_mount (firstHandle : positive) (now : Z) (a : AppState)
  (script : Script) :
  view a = MemorizeView -> activeScript a = Some script ->
  in_step (mount firstHandle now a script).
Proof.
  intros Hview Hact. unfold mount.
  apply (autoSaveEffect_in_step now _ script); simpl; try assumption.
  intros t [].
Qed.

(** In step, the shell after a save timeout is the shell's own turn for
    an auto-save. *)
Lemma savedShell_handle (newId : jsstring) (now h due : Z) (st : Session)
  (script : Script) :
  view (shell st) = MemorizeView ->
  activeScript (shell st) = Some script ->
  savedShell newId now (pendingSave h due st script) (shell st)
  = App.handle (MemorizerSave (bulletsHtml st) newId now) (shell st).
Proof.
  intros Hview Hact. unfold App.handle. rewrite Hview, Hact.
  rewrite (handleSave_outside_edit newId now _ (shell st) Hview).
  unfold savedShell, pendingSave, setScripts. simpl. now rewrite Hview.
Qed.

Lemma fireSave_in_step (now h : Z) (newId : jsstring) (st : Session) :
  in_step st -> in_step (fireSave now h newId st).
Proof.
  intros Hst. pose proof Hst as (Hview & script & Hact & Hc).
  unfold fireSave.
  destruct (find (fun t => save_handle t =? h) (saveTimers st)) as [t|] eqn:Hf;
    [|exact Hst].
  destruct (save_due t <=? now); [|exact Hst].
  apply find_some in Hf. destruct Hf as [Hin Hh]. apply Z.eqb_eq in Hh.
  destruct (saveCleanup st) as [h0|] eqn:Hcl.
  - destruct Hc as (Hd & due & Heq). rewrite Heq in Hin.
    destruct Hin as [<-|[]]. simpl in Hh. subst h0.
    assert (Hclear : saveTimers (clearSave h st) = []).
    { unfold clearSave. simpl. rewrite Heq. simpl. now rewrite Z.eqb_refl. }
    change (shell (clearSave h st)) with (shell st).
    rewrite (savedShell_handle newId now h due st script Hview Hact).
    set (a' := App.handle (MemorizerSave (bulletsHtml st) newId now) (shell st)).
    assert (Hview' : view a' = MemorizeView).
    { unfold a', App.handle. rewrite Hview, Hact.
      now rewrite handleSave_view, Hview. }
    assert (Hact' : exists script', activeScript a' = Some script').
    { unfold a', App.handle. rewrite Hview, Hact. unfold activeScript.
      rewrite handleSave_activeScriptId.
      destruct (activeScript_some _ _ Hact) as [-> _].
      apply save_keeps_active, Hact. }
    destruct Hact' as (script' & Hact').
    apply (autoSaveEffect_in_step now _ script'); simpl; try assumption.
    rewrite Heq. simpl. rewrite Z.eqb_refl. intros t [].
  - destruct Hc as (_ & Heq). rewrite Heq in Hin. destruct Hin.
Qed.

Lemma in_step_handle (now : Z) (ev : Event) (st : Session) :
  in_step st -> in_step (handle now ev st).
Proof.
  intros Hst. destruct ev as [innerHTML|h newId]; simpl.
  - unfold onInput.
    destruct (jsstring_eqb (bulletsHtml st) innerHTML); [exact Hst|].
    pose proof Hst as (Hview & script & Hact & _).
    apply (autoSaveEffect_in_step now _ script); simpl; try assumption.
    now apply in_step_cleanup.
  - now apply fireSave_in_step.
Qed.

Lemma in_step_run (evs : list (Z * Event)) (st : Session) :
  in_step st -> in_step (run evs st).
Proof.
  revert st. induction evs as [|[now ev] evs IH]; intros st Hst; [exact Hst|].
  simpl. apply IH. now apply in_step_handle.
Qed.

(** In step, the table is read off the editor and the stored cues. *)
Lemma in_step_timers (st : Session) :
  in_step st ->
  exists script,
    activeScript (shell st) = Some script /\
    if differs (bulletsHtml st) (bullets script)
    then exists h due,
        saveCleanup st = Some h /\
        saveTimers st = [pendingSave h due st script]
    else saveCleanup st = None /\ saveTimers st = [].
Proof.
  intros (_ & script & Hact & Hc). exists script. split; [exact Hact|].
  destruct (saveCleanup st) as [h|].
  - destruct Hc as (-> & due & Heq). now exists h, due.
  - destruct Hc as (-> & Heq). now split.
Qed.

End CueEditorFacts.

Module CueEditorSpec.

Import JsString JsStringMethods App Cues CueEditor AppVocabulary
  CuesVocabulary CueEditorVocabulary AppFacts CuesFacts CueEditorFacts.

(** X20.  No unsaved cues without a pending save.  In every state of a
    run from the mount of the memorizer (inputs and save timeouts), the
    memorizer still has its script, and the window holds a save timeout
    exactly when the editor differs from the stored cues: then it holds
    one, and that one saves the current editor content for the current
    script through the current render of the shell. *)
Theorem unsaved_cues_have_one_pending_save (firstHandle : positive) (t0 : Z)
  (a : AppState) (script : Script) (evs : list (Z * Event)) :
  view a = MemorizeView -> activeScript a = Some script ->
  let st := run evs (mount firstHandle t0 a script) in
  exists current,
    activeScript (shell st) = Some current /\
    if differs (bulletsHtml st) (bullets current)
    then exists h due, saveTimers st = [pendingSave h due st current]
    else saveTimers st = [].
Proof.
  intros Hview Hact. cbv zeta.
  pose proof (in_step_run evs _ (in_step_mount firstHandle t0 a script
                                   Hview Hact)) as Hst.
  destruct (in_step_timers _ Hst) as (current & Hcur & Htimers).
  exists current. split; [exact Hcur|].
  destruct (differs _ (bullets current)).
  - destruct Htimers as (h & due & _ & Heq). now exists h, due.
  - apply Htimers.
Qed.

Lemma unsaved_cues_have_one_pending_save_witness :
  view intro_open = MemorizeView /\
  activeScript intro_open = Some intro_script /\
  let st := run [(500, Input (js "<ul><li>hook</li></ul>"))]
              (mount 1 0 intro_open intro_script) in
  exists current,
    activeScript (shell st) = Some current /\
    if differs (bulletsHtml st) (bullets current)
    then exists h due, saveTimers st = [pendingSave h due st current]
    else saveTimers st = [].
Proof.
  split; [reflexivity|]. split; [reflexivity|].
  exact (unsaved_cues_have_one_pending_save 1 0 intro_open intro_script
           [(500, Input (js "<ul><li>hook</li></ul>"))] eq_refl eq_refl).
Defined.

(** X21.  The pending save stores the cues.  In a state of a run from
    mount whose script has a non-empty id, when the pending save timeout
    runs at or after its due time, the shell takes its turn for an
    auto-save of the editor content; afterwards the active script has
    exactly that content as its cues, the editor content is unchanged and
    no save is pending. *)
Theorem pending_save_stores_the_cues (firstHandle : positive) (t0 : Z)
  (a : AppState) (script : Script) (evs : list (Z * Event))
  (current : Script) (h due now : Z) (newId : jsstring) :
  view a = MemorizeView -> activeScript a = Some script ->
  let st := run evs (mount firstHandle t0 a script) in
  activeScript (shell st) = Some current -> truthy (id current) = true ->
  saveTimers st = [pendingSave h due st current] -> due <= now ->
  let st' := fireSave now h newId st in
  shell st' = App.handle (MemorizerSave (bulletsHtml st) newId now) (shell st) /\
  activeScript (shell st') = Some (with_bullets current (bulletsHtml st)) /\
  bulletsHtml st' = bulletsHtml st /\ saveTimers st' = [].
Proof.
  intros Hview Hact. cbv zeta.
  pose proof (in_step_run evs _ (in_step_mount firstHandle t0 a script
                                   Hview Hact)) as Hst.
  set (st := run evs (mount firstHandle t0 a script)) in *.
  intros Hcur Htr Htimers Hdue.
  pose proof Hst as (Hv & _).
  destruct (memorizerSave_step newId now (bulletsHtml st) (shell st) current
              Hv Hcur Htr) as [_ Hsaved].
  unfold fireSave. rewrite Htimers. simpl find. rewrite Z.eqb_refl.
  simpl save_due. destruct (Z.leb_spec due now) as [_|Hlt]; [|lia].
  change (shell (clearSave h st)) with (shell st).
  rewrite (savedShell_handle newId now h due st current Hv Hcur).
  set (a' := App.handle (MemorizerSave (bulletsHtml st) newId now) (shell st))
    in *.
  assert (Hv' : view a' = MemorizeView).
  { unfold a', App.handle. rewrite Hv, Hcur.
    now rewrite handleSave_view, Hv. }
  destruct (autoSaveEffect_in_step now (set_shell a' (clearSave h st))
              (with_bullets current (bulletsHtml st)))
    as (_ & Hshell & Hhtml & Htable); simpl; try assumption.
  { rewrite Htimers. simpl. rewrite Z.eqb_refl. intros t []. }
  rewrite Hshell, Hhtml, Htable. simpl.
  rewrite jsstring_eqb_refl. repeat split. exact Hsaved.
Qed.

Lemma pending_save_stores_the_cues_witness :
  let st := run [(500, Input (js "<ul><li>hook</li></ul>"))]
              (mount 1 0 intro_open intro_script) in
  view intro_open = MemorizeView /\
  activeScript intro_open = Some intro_script /\
  activeScript (shell st) = Some intro_script /\
  truthy (id intro_script) = true /\
  saveTimers st = [pendingSave 2 1500 st intro_script] /\ 1500 <= 1600 /\
  activeScript (shell (fireSave 1600 2 (js "q7") st))
  = Some (with_bullets intro_script (js "<ul><li>hook</li></ul>")).
Proof.
  cbv zeta.
  split; [reflexivity|]. split; [reflexivity|]. split; [reflexivity|].
  split; [reflexivity|]. split; [reflexivity|]. split; [lia|].
  assert (Hdue : 1500 <= 1600) by lia.
  exact (proj1 (proj2
           (pending_save_stores_the_cues 1 0 intro_open intro_script
              [(500, Input (js "<ul><li>hook</li></ul>"))]
              intro_script 2 1500 1600 (js "q7")
              eq_refl eq_refl eq_refl eq_refl eq_refl Hdue))).
Defined.

(** X22.  Typing restarts the wait.  In a state of a run from mount, an
    input that changes the editor content replaces whatever save was
    pending: if the new content differs from the stored cues, the one
    pending save is due a second after this input and saves the new
    content; if the new content is the stored cues again, no save is
    pending.  An input that does not change the content changes
    nothing. *)
Theorem input_restarts_the_wait (firstHandle : positive) (t0 : Z)
  (a : AppState) (script : Script) (evs : list (Z * Event))
  (current : Script) (now : Z) (html : jsstring) :
  view a = MemorizeView -> activeScript a = Some script ->
  let st := run evs (mount firstHandle t0 a script) in
  activeScript (shell st) = Some current ->
  let st' := onInput now html st in
  if jsstring_eqb (bulletsHtml st) html then st' = st
  else
    bulletsHtml st' = html /\ shell st' = shell st /\
    saveTimers st'
    = (if differs html (bullets current)
       then [{| save_handle := nextSaveHandle st; save_due := now + 1000;
                save_shell := shell st; save_script := current;
                save_bulletsHtml := html |}]
       else []).
Proof.
  intros Hview Hact. cbv zeta.
  pose proof (in_step_run evs _ (in_step_mount firstHandle t0 a script
                                   Hview Hact)) as Hst.
  set (st := run evs (mount firstHandle t0 a script)) in *.
  intros Hcur. unfold onInput.
  destruct (jsstring_eqb (bulletsHtml st) html); [reflexivity|].
  pose proof Hst as (Hv & _).
  destruct (autoSaveEffect_in_step now (set_bulletsHtml html st) current)
    as (_ & Hshell & Hhtml & Htable); simpl; try assumption.
  - now apply in_step_cleanup.
  - rewrite Hshell, Hhtml, Htable. repeat split.
Qed.

Lemma input_restarts_the_wait_witness :
  let st := run [(500, Input (js "<ul><li>hook</li></ul>"))]
              (mount 1 0 intro_open intro_script) in
  view intro_open = MemorizeView /\
  activeScript intro_open = Some intro_script /\
  activeScript (shell st) = Some intro_script /\
  saveTimers (onInput 900 (js "<ul><li>hook</li><li>story</li></ul>") st)
  = [{| save_handle := 3; save_due := 1900; save_shell := intro_open;
        save_script := intro_script;
        save_bulletsHtml := js "<ul><li>hook</li><li>story</li></ul>" |}].
Proof.
  cbv zeta.
  split; [reflexivity|]. split; [reflexivity|]. split; [reflexivity|].
  exact (proj2 (proj2
           (input_restarts_the_wait 1 0 intro_open intro_script
              [(500, Input (js "<ul><li>hook</li></ul>"))]
              intro_script 900 (js "<ul><li>hook</li><li>story</li></ul>")
              eq_refl eq_refl eq_refl))).
Defined.

(** X23.  Exit drops the pending save.  In a state of a run from mount,
    "Exit" returns the shell to the list and the cleanup of the effect
    clears the pending save: no save timeout is left, no timeout of the
    memorizer can run afterwards, and the stored scripts are as they
    were, so a change younger than a second is not stored. *)
Theorem exit_drops_pending_save (firstHandle : positive) (t0 : Z)
  (a : AppState) (script : Script) (evs : list (Z * Event)) :
  view a = MemorizeView -> activeScript a = Some script ->
  let st := run evs (mount firstHandle t0 a script) in
  saveTimers (exit st) = [] /\
  (forall now h newId, fireSave now h newId (exit st) = exit st) /\
  view (shell (exit st)) = ListView /\
  scripts (shell (exit st)) = scripts (shell st).
Proof.
  intros Hview Hact. cbv zeta.
  pose proof (in_step_run evs _ (in_step_mount firstHandle t0 a script
                                   Hview Hact)) as Hst.
  set (st := run evs (mount firstHandle t0 a script)) in *.
  destruct (runCleanup_empties st (in_step_cleanup st Hst))
    as (Hnil & Hshell & _).
  assert (Htable : saveTimers (exit st) = []) by exact Hnil.
  split; [exact Htable|]. split; [|split].
  - intros now h newId. unfold fireSave. now rewrite Htable.
  - reflexivity.
  - unfold exit. simpl.
    unfold runCleanup. now destruct (saveCleanup st).
Qed.

Lemma exit_drops_pending_save_witness :
  let st := run [(500, Input (js "<ul><li>hook</li></ul>"))]
              (mount 1 0 intro_open intro_script) in
  view intro_open = MemorizeView /\
  activeScript intro_open = Some intro_script /\
  saveTimers st <> [] /\ saveTimers (exit st) = [] /\
  scripts (shell (exit st)) = [intro_script].
Proof.
  cbv zeta.
  destruct (exit_drops_pending_save 1 0 intro_open intro_script
              [(500, Input (js "<ul><li>hook</li></ul>"))] eq_refl eq_refl)
    as (Hnil & _ & _ & Hscripts).
  split; [reflexivity|]. split; [reflexivity|]. split; [discriminate|].
  split; [exact Hnil|exact Hscripts].
Defined.

(** X24.  What mounting schedules.  The editor starts with the formatted
    cues.  When the stored cues are not that text (absent, empty, plain
    text), one save of the formatted text is pending from the mount on,
    due a second later, although nothing was typed.  When the stored
    cues are the result of an earlier formatting, the editor starts with
    exactly the stored cues and no save is pending. *)
Theorem mount_saves_unformatted_cues (firstHandle : positive) (now : Z)
  (a : AppState) (script : Script) :
  view a = MemorizeView -> activeScript a = Some script ->
  let st := mount firstHandle now a script in
  let html := formatInitialContent (bullets script) in
  bulletsHtml st = html /\ shell st = a /\
  saveTimers st
  = (if differs html (bullets script)
     then [{| save_handle := Z.pos firstHandle; save_due := now + 1000;
              save_shell := a; save_script := script;
              save_bulletsHtml := html |}]
     else []) /\
  (forall earlier,
     bullets script = Some (formatInitialContent earlier) ->
     bulletsHtml st = formatInitialContent earlier /\ saveTimers st = []).
Proof.
  intros Hview Hact. cbv zeta. unfold mount.
  destruct (autoSaveEffect_in_step now
              {| shell := a;
                 bulletsHtml := formatInitialContent (bullets script);
                 saveCleanup := None; saveTimers := [];
                 nextSaveHandle := Z.pos firstHandle |} script)
    as (_ & Hshell & Hhtml & Htable); simpl; try assumption.
  { intros t []. }
  simpl in Hshell, Hhtml, Htable.
  rewrite Hshell, Hhtml, Htable.
  split; [reflexivity|]. split; [reflexivity|]. split; [reflexivity|].
  intros earlier Hstored. rewrite Hstored, formatInitialContent_fixed.
  split; [reflexivity|]. now rewrite differs_same.
Qed.

Lemma mount_saves_unformatted_cues_witness :
  view intro_open = MemorizeView /\
  activeScript intro_open = Some intro_script /\
  saveTimers (mount 1 0 intro_open intro_script)
  = [{| save_handle := 1; save_due := 1000; save_shell := intro_open;
        save_script := intro_script;
        save_bulletsHtml := js "<ul><li><br></li></ul>" |}].
Proof.
  split; [reflexivity|]. split; [reflexivity|].
  exact (proj1 (proj2 (proj2
           (mount_saves_unformatted_cues 1 0 intro_open intro_script
              eq_refl eq_refl)))).
Defined.

End CueEditorSpec.

(** ** The script service *)

Module GeminiServiceSpec.

Import JsString JsStringMethods GeminiService CuesVocabulary CuesFacts.

Lemma trim_answer (text : jsstring) :
  truthy (trim text) = true -> blank (trim text) = false /\ trimmed (trim text).
Proof.
  intros Htr. split; [|apply trim_trimmed].
  destruct (trim_trimmed text) as [Hhead _].
  pose proof (truthy_drop_whitespace (trim text)) as Htest.
  rewrite Hhead in Htest. unfold blank. now rewrite <- Htest, Htr.
Qed.

(** X25.  The service uses the response exactly when its text is not
    blank.  Then [refineScript] and [generateInterviewAnswer] both
    return that text without the whitespace around it, which is not
    blank.  When the text is blank or missing, [refineScript] returns
    the draft unchanged and [generateInterviewAnswer] its message
    "Failed to generate answer. Please try again."; when the request
    throws, [refineScript] returns the draft unchanged and
    [generateInterviewAnswer] its message "Error connecting to AI.
    Please check your connection.".  So [generateInterviewAnswer] never
    returns a blank text. *)
Theorem service_answers (outcome : Outcome) (currentContent : jsstring) :
  match outcome with
  | Response (Some text) =>
      if blank text
      then refineScript outcome currentContent = currentContent /\
           generateInterviewAnswer outcome
           = js "Failed to generate answer. Please try again."
      else refineScript outcome currentContent = trim text /\
           generateInterviewAnswer outcome = trim text /\
           blank (trim text) = false /\ trimmed (trim text)
  | Response None =>
      refineScript outcome currentContent = currentContent /\
      generateInterviewAnswer outcome
      = js "Failed to generate answer. Please try again."
  | Throws =>
      refineScript outcome currentContent = currentContent /\
      generateInterviewAnswer outcome
      = js "Error connecting to AI. Please check your connection."
  end /\
  blank (generateInterviewAnswer outcome) = false /\
  trimmed (generateInterviewAnswer outcome).
Proof.
  destruct outcome as [|[text|]]; cbn [refineScript generateInterviewAnswer
                                      option_map or_default].
  - repeat split.
  - pose proof (truthy_trim text) as Htr. unfold blank at 1.
    destruct (test_non_whitespace text); cbn [negb]; rewrite Htr.
    + destruct (trim_answer text Htr) as [Hblank Htrim].
      repeat split; try assumption; apply Htrim.
    + repeat split.
  - repeat split.
Qed.

End GeminiServiceSpec.

(** ** The progress bar of a script with words *)

Module ProgressBarSpec.

Import JsString JsNumber Memorizer MemorizerView Vocabulary ViewVocabulary
  StateFacts.

Lemma integer_of_value (x : float) (z : Z) :
  integer_of x = Some z -> integer_value x z.
Proof.
  unfold integer_of, integer_value.
  destruct (Prim2SF x) as [sg|sg| |sg m e]; try discriminate.
  - intros H. now injection H as <-.
  - destruct (Z.leb_spec 0 e) as [He|He]; [intros H; now injection H as <-|].
    destruct (Z.eqb_spec (Z.pos m mod 2 ^ (- e)) 0) as [Hmod|];
      [|discriminate].
    intros H. injection H as <-.
    assert (Hpow : 0 < 2 ^ (- e)) by (apply Z.pow_pos_nonneg; lia).
    pose proof (Z.div_mod (Z.pos m) (2 ^ (- e)) ltac:(lia)) as Hdiv.
    rewrite Hmod, Z.add_0_r in Hdiv.
    set (q := Z.pos m / 2 ^ (- e)) in *. set (p := 2 ^ (- e)) in *.
    destruct sg; unfold cond_Zopp.
    + change (Z.neg m) with (- Z.pos m). rewrite Hdiv. ring.
    + rewrite Hdiv. ring.
Qed.

Lemma progress_row_sound (n : nat) (bc total : Z) :
  progress_row n bc total = true ->
  forall b, bc <= b < bc + Z.of_nat n -> progress_ok b total = true.
Proof.
  revert bc. induction n as [|n IH]; intros bc Hrow b Hb; [lia|].
  simpl in Hrow. apply andb_true_iff in Hrow. destruct Hrow as [Hhead Hrow].
  destruct (Z.eq_dec b bc) as [->|Hne]; [exact Hhead|].
  apply (IH (bc + 1) Hrow). lia.
Qed.

Lemma progress_rows_sound (n : nat) (total : Z) :
  0 <= total -> progress_rows n total = true ->
  forall t b, total <= t < total + Z.of_nat n -> 0 <= b <= t ->
              progress_ok b t = true.
Proof.
  revert total. induction n as [|n IH]; intros total Htotal Hrows t b Ht Hb;
    [lia|].
  simpl in Hrows. apply andb_true_iff in Hrows. destruct Hrows as [Hrow Hrows].
  destruct (Z.eq_dec t total) as [->|Hne].
  - apply (progress_row_sound _ 0 total Hrow). lia.
  - apply (IH (total + 1)); [lia|exact Hrows|lia|exact Hb].
Qed.

(** Every counter of every total from 1 to 300, evaluated. *)
Lemma progress_rows_300 : progress_rows 300 1 = true.
Proof. vm_compute. reflexivity. Qed.

(** X26.  For a script of 1 to 300 words and a counter from 0 to
    [totalWords], the percentage in the header is a whole number from 0
    to 100 that is at most half a point from [100 * blackedOutCount /
    totalWords]; the counter is in that range in every run from mount in
    which every call is rendered before the next. *)
Theorem progressPercentage_within_half_point (content : jsstring)
  (firstHandle : positive) (evs : list (Z * Event)) :
  0 < totalWords (wordIndices (words content)) <= 300 ->
  let total := totalWords (wordIndices (words content)) in
  let shown (bc : Z) :=
    exists z,
      integer_value (progressPercentage bc total) z /\
      0 <= z <= 100 /\
      2 * Z.abs (z * total - 100 * bc) <= total in
  (forall bc, 0 <= bc <= total -> shown bc) /\
  shown (blackedOutCount (state (turns content evs (mount firstHandle)))).
Proof.
  intros Htotal. cbv zeta.
  set (total := totalWords (wordIndices (words content))) in *.
  assert (Hall : forall bc, 0 <= bc <= total ->
            exists z,
              integer_value (progressPercentage bc total) z /\
              0 <= z <= 100 /\
              2 * Z.abs (z * total - 100 * bc) <= total).
  { intros bc Hrange.
    pose proof (progress_rows_sound 300 1 ltac:(lia) progress_rows_300
                  total bc ltac:(lia) Hrange) as Hok.
    unfold progress_ok in Hok.
    destruct (integer_of (progressPercentage bc total))
      as [z|] eqn:Hz; [|discriminate].
    exists z. split; [now apply integer_of_value|].
    unfold within_half_point in Hok.
    apply andb_true_iff in Hok. destruct Hok as [Hok Hhalf].
    apply andb_true_iff in Hok. destruct Hok as [Hlo Hhi].
    apply Z.leb_le in Hlo, Hhi, Hhalf. now repeat split. }
  split; [exact Hall|].
  apply Hall, turns_blackedOutCount_range.
Qed.

Lemma progressPercentage_within_half_point_witness :
  0 < totalWords (wordIndices (words hello_world_foo)) <= 300 /\
  exists z,
    integer_value
      (progressPercentage
         (blackedOutCount
            (state (turns hello_world_foo [(0, NextStep)] (mount 1))))
         (totalWords (wordIndices (words hello_world_foo)))) z /\
    0 <= z <= 100 /\
    2 * Z.abs (z * totalWords (wordIndices (words hello_world_foo))
               - 100 * blackedOutCount
                         (state (turns hello_world_foo [(0, NextStep)]
                                   (mount 1))))
    <= totalWords (wordIndices (words hello_world_foo)).
Proof.
  assert (Htotal : 0 < totalWords (wordIndices (words hello_world_foo)) <= 300)
    by (split; [reflexivity|discriminate]).
  split; [exact Htotal|].
  exact (proj2 (progressPercentage_within_half_point hello_world_foo 1
                  [(0, NextStep)] Htotal)).
Defined.

End ProgressBarSpec.
